(** * MRBot-Offline: the language-model core of
    [src/js/neural-language-model-transformer.js]

  A shallow embedding of the tokenizer ([fit], [encode], [decode]), of the
  curriculum filter and persistence of [trainModel], of the beam search and
  rule-based fallback of [generateResponse], and of [exportModel] /
  [importModel], followed by the properties checked against them.

  Modelling conventions.
  - JavaScript strings are [string]s over the ASCII range: [toLowerCase]
    folds [A-Z], and the class [\s] is the six ASCII white-space characters.
  - A JavaScript [Map] is an association list in insertion order ([JsMap]);
    [set] on a present key overwrites in place, on a new key appends.
  - A value that is either a number or [undefined] (the result of
    [Map.get]) is an [option]; [None] is [undefined].
  - A plain object used as a table and indexed by a string answers for
    its own keys and, for the names of the members it inherits from
    [Object.prototype], with that member ([JsObject]).
  - [Math.random()], [new Date()] and TensorFlow.js are inputs: draws are
    rationals in the half-open unit interval, and the TensorFlow calls are
    fields of a [Runtime] record that may fail (a thrown exception). *)

From Stdlib Require Import String Ascii List Bool Arith ZArith QArith Qround Lia.
From Stdlib Require Import Permutation.
Import ListNotations.
Close Scope Q_scope.
Open Scope string_scope.
Open Scope list_scope.
Open Scope nat_scope.

(* ================================================================== *)
(** ** JavaScript strings *)
(* ================================================================== *)

Module JsString.

(** [\s] restricted to ASCII: TAB, LF, VT, FF, CR and SPACE. *)
Definition is_space (c : ascii) : bool :=
  let n := nat_of_ascii c in
  ((9 <=? n) && (n <=? 13)) || (n =? 32).

Definition is_upper (c : ascii) : bool :=
  let n := nat_of_ascii c in (65 <=? n) && (n <=? 90).

Definition lower_char (c : ascii) : ascii :=
  if is_upper c then ascii_of_nat (nat_of_ascii c + 32) else c.

(** [s.toLowerCase()] *)
Fixpoint toLowerCase (s : string) : string :=
  match s with
  | EmptyString => EmptyString
  | String c r => String (lower_char c) (toLowerCase r)
  end.

(** [s.split(/\s+/)]: the fields between maximal white-space runs.  A
    leading or trailing run yields an empty first or last field, and the
    empty string yields one empty field.  [in_run] tells that the previous
    character belonged to a white-space run. *)
Fixpoint split_from (in_run : bool) (s : string) : list string :=
  match s with
  | EmptyString => [EmptyString]
  | String c r =>
      if is_space c then
        if in_run then split_from true r
        else EmptyString :: split_from true r
      else
        match split_from false r with
        | w :: ws => String c w :: ws
        | [] => [String c EmptyString]
        end
  end.

Definition split_ws (s : string) : list string := split_from false s.

(** [parts.join(' ')] *)
Fixpoint join_sp (parts : list string) : string :=
  match parts with
  | [] => EmptyString
  | [p] => p
  | p :: rest => (p ++ " " ++ join_sp rest)%string
  end.

(** [hay.startsWith(needle)] and [hay.includes(needle)] *)
Fixpoint starts_with (needle hay : string) : bool :=
  match needle, hay with
  | EmptyString, _ => true
  | String _ _, EmptyString => false
  | String a n', String b h' => Ascii.eqb a b && starts_with n' h'
  end.

Fixpoint includes (hay needle : string) : bool :=
  starts_with needle hay ||
  match hay with
  | EmptyString => false
  | String _ h' => includes h' needle
  end.

Definition has_upper (s : string) : bool :=
  existsb is_upper (list_ascii_of_string s).

Definition nonempty (s : string) : bool :=
  match s with EmptyString => false | String _ _ => true end.

End JsString.

(* ================================================================== *)
(** ** JavaScript [Map] as an insertion-ordered association list *)
(* ================================================================== *)

Module JsMap.
Section Defs.
Context {K V : Type}.
Variable eqb : K -> K -> bool.

Definition t := list (K * V).

Fixpoint get (m : list (K * V)) (k : K) : option V :=
  match m with
  | [] => None
  | (k', v) :: r => if eqb k k' then Some v else get r k
  end.

Definition has (m : list (K * V)) (k : K) : bool :=
  match get m k with Some _ => true | None => false end.

Fixpoint set (m : list (K * V)) (k : K) (v : V) : list (K * V) :=
  match m with
  | [] => [(k, v)]
  | (k', v') :: r =>
      if eqb k k' then (k', v) :: r else (k', v') :: set r k v
  end.

Definition size (m : list (K * V)) : nat := List.length m.

Definition clear (m : list (K * V)) : list (K * V) := [].

Definition keys (m : list (K * V)) : list K := map fst m.
End Defs.
End JsMap.

(* ================================================================== *)
(** ** Plain objects indexed by strings *)
(* ================================================================== *)

Module JsObject.

(** [String(f)] for a built-in function named [name]. *)
Definition native_function (name : string) : string :=
  ("function " ++ name ++ "() { [native code] }")%string.

Definition inherited_methods : list string :=
  ["toString"; "toLocaleString"; "valueOf"; "hasOwnProperty";
   "isPrototypeOf"; "propertyIsEnumerable"; "__defineGetter__";
   "__defineSetter__"; "__lookupGetter__"; "__lookupSetter__"].

(** [obj[name]] for an object literal [obj] without own key [name]: the
    members of [Object.prototype] are found through the prototype chain.
    All of them are objects, hence truthy and without a method [push];
    in a comparison or an addition such a value is seen through its
    conversion to a string, which is what is kept here.  "constructor"
    is the function [Object], "__proto__" the prototype object itself,
    the others are functions of their own name.  The strings are those
    of V8; engines differ in the white space after the name of a
    function, which a comparison of two of these strings never reaches,
    since no name is a prefix of another.  [None] is [undefined]. *)
Definition inherited (name : string) : option string :=
  if String.eqb name "constructor" then Some (native_function "Object")
  else if String.eqb name "__proto__" then Some "[object Object]"
  else if existsb (String.eqb name) inherited_methods
       then Some (native_function name)
  else None.

Definition is_inherited (name : string) : bool :=
  match inherited name with Some _ => true | None => false end.

End JsObject.

Abbreviation sget := (JsMap.get String.eqb).
Abbreviation shas := (JsMap.has String.eqb).
Abbreviation sset := (JsMap.set String.eqb).
Abbreviation nget := (JsMap.get Nat.eqb).
Abbreviation nset := (JsMap.set Nat.eqb).

(* ================================================================== *)
(** ** The tokenizer object of [initializeTokenizer] *)
(* ================================================================== *)

Module Tokenizer.
Import JsString.

(** A token id as JavaScript sees it: a number, or [undefined]. *)
Definition tok := option nat.

Definition tok_eqb (a b : tok) : bool :=
  match a, b with
  | Some x, Some y => Nat.eqb x y
  | None, None => true
  | _, _ => false
  end.

Record t := mk {
  word2idx : list (string * nat);
  idx2word : list (nat * string);
  subwords : list (string * nat);
  vocabSize : nat
}.

(** The object literal of [initializeTokenizer], before any [fit]. *)
Definition unfit : t := mk [] [] [] 0.

Definition PAD := "<PAD>".
Definition UNK := "<UNK>".
Definition START := "<START>".
Definition END_ := "<END>".

(** *** [fit] *)

(** First pass: [wordFreq.set(word, (wordFreq.get(word) || 0) + 1)]. *)
Definition count_word (wf : list (string * nat)) (word : string) :=
  sset wf word (match sget wf word with Some c => c | None => 0 end + 1).

Definition count_text (wf : list (string * nat)) (text : string) :=
  fold_left count_word (split_ws (toLowerCase text)) wf.

Definition wordFreq (texts : list string) : list (string * nat) :=
  fold_left count_text texts [].

(** Second pass, innermost loop: [for (i = 0; i <= word.length - n; i++)]
    run over the list of start positions. *)
Definition add_ngram (word : string) (n freq : nat)
           (cands : list (string * nat)) (i : nat) :=
  let subword := substring i n word in
  sset cands subword
       (match sget cands subword with Some c => c | None => 0 end + freq).

Definition add_ngrams_n (word : string) (freq : nat)
           (cands : list (string * nat)) (n : nat) :=
  if String.length word <? n then cands
  else fold_left (add_ngram word n freq)
                 (seq 0 (String.length word - n + 1)) cands.

Definition add_word_ngrams (cands : list (string * nat))
           (entry : string * nat) :=
  let (word, freq) := entry in
  if String.length word <=? 1 then cands
  else fold_left (add_ngrams_n word freq) [2; 3; 4] cands.

Definition subwordCandidates (wf : list (string * nat)) :=
  fold_left add_word_ngrams wf [].

(** [.sort((a, b) => b[1] - a[1])]: a stable sort by decreasing count,
    written as an insertion sort. *)
Fixpoint insert_desc (x : string * nat) (l : list (string * nat)) :=
  match l with
  | [] => [x]
  | y :: r => if snd y <=? snd x then x :: y :: r
              else y :: insert_desc x r
  end.

Definition sort_desc (l : list (string * nat)) :=
  fold_right insert_desc [] l.

Definition sortedSubwords (wf : list (string * nat)) :=
  firstn 5000 (sort_desc (subwordCandidates wf)).

(** The mutable part of [fit]: the three maps and the running [idx]. *)
Record building := mkb {
  b_word2idx : list (string * nat);
  b_idx2word : list (nat * string);
  b_subwords : list (string * nat);
  b_idx : nat
}.

(** The head of [fit]: the three [clear()] calls, then the reserved
    tokens are set in both directions and [idx] starts at 4. *)
Definition reserved (this : t) : building :=
  let w := JsMap.clear (word2idx this) in
  let i := JsMap.clear (idx2word this) in
  let s := JsMap.clear (subwords this) in
  mkb (sset (sset (sset (sset w PAD 0) UNK 1) START 2) END_ 3)
      (nset (nset (nset (nset i 0 PAD) 1 UNK) 2 START) 3 END_)
      s 4.

Definition add_subword (b : building) (entry : string * nat) : building :=
  let subword := fst entry in
  mkb (sset (b_word2idx b) subword (b_idx b))
      (nset (b_idx2word b) (b_idx b) subword)
      (sset (b_subwords b) subword (b_idx b))
      (S (b_idx b)).

Definition add_whole_word (b : building) (entry : string * nat) : building :=
  let word := fst entry in
  if shas (b_word2idx b) word then b
  else mkb (sset (b_word2idx b) word (b_idx b))
           (nset (b_idx2word b) (b_idx b) word)
           (b_subwords b)
           (S (b_idx b)).

Definition build (this : t) (texts : list string) : building :=
  let wf := wordFreq texts in
  fold_left add_whole_word wf
            (fold_left add_subword (sortedSubwords wf) (reserved this)).

(** [fit] ends with [this.vocabSize = this.word2idx.size]. *)
Definition fit (this : t) (texts : list string) : t :=
  let b := build this texts in
  mk (b_word2idx b) (b_idx2word b) (b_subwords b)
     (JsMap.size (b_word2idx b)).

(** *** [encode] *)

(** [for (len = Math.min(4, word.length - i); len >= 2; len--)]: the
    longest sub-word starting at [i], with its id. *)
Fixpoint match_longest (tk : t) (word : string) (i len : nat)
  : option (nat * tok) :=
  match len with
  | S ((S _) as len') =>
      let subword := substring i len word in
      if shas (subwords tk) subword
      then Some (len, sget (subwords tk) subword)
      else match_longest tk word i len'
  | _ => None
  end.

(** [for (let i = 0; i < word.length;)]: the pushed tokens and the final
    [wordEncoded].  Every round advances [i], so [n] rounds with
    [n >= word.length - i] reach the end of the word. *)
Fixpoint subword_loop (n : nat) (tk : t) (word : string) (i : nat)
  : list tok * bool :=
  match n with
  | 0 => ([], false)
  | S n' =>
      if i <? String.length word then
        match match_longest tk word i (Nat.min 4 (String.length word - i)) with
        | Some (len, id) =>
            let (rest, _) := subword_loop n' tk word (i + len) in
            (id :: rest, true)
        | None =>
            let (rest, enc) := subword_loop n' tk word (i + 1) in
            (sget (word2idx tk) UNK :: rest, enc)
        end
      else ([], false)
  end.

(** The tokens one word appends to [result]. *)
Definition encode_word (tk : t) (word : string) : list tok :=
  if shas (word2idx tk) word then [sget (word2idx tk) word]
  else
    let (pushed, wordEncoded) :=
      subword_loop (String.length word) tk word 0 in
    if wordEncoded then pushed
    else pushed ++ [sget (word2idx tk) UNK].

(** [for (const word of words) { ...; if (result.length >= maxLength - 1) break; }] *)
Fixpoint encode_words (tk : t) (maxLength : Z) (words : list string)
         (result : list tok) : list tok :=
  match words with
  | [] => result
  | word :: rest =>
      let result' := result ++ encode_word tk word in
      if (Z.of_nat (List.length result') >=? maxLength - 1)%Z then result'
      else encode_words tk maxLength rest result'
  end.

Definition encode (tk : t) (text : string) (maxLength : Z) : list tok :=
  let words := split_ws (toLowerCase text) in
  let result := encode_words tk maxLength words [sget (word2idx tk) START] in
  let result := result ++ [sget (word2idx tk) END_] in
  result ++ repeat (sget (word2idx tk) PAD)
                   (Z.to_nat (maxLength - Z.of_nat (List.length result))).

(** *** [decode] *)

Definition idx2word_get (tk : t) (idx : tok) : option string :=
  match idx with
  | Some i => nget (idx2word tk) i
  | None => None
  end.

Definition flush (currentWord : string) (result : list (option string)) :=
  if nonempty currentWord then result ++ [Some currentWord] else result.

(** The [for (const idx of sequence)] loop with its [continue] and
    [break]; returns [result] after the final flush of [currentWord]. *)
Fixpoint decode_loop (tk : t) (sequence : list tok)
         (result : list (option string)) (currentWord : string)
  : list (option string) :=
  match sequence with
  | [] => flush currentWord result
  | idx :: rest =>
      if tok_eqb idx (sget (word2idx tk) PAD)
         || tok_eqb idx (sget (word2idx tk) START)
      then decode_loop tk rest result currentWord
      else if tok_eqb idx (sget (word2idx tk) END_)
      then flush currentWord result
      else
        match idx2word_get tk idx with
        | Some token =>
            if shas (subwords tk) token
            then decode_loop tk rest result (currentWord ++ token)%string
            else
              let result := flush currentWord result in
              if String.eqb token UNK
              then decode_loop tk rest (result ++ [Some "?"]) ""
              else decode_loop tk rest (result ++ [Some token]) ""
        | None =>
            decode_loop tk rest (flush currentWord result ++ [None]) ""
        end
  end.

(** [Array.prototype.join] prints [undefined] as the empty string. *)
Definition render (e : option string) : string :=
  match e with Some s => s | None => EmptyString end.

Definition decode (tk : t) (sequence : list tok) : string :=
  join_sp (map render (decode_loop tk sequence [] "")).

(** How a call ends: with a value, or with a thrown exception.  Neither
    [encode] nor [decode] contains a [throw] or an operation that can
    raise on a string and a number, so both always end with a value. *)
Inductive completion (A : Type) : Type :=
| Normal (value : A)
| Throw (name : string).
Arguments Normal {A} value.
Arguments Throw {A} name.

Definition call_encode (tk : t) (text : string) (maxLength : Z)
  : completion (list tok) := Normal (encode tk text maxLength).

Definition call_decode (tk : t) (sequence : list tok)
  : completion string := Normal (decode tk sequence).

(** *** Sub-word resegmentation, as a function on words

    The words of a text after [decode] has glued together every maximal
    run of neighbours that are sub-word entries.  This is the reading of
    "up to sub-word resegmentation" that [decode (encode t)] is compared
    with; it is not part of the program. *)
Definition flush_word (currentWord : string) (result : list string) :=
  if nonempty currentWord then result ++ [currentWord] else result.

Fixpoint resegment_from (tk : t) (words : list string)
         (result : list string) (currentWord : string) : list string :=
  match words with
  | [] => flush_word currentWord result
  | w :: rest =>
      if shas (subwords tk) w
      then resegment_from tk rest result (currentWord ++ w)%string
      else resegment_from tk rest (flush_word currentWord result ++ [w]) ""
  end.

Definition resegment (tk : t) (words : list string) : list string :=
  resegment_from tk words [] "".

(** *** Invariants of the tables *)

Definition swap (e : string * nat) : nat * string := (snd e, fst e).

Definition reserved_entries : list (string * nat) :=
  [(PAD, 0); (UNK, 1); (START, 2); (END_, 3)].

(** What the loops of [fit] maintain: the word table is the reserved
    entries followed by learned ones, keys are pairwise distinct, the ids
    read in insertion order are [0, 1, ..., idx - 1], and the id table is
    the word table with every pair swapped. *)
Record consistent (b : building) : Prop := {
  c_prefix : exists learned, b_word2idx b = reserved_entries ++ learned;
  c_keys : NoDup (JsMap.keys (b_word2idx b));
  c_ids : map snd (b_word2idx b) = seq 0 (b_idx b);
  c_inverse : b_idx2word b = map swap (b_word2idx b)
}.

(** The candidate sub-words have pairwise distinct keys of at most four
    characters. *)
Definition short_keys (m : list (string * nat)) : Prop :=
  NoDup (JsMap.keys m) /\
  Forall (fun k => String.length k <= 4) (JsMap.keys m).

Definition is_defined (x : tok) : bool :=
  match x with Some _ => true | None => false end.

End Tokenizer.

(* ================================================================== *)
(** ** The environment: random draws and TensorFlow.js *)
(* ================================================================== *)

Module Env.
Import Tokenizer.

(** One result of [Math.random()]: a number in [0, 1).  Draws are
    doubles, hence rationals; comparing a double with the literal [0.5]
    or [0.2] gives the same answer as comparing it with 1/2 or 1/5,
    because no double lies strictly between 1/5 and the double nearest
    to it. *)
Record draw := mk_draw {
  draw_val : Q;
  draw_range : Qle_bool 0%Q draw_val && negb (Qle_bool 1%Q draw_val) = true
}.

(** [Math.random() < q] *)
Definition draw_lt (d : draw) (q : Q) : bool :=
  negb (Qle_bool q (draw_val d)).

(** [Math.floor(Math.random() * n)], with the product taken exactly; the
    rounded product of JavaScript has the same floor except possibly at a
    boundary between two indices, and also stays below [n]. *)
Definition draw_index (d : draw) (n : nat) : nat :=
  Z.to_nat (Qfloor (draw_val d * inject_Z (Z.of_nat n))%Q).

(** The sequence of future results of [Math.random()]; the program state
    carries the position of the next one. *)
Definition random_source := nat -> draw.

(** A computation that may call [Math.random()]. *)
Definition rand_m (A : Type) : Type := random_source -> nat -> A * nat.

Definition ret {A} (a : A) : rand_m A := fun _ pos => (a, pos).

Definition bind {A B} (m : rand_m A) (k : A -> rand_m B) : rand_m B :=
  fun src pos => let (a, pos') := m src pos in k a src pos'.

Definition random : rand_m draw := fun src pos => (src pos, S pos).

(** [a || b] and [a && b] evaluate [b] only when needed. *)
Definition or_else (a b : rand_m bool) : rand_m bool :=
  bind a (fun x => if x then ret true else b).

Definition and_then (a b : rand_m bool) : rand_m bool :=
  bind a (fun x => if x then b else ret false).

(** [array.filter(pred)] for a predicate that may draw. *)
Fixpoint filter_m {A} (pred : A -> rand_m bool) (l : list A)
  : rand_m (list A) :=
  match l with
  | [] => ret []
  | x :: rest =>
      bind (pred x) (fun keep =>
      bind (filter_m pred rest) (fun kept =>
      ret (if keep then x :: kept else kept)))
  end.

(** The hyper-parameters of [this.parameters] that are integers; the
    real-valued ones are of the run-time's number type, see [Runtime]. *)
Record sizes := mk_sizes {
  batchSize : nat;
  epochs : nat;
  embeddingDim : Z;
  hiddenUnits : Z;
  maxSequenceLength : Z;
  vocabularySize : Z;
  numHeads : Z;
  numLayers : Z;
  ffDim : Z
}.

(** What the class uses of JavaScript numbers and of TensorFlow.js.  A
    call that can throw returns an [option]; [None] is the exception.
    - [number]: IEEE doubles, with the operations the class applies.
    - [Net]: a [tf.LayersModel], architecture together with its current
      weights.
    - [create]: the body of [createModel] - a new network built from the
      parameters alone, with the weights its initialisers give it.
    - [net_fit]: [model.fit], which trains in place; it returns the
      network after training and the history, if it did not throw.
    - [predict_topk]: for one beam, [model.predict], the slice at
      position [i], [log], the division by the temperature and the two
      [topk(beamWidth)] reads, giving [indices] and [values]. *)
Record Runtime := mk_runtime {
  number : Type;
  num_lit : Q -> number;
  num_add : number -> number -> number;
  num_log : number -> number;
  num_gt : number -> number -> bool;
  num_truthy : number -> bool;
  num_is_nan : number -> bool;
  Net : Type;
  NetJSON : Type;
  Tensor : Type;
  tensor2d : list (list tok) -> option Tensor;
  oneHot : Tensor -> nat -> option Tensor;
  create : sizes -> number -> number -> option Net;
  toJSON : Net -> NetJSON;
  net_fit : Net -> Tensor -> Tensor -> Tensor -> nat -> nat -> number ->
            Net * option (option (list number) * option (list number));
  predict_topk : Net -> Tensor -> Tensor -> nat -> nat -> number -> nat ->
                 option ((nat -> nat) * (nat -> number))
}.

End Env.

(* ================================================================== *)
(** ** The class [NeuralLanguageModel] *)
(* ================================================================== *)

Module NeuralLanguageModel.
Import JsString Tokenizer Env.

Section WithRuntime.
Variable R : Runtime.

(** *** Data *)

Record parameters := mk_parameters {
  p_sizes : sizes;
  learningRate : number R;
  temperature : number R;
  dropoutRate : number R
}.

Record trainingMetrics := mk_metrics {
  totalTrainingSessions : nat;
  totalExamples : nat;
  lastTrainingTime : option string;
  accuracy : option (number R);
  loss : option (number R);
  progressLevel : string
}.

Record turn := mk_turn { user : string; bot : string; timestamp : string }.

Record conversationContext := mk_context {
  history : list turn;
  currentTopic : option string
}.

(** The data manager as far as the class reaches into it: its own
    [initialized] flag and the slot [modelData.tokenizer]. *)
Record dataManager := mk_dm {
  dm_initialized : bool;
  dm_tokenizer : option Tokenizer.t
}.

Record nlm := mk_nlm {
  initialized : bool;
  model : option (Net R);
  tokenizer : option Tokenizer.t;
  manager : option dataManager;
  params : parameters;
  context : conversationContext;
  metrics : trainingMetrics
}.

(** A conversation pair [[input, output]] or [[input, output, metadata]];
    [metadata] is [None] when the third entry is missing or falsy, and
    [difficulty] is [None] unless [metadata.difficulty] is a string. *)
Record metadata := mk_meta { difficulty : option string }.

Record pair := mk_pair {
  input : string;
  output : string;
  meta : option metadata
}.

(** *** Curriculum selection in [trainModel] *)

(** A value read from the table [difficultyOrder]: the number of an own
    key, or an inherited member, kept as the string it converts to. *)
Inductive ordinal :=
| Rank (n : nat)
| Member (text : string).

(** [difficultyOrder[name]]; [None] is [undefined]. *)
Definition difficultyOrder (name : string) : option ordinal :=
  if String.eqb name "beginner" then Some (Rank 0)
  else if String.eqb name "elementary" then Some (Rank 1)
  else if String.eqb name "intermediate" then Some (Rank 2)
  else if String.eqb name "advanced" then Some (Rank 3)
  else if String.eqb name "expert" then Some (Rank 4)
  else option_map Member (JsObject.inherited name).

(** [x || 0]: [undefined] and the number 0 are falsy, an object is not. *)
Definition or_zero (x : option ordinal) : ordinal :=
  match x with
  | Some (Rank n) => Rank n
  | Some (Member text) => Member text
  | None => Rank 0
  end.

(** [a <= b].  Two numbers are compared as numbers.  An object against
    a number is converted to a number through its string, which is not a
    numeral: NaN, and the comparison is false.  Two objects are compared
    as strings. *)
Definition ord_le (a b : ordinal) : bool :=
  match a, b with
  | Rank n, Rank m => n <=? m
  | Member s, Member t => String.leb s t
  | _, _ => false
  end.

(** [a === b + k] for a positive literal [k]: with an object [b] the sum
    is a string, and [a] is a number or an object, never a string. *)
Definition ord_is_plus (a b : ordinal) (k : nat) : bool :=
  match a, b with
  | Rank n, Rank m => n =? m + k
  | _, _ => false
  end.

(** [s || 'beginner'] on a string: the empty string is falsy *)
Definition or_beginner (s : string) : string :=
  if nonempty s then s else "beginner".

Definition hasDifficultyMetadata (conversationData : list pair) : bool :=
  existsb (fun pr => match meta pr with
                     | Some md => match difficulty md with
                                  | Some _ => true
                                  | None => false
                                  end
                     | None => false
                     end) conversationData.

Definition currentLevelValue (m : trainingMetrics) : ordinal :=
  or_zero (difficultyOrder (or_beginner (progressLevel m))).

Definition difficultyValue (pr : pair) : ordinal :=
  let difficulty :=
    match meta pr with
    | Some md => match difficulty md with
                 | Some d => or_beginner d
                 | None => "beginner"
                 end
    | None => "beginner"
    end in
  or_zero (difficultyOrder difficulty).

(** The predicate handed to [conversationData.filter]. *)
Definition curriculum_keeps (level : ordinal) (pr : pair) : rand_m bool :=
  let d := difficultyValue pr in
  or_else (ret (ord_le d level))
    (or_else
       (and_then (ret (ord_is_plus d level 1))
                 (bind random (fun r => ret (draw_lt r (1 # 2)))))
       (and_then (ret (ord_is_plus d level 2))
                 (bind random (fun r => ret (draw_lt r (1 # 5)))))).

Definition select_curriculum (m : trainingMetrics)
           (conversationData : list pair) : rand_m (list pair) :=
  if hasDifficultyMetadata conversationData then
    bind (filter_m (curriculum_keeps (currentLevelValue m)) conversationData)
         (fun curriculumData =>
            if List.length curriculumData <? 10
            then ret conversationData
            else ret curriculumData)
  else ret conversationData.

(** *** [generateFallbackResponse] *)

(** [input.match(/a|b|.../)] for alternatives without meta-characters:
    some alternative occurs in [input]. *)
Definition matches (input : string) (alternatives : list string) : bool :=
  existsb (includes input) alternatives.

Definition greeting_words :=
  ["hello"; "hi"; "hey"; "good morning"; "good afternoon"; "good evening";
   "how are you"].
Definition farewell_words := ["goodbye"; "bye"; "see you"; "take care"].
Definition identity_words :=
  ["who are you"; "what are you"; "tell me about yourself"].
Definition learning_words :=
  ["teach"; "learn"; "language"; "word"; "grammar"; "vocabulary"; "speak";
   "write"].

Definition greeting_response :=
  "Hello! I'm still learning, but I'm happy to chat with you. How can I help with your language learning today?".
Definition farewell_response :=
  "Goodbye! Thanks for chatting with me. I'm learning from our conversation!".
Definition identity_response :=
  "I'm MR Bot, a self-learning language teaching assistant. I'm designed to learn from our conversations to help you better!".
Definition learning_response :=
  "I'd be happy to help you learn languages! As we talk more, I'll get better at teaching you. What specific language would you like to practice?".

Definition defaultResponses :=
  ["I'm still learning from our conversations. Could you tell me more?";
   "That's interesting! As we talk more, I'll get better at responding.";
   "I'm processing what you said. My neural network is learning from this interaction!";
   "Thanks for chatting with me. Each conversation helps me learn and improve.";
   "I'm designed to learn from our conversations. Please continue, and I'll get better over time."].

(** The index read in the last line is always below 5 (see
    [draw_index_lt]), so the default of [nth] is never returned. *)
Definition generateFallbackResponse (userInput : string) : rand_m string :=
  let input := toLowerCase userInput in
  if matches input greeting_words then ret greeting_response
  else if matches input farewell_words then ret farewell_response
  else if matches input identity_words then ret identity_response
  else if matches input learning_words then ret learning_response
  else bind random (fun r =>
         ret (nth (draw_index r (List.length defaultResponses))
                  defaultResponses EmptyString)).

(** *** [updateConversationContext] *)

Definition topicKeywords : list (string * list string) :=
  [("greeting", ["hello"; "hi"; "hey"; "morning"; "afternoon"; "evening"]);
   ("farewell", ["goodbye"; "bye"; "see you"; "later"; "take care"]);
   ("vocabulary", ["word"; "vocabulary"; "mean"; "definition"; "translate"]);
   ("grammar", ["grammar"; "sentence"; "structure"; "tense"; "conjugate"]);
   ("conversation", ["talk"; "speak"; "conversation"; "practice"; "dialogue"])].

Definition detect_topic (input : string) : option string :=
  match find (fun entry => existsb (includes input) (snd entry))
             topicKeywords with
  | Some entry => Some (fst entry)
  | None => None
  end.

Definition updateConversationContext (c : conversationContext)
           (userInput botResponse now : string) : conversationContext :=
  let pushed := history c ++ [mk_turn userInput botResponse now] in
  let kept := if 50 <? List.length pushed then tl pushed else pushed in
  mk_context kept
    (match detect_topic (toLowerCase userInput) with
     | Some topic => Some topic
     | None => currentTopic c
     end).

(** *** Beam search in [generateResponse] *)

Record beam := mk_beam { sequence : list tok; score : number R }.

Definition beamWidth : nat := 3.

(** [beam.sequence[beam.sequence.length - 1] === END] *)
Definition ended (tk : Tokenizer.t) (b : beam) : bool :=
  tok_eqb (last (sequence b) None) (sget (word2idx tk) END_).

(** [new Array(maxLength).fill(PAD)] overwritten by the beam's tokens. *)
Definition currentDecoderInput (tk : Tokenizer.t) (maxLength : Z)
           (b : beam) : list tok :=
  sequence b ++ repeat (sget (word2idx tk) PAD)
                       (Z.to_nat maxLength - List.length (sequence b)).

(** The candidates one beam contributes at step [i]; [None] when a
    TensorFlow call throws. *)
Definition expand (net : Net R) (tk : Tokenizer.t) (p : parameters)
           (enc : Tensor R) (i : nat) (b : beam) : option (list beam) :=
  if ended tk b then Some [b]
  else
    match tensor2d R [currentDecoderInput tk (maxSequenceLength (p_sizes p)) b] with
    | None => None
    | Some dec =>
        match predict_topk R net enc dec i (vocabSize tk) (temperature p)
                           beamWidth with
        | None => None
        | Some (indices, values) =>
            Some (map (fun k =>
                         mk_beam (sequence b ++ [Some (indices k)])
                                 (num_add R (score b) (num_log R (values k))))
                      (seq 0 beamWidth))
        end
    end.

Fixpoint expand_all (net : Net R) (tk : Tokenizer.t) (p : parameters)
         (enc : Tensor R) (i : nat) (beams : list beam)
  : option (list beam) :=
  match beams with
  | [] => Some []
  | b :: rest =>
      match expand net tk p enc i b with
      | None => None
      | Some cs =>
          match expand_all net tk p enc i rest with
          | None => None
          | Some more => Some (cs ++ more)
          end
      end
  end.

(** [candidates.sort((a, b) => b.score - a.score)], as a stable
    insertion sort by decreasing score.  The comparator is positive
    exactly when [b.score > a.score]. *)
Fixpoint insert_by_score (x : beam) (l : list beam) : list beam :=
  match l with
  | [] => [x]
  | y :: r => if num_gt R (score y) (score x) then y :: insert_by_score x r
              else x :: y :: r
  end.

Definition sort_by_score (l : list beam) : list beam :=
  fold_right insert_by_score [] l.

(** One round of the [for] loop body, up to the refill of [beams]. *)
Definition beam_step (net : Net R) (tk : Tokenizer.t) (p : parameters)
           (enc : Tensor R) (i : nat) (beams : list beam)
  : option (list beam) :=
  match expand_all net tk p enc i beams with
  | None => None
  | Some candidates => Some (firstn beamWidth (sort_by_score candidates))
  end.

(** [for (let i = 0; i < maxLength - 1; i++) { ...; if (every ended) break; }]
    with [rounds] rounds still allowed; returns the beams and the value
    of [i] reached, i.e. the number of rounds run. *)
Fixpoint beam_loop (net : Net R) (tk : Tokenizer.t) (p : parameters)
         (enc : Tensor R) (rounds i : nat) (beams : list beam)
  : option (list beam * nat) :=
  match rounds with
  | 0 => Some (beams, i)
  | S rounds' =>
      match beam_step net tk p enc i beams with
      | None => None
      | Some beams' =>
          if forallb (ended tk) beams' then Some (beams', S i)
          else beam_loop net tk p enc rounds' (S i) beams'
      end
  end.

(** No call of [tf.tensor2d] or of the prediction pipeline throws. *)
Definition tf_never_throws : Prop :=
  (forall rows, tensor2d R rows <> None) /\
  (forall n e d i v t w, predict_topk R n e d i v t w <> None).

(** A beam of at most [n] tokens. *)
Definition within (n : nat) (b : beam) : Prop :=
  List.length (sequence b) <= n.

Definition initial_beams (tk : Tokenizer.t) : list beam :=
  [mk_beam [sget (word2idx tk) START] (num_lit R 0)].

Definition beam_search (net : Net R) (tk : Tokenizer.t) (p : parameters)
           (enc : Tensor R) : option (list beam * nat) :=
  beam_loop net tk p enc
            (Z.to_nat (maxSequenceLength (p_sizes p) - 1)) 0
            (initial_beams tk).

(** The [try] block of [generateResponse] after the training guard, up
    to [decode]; [None] when anything in it throws: a missing tokenizer,
    [new Array(maxLength)] for a negative length, a TensorFlow call, or
    [beams[0]] being absent. *)
Definition model_response (st : nlm) (net : Net R) (userInput : string)
  : option string :=
  match tokenizer st with
  | None => None
  | Some tk =>
      let maxLength := maxSequenceLength (p_sizes (params st)) in
      match tensor2d R [encode tk userInput maxLength] with
      | None => None
      | Some enc =>
          if (maxLength <? 0)%Z then None
          else
            match beam_search net tk (params st) enc with
            | Some (bestBeam :: _, _) => Some (decode tk (sequence bestBeam))
            | _ => None
            end
      end
  end.

Definition still_initializing :=
  "I'm still initializing. Please try again in a moment.".

(** [generateResponse]: the response and the instance afterwards. *)
Definition generateResponse (st : nlm) (userInput now : string)
  : rand_m (string * nlm) :=
  match initialized st, model st with
  | true, Some net =>
      if totalExamples (metrics st) <? 100 then
        bind (generateFallbackResponse userInput) (fun r => ret (r, st))
      else
        match model_response st net userInput with
        | Some responseText =>
            let st' :=
              mk_nlm (initialized st) (model st) (tokenizer st) (manager st)
                     (params st)
                     (updateConversationContext (context st) userInput
                                                responseText now)
                     (metrics st) in
            if nonempty responseText then ret (responseText, st')
            else bind (generateFallbackResponse userInput)
                      (fun r => ret (r, st'))
        | None =>
            bind (generateFallbackResponse userInput) (fun r => ret (r, st))
        end
  | _, _ => ret (still_initializing, st)
  end.

(** *** [saveModel] and the data manager's [saveTokenizerData] *)

(** [saveTokenizerData]: refuses when the manager is not initialised;
    otherwise assigns [modelData.tokenizer] and calls the (simulated,
    never failing) [saveToStorage]. *)
Definition saveTokenizerData (dm : dataManager) (tokenizerData : Tokenizer.t)
  : bool * dataManager :=
  if dm_initialized dm
  then (true, mk_dm (dm_initialized dm) (Some tokenizerData))
  else (false, dm).

Definition with_manager (st : nlm) (dm : option dataManager) : nlm :=
  mk_nlm (initialized st) (model st) (tokenizer st) dm (params st)
         (context st) (metrics st).

(** [saveModel]: the weights are not written anywhere ("we'll simulate
    saving"); the tokenizer tables are copied into the data manager.  A
    missing tokenizer or manager raises inside the [try] and gives
    [false]. *)
Definition saveModel (st : nlm) : bool * nlm :=
  match initialized st, model st with
  | true, Some _ =>
      match tokenizer st, manager st with
      | Some tk, Some dm =>
          let (_, dm') := saveTokenizerData dm tk in
          (true, with_manager st (Some dm'))
      | _, _ => (false, st)
      end
  | _, _ => (false, st)
  end.

(** *** [trainModel] *)

Record options := mk_options {
  o_epochs : option nat;
  o_batchSize : option nat;
  o_validationSplit : option (number R)
}.

(** [options.x || fallback] for a count: [undefined] and [0] are falsy *)
Definition count_or (x : option nat) (fallback : nat) : nat :=
  match x with
  | Some (S n) => S n
  | _ => fallback
  end.

Definition split_or (x : option (number R)) : number R :=
  match x with
  | Some v => if num_truthy R v then v else num_lit R (1 # 10)
  | None => num_lit R (1 # 10)
  end.

(** [[...decoderInput.slice(1), PAD]] *)
Definition decoderTarget (tk : Tokenizer.t) (decoderInput : list tok) :=
  tl decoderInput ++ [sget (word2idx tk) PAD].

Definition levels :=
  ["beginner"; "elementary"; "intermediate"; "advanced"; "expert"].

(** [levels.indexOf(name)], [None] for -1 *)
Fixpoint indexOf (name : string) (l : list string) : option nat :=
  match l with
  | [] => None
  | x :: r => if String.eqb x name then Some 0
              else option_map S (indexOf name r)
  end.

(** *** The selection rule in the specification's words

    "Difficulty ordinal (beginner..expert mapped to 0..4, default
    beginner)": the position of the tag in [levels], and 0 for an
    example without tag or with any other tag. *)
Definition level_ordinal (name : string) : nat :=
  match indexOf name levels with
  | Some i => i
  | None => 0
  end.

Definition rule_ordinal (pr : pair) : nat :=
  match meta pr with
  | Some md => match difficulty md with
               | Some d => level_ordinal d
               | None => 0
               end
  | None => 0
  end.

(** "Include an example iff its ordinal <= L, or ordinal = L+1 (with
    probability 0.5), or ordinal = L+2 (with probability 0.2)", for an
    example of ordinal [d] and the draw [r] made for it. *)
Definition included_by_rule (level d : nat) (r : draw) : bool :=
  (d <=? level)
  || ((d =? level + 1) && draw_lt r (1 # 2))
  || ((d =? level + 2) && draw_lt r (1 # 5)).

(** An example is decided by a draw when it is one or two levels up. *)
Definition needs_draw (level d : nat) : bool :=
  (d =? level + 1) || (d =? level + 2).

(** For each example, the position of the random source that is its
    own: every example decided by a draw moves the position on. *)
Fixpoint draw_positions (level pos : nat) (data : list pair) : list nat :=
  match data with
  | [] => []
  | pr :: rest =>
      pos :: draw_positions level
               (if needs_draw level (rule_ordinal pr) then S pos else pos)
               rest
  end.

Definition rule_selection (level : nat) (src : random_source) (pos : nat)
           (data : list pair) : list pair :=
  map fst
      (filter (fun e => included_by_rule level (rule_ordinal (fst e))
                                         (src (snd e)))
              (combine data (draw_positions level pos data))).

(** The tag of the example is not the name of an inherited member. *)
Definition plain_tag (pr : pair) : bool :=
  match meta pr with
  | Some md => match difficulty md with
               | Some d => negb (JsObject.is_inherited d)
               | None => true
               end
  | None => true
  end.

(** "Update curriculum progress if accuracy is high enough" *)
Definition advance (acc : option (number R)) (level : string) : string :=
  match acc with
  | Some a =>
      if num_gt R a (num_lit R (8 # 10)) then
        let currentLevel := or_beginner level in
        match indexOf currentLevel levels with
        | Some currentIndex =>
            if currentIndex <? List.length levels - 1
            then nth (currentIndex + 1) levels level
            else level
        | None => nth 0 levels level
        end
      else level
  | None => level
  end.

(** The metrics after a run whose history has both arrays. *)
Definition updated_metrics (m : trainingMetrics) (used : nat) (now : string)
           (accs losses : list (number R)) : trainingMetrics :=
  let acc := last (map Some accs) None in
  mk_metrics (S (totalTrainingSessions m))
             (totalExamples m + used)
             (Some now)
             acc
             (last (map Some losses) None)
             (advance acc (progressLevel m)).

(** The metrics when reading the history raises a [TypeError] because
    one of its arrays is missing: the assignments before the failing
    read have been made. *)
Definition interrupted_metrics (m : trainingMetrics) (used : nat)
           (now : string) (accs : option (list (number R)))
  : trainingMetrics :=
  mk_metrics (S (totalTrainingSessions m))
             (totalExamples m + used)
             (Some now)
             (match accs with
              | Some a => last (map Some a) None
              | None => accuracy m
              end)
             (loss m) (progressLevel m).

Definition with_model_metrics (st : nlm) (net : Net R)
           (m : trainingMetrics) : nlm :=
  mk_nlm (initialized st) (Some net) (tokenizer st) (manager st)
         (params st) (context st) m.

(** "Prepare training data": the three lists of rows. *)
Definition encoderInputData (tk : Tokenizer.t) (maxLength : Z)
           (curriculumData : list pair) : list (list tok) :=
  map (fun pr => encode tk (input pr) maxLength) curriculumData.

Definition decoderInputData (tk : Tokenizer.t) (maxLength : Z)
           (curriculumData : list pair) : list (list tok) :=
  map (fun pr => encode tk (output pr) maxLength) curriculumData.

Definition decoderTargetData (tk : Tokenizer.t) (maxLength : Z)
           (curriculumData : list pair) : list (list tok) :=
  map (decoderTarget tk) (decoderInputData tk maxLength curriculumData).

(** The part of [trainModel] from "Prepare training data" on.  Without a
    tokenizer the first [this.tokenizer.encode], or else
    [this.tokenizer.vocabSize], raises outside the [try]. *)
Definition train_on (st : nlm) (net : Net R) (o : options)
           (curriculumData : list pair) (now : string)
  : completion bool * nlm :=
  let maxLength := maxSequenceLength (p_sizes (params st)) in
  match tokenizer st with
  | None => (Throw "TypeError", st)
  | Some tk =>
      match tensor2d R (encoderInputData tk maxLength curriculumData),
            tensor2d R (decoderInputData tk maxLength curriculumData),
            tensor2d R (decoderTargetData tk maxLength curriculumData) with
      | Some encT, Some decT, Some tgt =>
          match oneHot R tgt (vocabSize tk) with
          | None => (Throw "Error", st)
          | Some tgtT =>
              (* try *)
              match net_fit R net encT decT tgtT
                      (count_or (o_epochs o) (epochs (p_sizes (params st))))
                      (count_or (o_batchSize o)
                                (batchSize (p_sizes (params st))))
                      (split_or (o_validationSplit o)) with
              | (net', None) =>
                  (* model.fit threw *)
                  (Normal false, with_model_metrics st net' (metrics st))
              | (net', Some (Some accs, Some losses)) =>
                  let st' :=
                    with_model_metrics st net'
                      (updated_metrics (metrics st)
                         (List.length curriculumData) now accs losses) in
                  (Normal true, snd (saveModel st'))
              | (net', Some (accs, _)) =>
                  (Normal false,
                   with_model_metrics st net'
                     (interrupted_metrics (metrics st)
                        (List.length curriculumData) now accs))
              end
          end
      | _, _, _ => (Throw "Error", st)
      end
  end.

Definition trainModel (st : nlm) (conversationData : list pair)
           (o : options) (now : string) : rand_m (completion bool * nlm) :=
  match initialized st, model st with
  | true, Some net =>
      bind (select_curriculum (metrics st) conversationData)
           (fun curriculumData =>
              ret (train_on st net o curriculumData now))
  | _, _ => ret (Normal false, st)
  end.

(** *** [exportModel] and [importModel] *)

Record bundle := mk_bundle {
  x_model : NetJSON R;
  x_tokenizer : Tokenizer.t;
  x_parameters : parameters;
  x_trainingMetrics : trainingMetrics;
  x_exportDate : string
}.

Inductive exported :=
| Simulated
| Json (data : bundle).

(** [exportModel(format)]; [None] is [null]. *)
Definition exportModel (st : nlm) (format now : string) : option exported :=
  match initialized st, model st with
  | true, Some net =>
      if String.eqb format "tfjs" then Some Simulated
      else if String.eqb format "json" then
        match tokenizer st with
        | Some tk =>
            Some (Json (mk_bundle (toJSON R net) tk (params st)
                                  (metrics st) now))
        | None => None
        end
      else None
  | _, _ => None
  end.

(** The argument of [importModel]: any of the fields can be missing. *)
Record importData := mk_import {
  i_model : option (NetJSON R);
  i_tokenizer : option Tokenizer.t;
  i_parameters : option parameters;
  i_trainingMetrics : option trainingMetrics
}.

(** Reading an exported bundle back, e.g. after [JSON.stringify] and
    [JSON.parse]. *)
Definition as_import (b : bundle) : importData :=
  mk_import (Some (x_model b)) (Some (x_tokenizer b))
            (Some (x_parameters b)) (Some (x_trainingMetrics b)).

Definition option_or {A} (x : option A) (fallback : A) : A :=
  match x with Some a => a | None => fallback end.

(** [importModel]: the bundle's network is only tested for presence;
    the network installed is the one [createModel] builds from the
    merged parameters ("For now, we'll create a new model with the
    imported parameters"). *)
Definition importModel (st : nlm) (data : option importData) : bool * nlm :=
  match data with
  | Some (mk_import (Some _) (Some itk) ip im) =>
      match tokenizer st with
      | None => (false, st)
      | Some _ =>
          let p := option_or ip (params st) in
          let m := option_or im (metrics st) in
          match create R (p_sizes p) (learningRate p) (dropoutRate p) with
          | None =>
              (false,
               mk_nlm (initialized st) (model st) (Some itk) (manager st)
                      p (context st) m)
          | Some net =>
              (true,
               mk_nlm true (Some net) (Some itk) (manager st)
                      p (context st) m)
          end
      end
  | _ => (false, st)
  end.

End WithRuntime.
End NeuralLanguageModel.

(* ================================================================== *)
(** ** The training data of [NeuralDataManager] *)
(* ================================================================== *)

(** [src/js/neural-data-manager-enhanced.js].  The data manager is one
    object; its [initialized] flag and tokenizer slot are the record
    [dataManager] above, its [trainingData] and [userProfile] are the
    records below.  [texts] is a plain object: its own keys are the
    entries of the association list, and a language code that is no own
    key but the name of an inherited member finds that member
    ([JsObject.inherited]).  Language codes are taken not to be
    integer-like, so that the own keys are enumerated in insertion
    order. *)
Module Corpus.
Import JsString Tokenizer NeuralLanguageModel.

(** [s.split(/[...]+/)] for a character class: as [split_from], for the
    class [sep]. *)
Fixpoint split_run (sep : ascii -> bool) (in_run : bool) (s : string)
  : list string :=
  match s with
  | EmptyString => [EmptyString]
  | String c r =>
      if sep c then
        if in_run then split_run sep true r
        else EmptyString :: split_run sep true r
      else
        match split_run sep false r with
        | w :: ws => String c w :: ws
        | [] => [String c EmptyString]
        end
  end.

(** The class [[.!?]] *)
Definition is_stop (c : ascii) : bool :=
  Ascii.eqb c "."%char || Ascii.eqb c "!"%char || Ascii.eqb c "?"%char.

(** [s.trim()] *)
Fixpoint trim_start (s : string) : string :=
  match s with
  | EmptyString => EmptyString
  | String c r => if is_space c then trim_start r else s
  end.

Fixpoint trim_end (s : string) : string :=
  match s with
  | EmptyString => EmptyString
  | String c r =>
      match trim_end r with
      | EmptyString => if is_space c then EmptyString else String c EmptyString
      | r' => String c r'
      end
  end.

Definition trim (s : string) : string := trim_end (trim_start s).

(** [content.split(/[.!?]+/).filter(s => s.trim().length > 0)] *)
Definition sentences (content : string) : list string :=
  filter (fun s => nonempty (trim s)) (split_run is_stop false content).

Record conversation := mk_conversation {
  c_input : string;
  c_response : string;
  c_timestamp : string;
  c_language : string;
  c_difficulty : string;
  c_topic : string
}.

Record textObj := mk_textObj {
  t_content : string;
  t_timestamp : string;
  t_difficulty : string;
  t_topic : string;
  t_source : string
}.

Record feedbackObj := mk_feedbackObj {
  f_input : string;
  f_botResponse : string;
  f_correctResponse : string;
  f_timestamp : string;
  f_language : string;
  f_difficulty : string;
  f_topic : string
}.

Record trainingData := mk_trainingData {
  conversations : list conversation;
  texts : list (string * list textObj);
  feedback : list feedbackObj
}.

Record userProfile := mk_userProfile {
  nativeLanguage : string;
  targetLanguage : string;
  proficiencyLevel : string;
  supportedLanguages : list string
}.

(** The [metadata] argument of the [add...] methods; a field is [None]
    when it is absent. *)
Record addMeta := mk_addMeta {
  m_language : option string;
  m_difficulty : option string;
  m_topic : option string;
  m_source : option string
}.

Definition no_meta : addMeta := mk_addMeta None None None None.

(** [x || fallback] on a string or [undefined] *)
Definition str_or (x : option string) (fallback : string) : string :=
  match x with
  | Some s => if nonempty s then s else fallback
  | None => fallback
  end.

(** The constructor's [trainingData] and [userProfile]. *)
Definition empty_data : trainingData := mk_trainingData [] [] [].

Definition default_profile : userProfile :=
  mk_userProfile "en" "bn" "beginner"
    ["en"; "bn"; "hi"; "es"; "fr"; "de"; "ja"; "zh"; "ru"; "ar"].

(** [if (!texts[lang]) texts[lang] = []]: an own array and an inherited
    member are both truthy. *)
Definition ensure_language (txts : list (string * list textObj))
           (lang : string) : list (string * list textObj) :=
  if shas txts lang then txts
  else if JsObject.is_inherited lang then txts
  else sset txts lang [].

(** [initialize] of the data manager: [loadFromStorage] finds nothing
    (its [loadData] returns [null]), every supported language gets its
    array, and the flag is set. *)
Definition dm_initialize (dm : dataManager) (td : trainingData)
           (up : userProfile) : dataManager * trainingData :=
  (mk_dm true (dm_tokenizer dm),
   mk_trainingData (conversations td)
                   (fold_left ensure_language (supportedLanguages up)
                              (texts td))
                   (feedback td)).

Definition addConversation (dm : dataManager) (td : trainingData)
           (userInput botResponse : string) (md : addMeta) (now : string)
  : bool * trainingData :=
  if dm_initialized dm then
    (true,
     mk_trainingData
       (conversations td ++
          [mk_conversation userInput botResponse now
                           (str_or (m_language md) "en")
                           (str_or (m_difficulty md) "beginner")
                           (str_or (m_topic md) "general")])
       (texts td) (feedback td))
  else (false, td).

(** [addTrainingText].  After the guard [texts[language]] is an own
    array, unless [language] names an inherited member. *)
Definition addTrainingText (dm : dataManager) (td : trainingData)
           (text language : string) (md : addMeta) (now : string)
  : bool * trainingData :=
  if negb (dm_initialized dm) then (false, td)
  else if negb (nonempty text) || negb (nonempty language)
          || negb (nonempty (trim text))
  then (false, td)
  else
    let txts := ensure_language (texts td) language in
    match sget txts language with
    | Some old =>
        (true,
         mk_trainingData
           (conversations td)
           (sset txts language
                 (old ++ [mk_textObj text now
                                     (str_or (m_difficulty md) "beginner")
                                     (str_or (m_topic md) "general")
                                     (str_or (m_source md) "user")]))
           (feedback td))
    | None =>
        (* [texts[language]] is an inherited member: it has no [push],
           the call raises a TypeError, which is caught *)
        (false, td)
    end.

Definition addFeedback (dm : dataManager) (td : trainingData)
           (up : userProfile)
           (userInput botResponse correctResponse : string)
           (md : addMeta) (now : string) : bool * trainingData :=
  if dm_initialized dm then
    (true,
     mk_trainingData
       (conversations td) (texts td)
       (feedback td ++
          [mk_feedbackObj userInput botResponse correctResponse now
                          (str_or (m_language md) (targetLanguage up))
                          (str_or (m_difficulty md) (proficiencyLevel up))
                          (str_or (m_topic md) "general")]))
  else (false, td).

(** [getTrainingData]: the corpus for [tokenizer.fit]. *)
Definition getTrainingData (dm : dataManager) (td : trainingData)
  : list string :=
  if dm_initialized dm then
    flat_map (fun conv => [c_input conv; c_response conv]) (conversations td)
    ++ flat_map (fun entry =>
                   flat_map (fun textObj =>
                               map trim (sentences (t_content textObj)))
                            (snd entry))
                (texts td)
    ++ flat_map (fun fb => [f_input fb; f_correctResponse fb]) (feedback td)
  else [].

(** The pairs [sentences[i], sentences[i + 1]] for [i < length - 1], both
    trimmed, each built by [mk]. *)
Fixpoint adjacent {A} (mk : string -> string -> A) (l : list string)
  : list A :=
  match l with
  | a :: ((b :: _) as rest) => mk (trim a) (trim b) :: adjacent mk rest
  | _ => []
  end.

(** [options.language && x !== options.language]: the entry is skipped *)
Definition filtered_out (language : option string) (x : string) : bool :=
  match language with
  | Some l => nonempty l && negb (String.eqb x l)
  | None => false
  end.

Definition tag (d : string) : option metadata :=
  Some (mk_meta (Some (str_or (Some d) "beginner"))).

(** [getConversationPairs(options)]: the examples for [trainModel]; of
    the metadata only [difficulty] is read there. *)
Definition getConversationPairs (dm : dataManager) (td : trainingData)
           (language : option string) : list pair :=
  if dm_initialized dm then
    flat_map (fun conv =>
                if filtered_out language (c_language conv) then []
                else [mk_pair (c_input conv) (c_response conv)
                              (tag (c_difficulty conv))])
             (conversations td)
    ++ flat_map (fun fb =>
                   if filtered_out language (f_language fb) then []
                   else [mk_pair (f_input fb) (f_correctResponse fb)
                                 (tag (f_difficulty fb))])
                (feedback td)
    ++ flat_map (fun entry =>
                   if filtered_out language (fst entry) then []
                   else
                     flat_map (fun textObj =>
                                 adjacent (fun a b =>
                                             mk_pair a b
                                               (tag (t_difficulty textObj)))
                                          (sentences (t_content textObj)))
                              (snd entry))
                (texts td)
  else [].

(** [getTokenizerData] *)
Definition getTokenizerData (dm : dataManager) : option Tokenizer.t :=
  if dm_initialized dm then dm_tokenizer dm else None.

End Corpus.

(* ================================================================== *)
(** ** Start-up, loading and learning of [NeuralLanguageModel] *)
(* ================================================================== *)

Module Lifecycle.
Import JsString Tokenizer Env NeuralLanguageModel Corpus.

Section WithRuntime.
Variable R : Runtime.

(** The constructor: nothing initialised, default parameters [p]. *)
Definition constructed (p : parameters R) : nlm R :=
  mk_nlm R false None None None p (mk_context [] None)
         (mk_metrics R 0 0 None (Some (num_lit R 0)) (Some (num_lit R 0))
                     "beginner").

(** [loadModel]: the saved tokenizer tables replace those of the
    tokenizer object, then [createModel] builds the network.  [None] is
    [null]: no manager, nothing saved, no tokenizer object, or
    [createModel] throwing (after the tables were replaced). *)
Definition loadModel (st : nlm R) : option (Net R) * nlm R :=
  match manager R st with
  | None => (None, st)
  | Some dm =>
      match getTokenizerData dm with
      | None => (None, st)
      | Some tokenizerData =>
          match tokenizer R st with
          | None => (None, st)
          | Some _ =>
              let st' :=
                mk_nlm R (initialized R st) (model R st) (Some tokenizerData)
                       (manager R st) (params R st) (context R st)
                       (metrics R st) in
              match create R (p_sizes R (params R st))
                           (learningRate R (params R st))
                           (dropoutRate R (params R st)) with
              | None => (None, st')
              | Some net =>
                  (Some net,
                   mk_nlm R (initialized R st) (Some net) (Some tokenizerData)
                          (manager R st) (params R st) (context R st)
                          (metrics R st))
              end
          end
      end
  end.

(** [initializeModel]: the loaded network if there is one, else a new
    one; [createModel] throwing here is not caught. *)
Definition initializeModel (st : nlm R) : completion unit * nlm R :=
  match loadModel st with
  | (Some net, st') => (Normal tt, st')
  | (None, st') =>
      match create R (p_sizes R (params R st'))
                   (learningRate R (params R st'))
                   (dropoutRate R (params R st')) with
      | None => (Throw "Error", st')
      | Some net =>
          (Normal tt,
           mk_nlm R (initialized R st') (Some net) (tokenizer R st')
                  (manager R st') (params R st') (context R st')
                  (metrics R st'))
      end
  end.

(** [initializeTokenizer]: a new tokenizer object, fitted when the
    manager has training data. *)
Definition initializeTokenizer (st : nlm R) (td : trainingData)
  : completion unit * nlm R :=
  match manager R st with
  | None =>
      (Throw "TypeError",
       mk_nlm R (initialized R st) (model R st) (Some unfit) (manager R st)
              (params R st) (context R st) (metrics R st))
  | Some dm =>
      let corpus := getTrainingData dm td in
      let tk := match corpus with
                | [] => unfit
                | _ :: _ => fit unfit corpus
                end in
      (Normal tt,
       mk_nlm R (initialized R st) (model R st) (Some tk) (manager R st)
              (params R st) (context R st) (metrics R st))
  end.

(** [initialize(dataManager, options)]; [p] is [options.parameters]
    merged over the current parameters, if given. *)
Definition initialize (st : nlm R) (dm : option dataManager)
           (td : trainingData) (p : option (parameters R))
  : completion bool * nlm R :=
  let st1 :=
    mk_nlm R (initialized R st) (model R st) (tokenizer R st) dm
           (option_or p (params R st)) (context R st) (metrics R st) in
  match initializeTokenizer st1 td with
  | (Throw e, st2) => (Throw e, st2)
  | (Normal _, st2) =>
      match initializeModel st2 with
      | (Throw e, st3) => (Throw e, st3)
      | (Normal _, st3) =>
          (Normal true,
           mk_nlm R true (model R st3) (tokenizer R st3) (manager R st3)
                  (params R st3) (context R st3) (metrics R st3))
      end
  end.

Definition no_options : options R := mk_options R None None None.

(** [learnFromText]: the response, the instance and the training data
    afterwards. *)
Definition learnFromText (st : nlm R) (td : trainingData)
           (text language : string) (md : addMeta) (now : string)
  : rand_m (bool * nlm R * trainingData) :=
  if negb (initialized R st) then ret (false, st, td)
  else
    match manager R st with
    | None => ret (false, st, td)
    | Some dm =>
        let td' := snd (addTrainingText dm td text language md now) in
        let trainingPairs :=
          adjacent (fun a b => mk_pair a b (Some (mk_meta (m_difficulty md))))
                   (sentences text) in
        match trainingPairs with
        | [] => ret (false, st, td')
        | _ :: _ =>
            bind (trainModel R st trainingPairs no_options now)
                 (fun out =>
                    match fst out with
                    | Throw _ => ret (false, snd out, td')
                    | Normal _ => ret (true, snd out, td')
                    end)
        end
    end.

(** [recordFeedback] *)
Definition recordFeedback (st : nlm R) (td : trainingData)
           (up : userProfile)
           (userInput botResponse correctResponse now : string)
  : rand_m (bool * nlm R * trainingData) :=
  if negb (initialized R st) then ret (false, st, td)
  else
    match manager R st with
    | None => ret (false, st, td)
    | Some dm =>
        let td' := snd (addFeedback dm td up userInput botResponse
                                    correctResponse no_meta now) in
        bind (trainModel R st [mk_pair userInput correctResponse None]
                         no_options now)
             (fun out =>
                match fst out with
                | Throw _ => ret (false, snd out, td')
                | Normal _ => ret (true, snd out, td')
                end)
    end.

End WithRuntime.
End Lifecycle.

(* ================================================================== *)
(** ** Sample examples *)
(* ================================================================== *)

Module Samples.
Import NeuralLanguageModel.

(** An example with difficulty tag [d]. *)
Definition tagged (d : string) : pair :=
  mk_pair "question" "answer" (Some (mk_meta (Some d))).

(** Ten examples of the third level, and one each of the second, fourth
    and fifth. *)
Definition mixed_pairs : list pair :=
  repeat (tagged "intermediate") 10
  ++ [tagged "elementary"; tagged "advanced"; tagged "expert"].

End Samples.

(* ================================================================== *)
(** ** A library whose calls return *)
(* ================================================================== *)

(** A stand-in for TensorFlow.js in which [createModel], [tf.oneHot]
    and [model.fit] return.  It is not the library the repository runs
    with - that one is [Pinned.runtime] below, where the first two
    raise.  It shows that the hypotheses of the statements that are
    conditional on these calls can be met together; what the program
    does with its own library is stated for every run-time or evaluated
    in [Pinned.runtime]. *)
Module Toy.
Import JsString Tokenizer Env NeuralLanguageModel.

(** Numbers: rationals and NaN.  [Math.log] of the values the beam
    search passes to it (logarithms of probabilities divided by the
    temperature, hence not positive) is NaN or minus infinity; here it
    is NaN throughout. *)
Inductive num := Num (q : Q) | NaN.

Definition add (a b : num) : num :=
  match a, b with
  | Num x, Num y => Num (x + y)%Q
  | _, _ => NaN
  end.

Definition gt (a b : num) : bool :=
  match a, b with
  | Num x, Num y => negb (Qle_bool x y)
  | _, _ => false
  end.

Definition truthy (a : num) : bool :=
  match a with
  | Num x => negb (Qeq_bool x 0)
  | NaN => false
  end.

Definition is_nan (a : num) : bool :=
  match a with NaN => true | Num _ => false end.

(** [tf.tensor2d] accepts a non-empty list of rows of one length. *)
Definition rectangular (rows : list (list tok)) : option (list (list tok)) :=
  match rows with
  | [] => None
  | r :: rest =>
      if forallb (fun r' => List.length r' =? List.length r) rest
      then Some rows else None
  end.

(** Networks are told apart by a tag for their weights: [create] gives
    tag 0, every [fit] moves to the next tag.  The network with tag 0
    predicts END (id 3) at once; any other predicts id 30 first and END
    afterwards.  Every training run reports accuracy 0 and loss NaN. *)
Definition runtime : Runtime :=
  mk_runtime num Num add (fun _ => NaN) gt truthy is_nan
    nat unit (list (list tok))
    rectangular
    (fun t _ => Some t)
    (fun _ _ _ => Some 0)
    (fun _ => tt)
    (fun net _ _ _ _ _ _ => (S net, Some (Some [Num 0], Some [NaN])))
    (fun net _ _ i _ _ _ =>
       Some ((fun _ => if (net =? 0) || negb (i =? 0) then 3 else 30),
             (fun _ => Num (-1)))).

Definition quarter : draw := mk_draw (1 # 4) eq_refl.
Definition source : random_source := fun _ => quarter.

Definition tk_hello : Tokenizer.t := fit unfit ["hello world"; "hello there"].

Definition toy_parameters : parameters runtime :=
  mk_parameters runtime (mk_sizes 32 5 512 512 8 10000 8 8 2048)
                (Num (1 # 1000)) (Num (7 # 10)) (Num (1 # 10)).

Definition fresh_metrics : trainingMetrics runtime :=
  mk_metrics runtime 0 0 None (Some (Num 0)) (Some (Num 0)) "beginner".

(** An initialised instance with network [net] that has seen [seen]
    examples. *)
Definition running (net seen : nat) : nlm runtime :=
  mk_nlm runtime true (Some net) (Some tk_hello)
         (Some (mk_dm true None)) toy_parameters
         (mk_context [] None)
         (mk_metrics runtime 1 seen None (Some (Num 0)) (Some (Num 0))
                     "beginner").

Definition no_options : options runtime := mk_options runtime None None None.

Definition one_pair : list pair := [mk_pair "hello" "world" None].

End Toy.

(* ================================================================== *)
(** ** TensorFlow.js 3.18.0 as the class meets it *)
(* ================================================================== *)

Module Pinned.
Import JsString Tokenizer Env NeuralLanguageModel.

(** The library the repository's set-up script downloads as
    [js/lib/tf.min.js], with the two calls of the class that it refuses:
    - [createModel] never returns with it: [tf.layers.Layer.create]
      (line 409) is not a function of the library, so the call raises a
      TypeError after the first layers were built;
    - [tf.oneHot] takes a tensor of type int32, and [tf.tensor2d] of an
      array of numbers has type float32, so the call in [trainModel]
      (line 764) raises.
    A network can therefore only be one that was assigned to
    [this.model] from outside the class.  Such networks, the numbers
    and [tf.tensor2d] are as in [Toy]; [model.fit] is not reached. *)
Definition runtime : Runtime :=
  mk_runtime Toy.num Toy.Num Toy.add (fun _ => Toy.NaN) Toy.gt Toy.truthy
    Toy.is_nan
    nat unit (list (list tok))
    Toy.rectangular
    (fun _ _ => None)
    (fun _ _ _ => None)
    (fun _ => tt)
    (fun net _ _ _ _ _ _ => (net, None))
    (fun net _ _ i _ _ _ =>
       Some ((fun _ => if (net =? 0) || negb (i =? 0) then 3 else 30),
             (fun _ => Toy.Num (-1)))).

Definition pinned_parameters : parameters runtime :=
  mk_parameters runtime (mk_sizes 32 5 512 512 8 10000 8 8 2048)
                (Toy.Num (1 # 1000)) (Toy.Num (7 # 10)) (Toy.Num (1 # 10)).

(** An instance whose flag and network were set from outside, with the
    tokenizer fitted on two texts, that has seen [seen] examples. *)
Definition running (net seen : nat) : nlm runtime :=
  mk_nlm runtime true (Some net) (Some Toy.tk_hello)
         (Some (mk_dm true None)) pinned_parameters
         (mk_context [] None)
         (mk_metrics runtime 1 seen None (Some (Toy.Num 0))
                     (Some (Toy.Num 0)) "beginner").

(** A newly constructed instance. *)
Definition fresh : nlm runtime :=
  Lifecycle.constructed runtime pinned_parameters.

(** The same after [initialize(dataManager)] with an initialised, empty
    data manager. *)
Definition started : nlm runtime :=
  snd (Lifecycle.initialize runtime fresh (Some (mk_dm true None))
                            Corpus.empty_data None).

End Pinned.

(* ================================================================== *)
(** * Properties *)
(* ================================================================== *)

(** ** Facts on strings and maps *)

Module JsStringFacts.
Import JsString.

Lemma substring_length_le (s : string) :
  forall i n, String.length (substring i n s) <= n.
Proof.
  induction s as [|c s IH]; intros [|i] [|n]; simpl; try lia.
  - specialize (IH 0 n). lia.
  - apply (IH i 0).
  - apply (IH i (S n)).
Qed.

Lemma lower_char_not_upper (c : ascii) : is_upper (lower_char c) = false.
Proof.
  destruct c as [[] [] [] [] [] [] [] []]; vm_compute; reflexivity.
Qed.

Lemma toLowerCase_no_upper (s : string) : has_upper (toLowerCase s) = false.
Proof.
  unfold has_upper. induction s as [|c s IH]; simpl; [reflexivity|].
  now rewrite lower_char_not_upper, IH.
Qed.

Lemma split_from_nonempty (s : string) :
  forall b, split_from b s <> [].
Proof.
  induction s as [|c s IH]; intros b; simpl; [discriminate|].
  destruct (is_space c).
  - destruct b; [apply IH | discriminate].
  - destruct (split_from false s); discriminate.
Qed.

Lemma split_from_no_upper (s : string) :
  has_upper s = false ->
  forall b, Forall (fun w => has_upper w = false) (split_from b s).
Proof.
  unfold has_upper.
  induction s as [|c s IH]; intros H b; simpl in *.
  - constructor; [reflexivity | constructor].
  - apply orb_false_iff in H as [Hc Hs].
    destruct (is_space c).
    + destruct b; [now apply IH|].
      constructor; [reflexivity | now apply IH].
    + specialize (IH Hs false).
      destruct (split_from false s) as [|w ws].
      * constructor; [simpl; now rewrite Hc | constructor].
      * inversion IH; subst. constructor; [|assumption].
        simpl. rewrite Hc. assumption.
Qed.

Lemma words_no_upper (text : string) :
  Forall (fun w => has_upper w = false) (split_ws (toLowerCase text)).
Proof. apply split_from_no_upper, toLowerCase_no_upper. Qed.

End JsStringFacts.

Module JsMapFacts.
Section WithKey.
Context {K V : Type}.
Variable eqb : K -> K -> bool.
Hypothesis eqb_eq : forall a b, eqb a b = true <-> a = b.

Let get := @JsMap.get K V eqb.
Let set := @JsMap.set K V eqb.
Let has := @JsMap.has K V eqb.

Lemma eqb_refl_k (a : K) : eqb a a = true.
Proof. now apply eqb_eq. Qed.

Lemma eqb_neq_k (a b : K) : a <> b -> eqb a b = false.
Proof.
  intros H. destruct (eqb a b) eqn:E; [|reflexivity].
  apply eqb_eq in E. contradiction.
Qed.

Lemma get_none_iff (m : list (K * V)) (k : K) :
  get m k = None <-> ~ In k (JsMap.keys m).
Proof.
  induction m as [|[k' v] m IH]; simpl.
  - tauto.
  - destruct (eqb k k') eqn:E.
    + apply eqb_eq in E. subst. split; [discriminate | tauto].
    + rewrite IH. split.
      * intros H [H'|H']; [|tauto]. subst.
        rewrite eqb_refl_k in E. discriminate.
      * tauto.
Qed.

Lemma has_true_iff (m : list (K * V)) (k : K) :
  has m k = true <-> In k (JsMap.keys m).
Proof.
  unfold has, JsMap.has. fold get.
  destruct (get m k) eqn:E.
  - split; [intros _|reflexivity].
    destruct (in_dec (fun a b =>
      match bool_dec (eqb a b) true with
      | left e => left (proj1 (eqb_eq a b) e)
      | right ne => right (fun e => ne (proj2 (eqb_eq a b) e))
      end) k (JsMap.keys m)) as [Hin|Hn]; [assumption|].
    apply get_none_iff in Hn. congruence.
  - apply get_none_iff in E. split; [discriminate | contradiction].
Qed.

Lemma has_false_iff (m : list (K * V)) (k : K) :
  has m k = false <-> ~ In k (JsMap.keys m).
Proof.
  rewrite <- has_true_iff. destruct (has m k); split; congruence.
Qed.

Lemma set_new (m : list (K * V)) (k : K) (v : V) :
  ~ In k (JsMap.keys m) -> set m k v = m ++ [(k, v)].
Proof.
  induction m as [|[k' v'] m IH]; simpl; intros H; [reflexivity|].
  rewrite eqb_neq_k by (intros ->; tauto).
  f_equal. apply IH. tauto.
Qed.

Lemma set_keys_old (m : list (K * V)) (k : K) (v : V) :
  In k (JsMap.keys m) -> JsMap.keys (set m k v) = JsMap.keys m.
Proof.
  induction m as [|[k' v'] m IH]; simpl; intros H; [contradiction|].
  destruct (eqb k k') eqn:E; simpl; [reflexivity|].
  f_equal. apply IH. destruct H as [H|H]; [|assumption].
  subst. rewrite eqb_refl_k in E. discriminate.
Qed.

Lemma set_keys_cases (m : list (K * V)) (k : K) (v : V) :
  JsMap.keys (set m k v) = JsMap.keys m \/
  (~ In k (JsMap.keys m) /\ JsMap.keys (set m k v) = JsMap.keys m ++ [k]).
Proof.
  destruct (has m k) eqn:E.
  - left. apply set_keys_old. now apply has_true_iff.
  - right. apply has_false_iff in E. split; [assumption|].
    rewrite set_new by assumption. unfold JsMap.keys.
    now rewrite map_app.
Qed.

Lemma get_some_in (m : list (K * V)) (k : K) (v : V) :
  get m k = Some v -> In (k, v) m.
Proof.
  induction m as [|[k' v'] m IH]; simpl; [discriminate|].
  destruct (eqb k k') eqn:E.
  - apply eqb_eq in E. intros [= ->]. subst. now left.
  - intros H. right. now apply IH.
Qed.

Lemma in_get_some (m : list (K * V)) (k : K) (v : V) :
  NoDup (JsMap.keys m) -> In (k, v) m -> get m k = Some v.
Proof.
  induction m as [|[k' v'] m IH]; simpl; [contradiction|].
  intros Hnd [H|H].
  - injection H as -> ->. now rewrite eqb_refl_k.
  - inversion Hnd; subst.
    rewrite eqb_neq_k.
    + now apply IH.
    + intros ->. apply H2. change k' with (fst (k', v)).
      now apply in_map.
Qed.

Lemma get_app_new (m : list (K * V)) (k : K) (v : V) :
  ~ In k (JsMap.keys m) -> get (m ++ [(k, v)]) k = Some v.
Proof.
  induction m as [|[k' v'] m IH]; simpl; intros H.
  - now rewrite eqb_refl_k.
  - rewrite eqb_neq_k by (intros ->; tauto). apply IH. tauto.
Qed.

Lemma get_app_l (m m' : list (K * V)) (k : K) (v : V) :
  get m k = Some v -> get (m ++ m') k = Some v.
Proof.
  induction m as [|[k' v'] m IH]; simpl; [discriminate|].
  destruct (eqb k k'); [trivial | apply IH].
Qed.

End WithKey.
End JsMapFacts.

(** ** The vocabulary built by [fit] *)

Module FitFacts.
Import JsString JsStringFacts JsMapFacts Tokenizer.

Lemma consistent_reserved (this : t) : consistent (reserved this).
Proof.
  split; simpl.
  - exists []. reflexivity.
  - repeat constructor; simpl; intuition discriminate.
  - reflexivity.
  - reflexivity.
Qed.

Lemma ids_not_in (m : list (string * nat)) (n : nat) :
  map snd m = seq 0 n -> ~ In n (JsMap.keys (map swap m)).
Proof.
  intros H. unfold JsMap.keys. rewrite map_map. simpl.
  change (map (fun x => snd x) m) with (map snd m).
  rewrite H, in_seq. lia.
Qed.

(** Appending a key that is not yet in the word table. *)
Lemma consistent_append (b : building) (w : string) (sw : list (string * nat)) :
  consistent b ->
  ~ In w (JsMap.keys (b_word2idx b)) ->
  consistent (mkb (sset (b_word2idx b) w (b_idx b))
                  (nset (b_idx2word b) (b_idx b) w)
                  sw (S (b_idx b))).
Proof.
  intros [[learned Hp] Hk Hi Hinv] Hw.
  rewrite (set_new String.eqb String.eqb_eq) by assumption.
  split; cbn [b_word2idx b_idx2word b_idx b_subwords].
  - exists (learned ++ [(w, b_idx b)]). rewrite Hp. reflexivity.
  - unfold JsMap.keys. rewrite map_app. simpl.
    apply NoDup_app.
    + assumption.
    + repeat constructor. simpl. tauto.
    + intros x Hx [<-|[]]. exact (Hw Hx).
  - rewrite map_app, Hi, seq_S. reflexivity.
  - rewrite Hinv.
    rewrite (set_new Nat.eqb Nat.eqb_eq) by (now apply ids_not_in).
    now rewrite map_app.
Qed.

Lemma add_whole_word_consistent (b : building) (e : string * nat) :
  consistent b -> consistent (add_whole_word b e).
Proof.
  intros Hb. unfold add_whole_word.
  destruct (shas (b_word2idx b) (fst e)) eqn:E; [assumption|].
  apply consistent_append; [assumption|].
  now apply (has_false_iff String.eqb String.eqb_eq).
Qed.

Lemma add_whole_words_consistent (wf : list (string * nat)) :
  forall b, consistent b -> consistent (fold_left add_whole_word wf b).
Proof.
  induction wf as [|e wf IH]; intros b Hb; simpl; [assumption|].
  apply IH, add_whole_word_consistent, Hb.
Qed.

Lemma add_subwords_consistent (l : list (string * nat)) :
  forall b,
    consistent b ->
    NoDup (map fst l) ->
    (forall e, In e l -> ~ In (fst e) (JsMap.keys (b_word2idx b))) ->
    consistent (fold_left add_subword l b).
Proof.
  induction l as [|e l IH]; intros b Hb Hnd Hfresh; simpl; [assumption|].
  inversion Hnd as [|? ? Hne Hnd']; subst.
  assert (He : ~ In (fst e) (JsMap.keys (b_word2idx b)))
    by (apply Hfresh; now left).
  apply IH.
  - unfold add_subword. now apply consistent_append.
  - assumption.
  - intros e' He' Hin. unfold add_subword in Hin. simpl in Hin.
    rewrite (set_new String.eqb String.eqb_eq) in Hin by assumption.
    unfold JsMap.keys in Hin. rewrite map_app in Hin.
    apply in_app_or in Hin as [Hin|[Hin|[]]].
    + apply (Hfresh e'); [now right | exact Hin].
    + simpl in Hin. apply Hne. rewrite Hin. now apply in_map.
Qed.

(** *** The candidate sub-words: distinct keys of at most four characters *)

Lemma short_keys_set (m : list (string * nat)) (k : string) (v : nat) :
  short_keys m -> String.length k <= 4 -> short_keys (sset m k v).
Proof.
  intros [Hnd Hs] Hk.
  destruct (set_keys_cases String.eqb String.eqb_eq m k v) as [E|[Hn E]];
    unfold short_keys; rewrite E.
  - now split.
  - split.
    + apply NoDup_app; [assumption | repeat constructor; simpl; tauto |].
      intros x Hx [<-|[]]. exact (Hn Hx).
    + apply Forall_app. split; [assumption | constructor; [exact Hk | constructor]].
Qed.

Lemma add_ngrams_n_short (word : string) (freq n : nat) :
  n <= 4 ->
  forall m, short_keys m -> short_keys (add_ngrams_n word freq m n).
Proof.
  intros Hn m Hm. unfold add_ngrams_n.
  destruct (String.length word <? n); [assumption|].
  generalize dependent m.
  induction (seq 0 (String.length word - n + 1)) as [|i rest IH];
    intros m Hm; simpl; [assumption|].
  apply IH. unfold add_ngram. apply short_keys_set; [assumption|].
  pose proof (substring_length_le word i n). lia.
Qed.

Lemma add_word_ngrams_short (m : list (string * nat)) (e : string * nat) :
  short_keys m -> short_keys (add_word_ngrams m e).
Proof.
  intros Hm. destruct e as [word freq]. unfold add_word_ngrams.
  destruct (String.length word <=? 1); [assumption|]. simpl.
  repeat (apply add_ngrams_n_short; [lia|]). assumption.
Qed.

Lemma subwordCandidates_short (wf : list (string * nat)) :
  short_keys (subwordCandidates wf).
Proof.
  unfold subwordCandidates.
  assert (H : short_keys []) by (split; constructor).
  revert H. generalize (@nil (string * nat)).
  induction wf as [|e wf IH]; intros m Hm; simpl; [assumption|].
  apply IH, add_word_ngrams_short, Hm.
Qed.

Lemma insert_desc_perm (x : string * nat) (l : list (string * nat)) :
  Permutation (insert_desc x l) (x :: l).
Proof.
  induction l as [|y l IH]; simpl; [reflexivity|].
  destruct (snd y <=? snd x); [reflexivity|].
  rewrite IH. apply perm_swap.
Qed.

Lemma sort_desc_perm (l : list (string * nat)) :
  Permutation (sort_desc l) l.
Proof.
  induction l as [|x l IH]; simpl; [reflexivity|].
  rewrite insert_desc_perm. now constructor.
Qed.

Lemma NoDup_firstn {A : Type} (n : nat) (l : list A) :
  NoDup l -> NoDup (firstn n l).
Proof.
  revert n. induction l as [|x l IH]; intros [|n] H; simpl;
    try constructor.
  - inversion H; subst. intros Hin. apply H2.
    rewrite <- (firstn_skipn n l). apply in_or_app. now left.
  - inversion H; subst. now apply IH.
Qed.

Lemma In_firstn {A : Type} (n : nat) (l : list A) (x : A) :
  In x (firstn n l) -> In x l.
Proof.
  intros H. rewrite <- (firstn_skipn n l). apply in_or_app. now left.
Qed.

Lemma sortedSubwords_short (wf : list (string * nat)) :
  short_keys (sortedSubwords wf).
Proof.
  destruct (subwordCandidates_short wf) as [Hnd Hs].
  unfold sortedSubwords, short_keys, JsMap.keys.
  rewrite <- firstn_map.
  assert (P : Permutation (map fst (sort_desc (subwordCandidates wf)))
                          (map fst (subwordCandidates wf)))
    by apply Permutation_map, sort_desc_perm.
  split.
  - apply NoDup_firstn. eapply Permutation_NoDup; [symmetry; exact P|].
    exact Hnd.
  - rewrite Forall_forall in *. intros k Hk. apply Hs.
    apply In_firstn in Hk. eapply Permutation_in; eassumption.
Qed.

Lemma build_consistent (this : t) (texts : list string) :
  consistent (build this texts).
Proof.
  unfold build. apply add_whole_words_consistent.
  destruct (sortedSubwords_short (wordFreq texts)) as [Hnd Hs].
  apply add_subwords_consistent.
  - apply consistent_reserved.
  - exact Hnd.
  - intros e He. rewrite Forall_forall in Hs.
    assert (Hl : String.length (fst e) <= 4)
      by (apply Hs; unfold JsMap.keys; now apply in_map).
    simpl. intros [H|[H|[H|[H|[]]]]]; rewrite <- H in Hl;
      simpl in Hl; lia.
Qed.

(** Reading a consistent pair of tables in both directions. *)
Lemma consistent_inverse (b : building) :
  consistent b ->
  forall w i, sget (b_word2idx b) w = Some i <->
              nget (b_idx2word b) i = Some w.
Proof.
  intros [_ Hk Hi Hinv] w i. rewrite Hinv.
  assert (Hk2 : NoDup (JsMap.keys (map swap (b_word2idx b)))).
  { unfold JsMap.keys. rewrite map_map. simpl.
    change (map (fun x => snd x) (b_word2idx b))
      with (map snd (b_word2idx b)).
    rewrite Hi. apply seq_NoDup. }
  split; intros H.
  - apply (in_get_some Nat.eqb Nat.eqb_eq); [assumption|].
    apply (get_some_in String.eqb String.eqb_eq) in H.
    change (i, w) with (swap (w, i)). now apply in_map.
  - apply (in_get_some String.eqb String.eqb_eq); [assumption|].
    apply (get_some_in Nat.eqb Nat.eqb_eq) in H.
    apply in_map_iff in H as [[w' i'] [E Hin]].
    unfold swap in E. simpl in E. now injection E as -> ->.
Qed.

(** C9.  After [fit], whatever the tokenizer held before: PAD, UNKNOWN,
    START and END have ids 0, 1, 2, 3; the word table is these four
    entries followed by the learned ones, whose ids are 4, 5, ... without
    a gap; [vocabSize] is the number of entries of the word table, which
    are pairwise distinct words; the id table is the exact inverse of the
    word table; and the result does not depend on the prior vocabulary. *)
Theorem fit_vocabulary_invariant (this : t) (texts : list string) :
  let tk := fit this texts in
  (sget (word2idx tk) PAD = Some 0 /\ sget (word2idx tk) UNK = Some 1 /\
   sget (word2idx tk) START = Some 2 /\ sget (word2idx tk) END_ = Some 3) /\
  (exists learned,
      word2idx tk = reserved_entries ++ learned /\
      map snd learned = seq 4 (List.length learned)) /\
  (vocabSize tk = List.length (word2idx tk) /\
   NoDup (JsMap.keys (word2idx tk))) /\
  (forall w i, sget (word2idx tk) w = Some i <->
               nget (idx2word tk) i = Some w) /\
  (forall prior, fit prior texts = tk).
Proof.
  intros tk.
  pose proof (build_consistent this texts) as Hc.
  pose proof Hc as [[learned Hp] Hk Hi Hinv].
  assert (Hw : word2idx tk = b_word2idx (build this texts)) by reflexivity.
  assert (Hl : map snd learned = seq 4 (List.length learned)).
  { rewrite Hp in Hi. rewrite map_app in Hi. simpl in Hi.
    assert (Hlen : b_idx (build this texts) = 4 + List.length learned).
    { apply (f_equal (@List.length nat)) in Hi.
      simpl in Hi. rewrite length_map, length_seq in Hi. lia. }
    rewrite Hlen in Hi. simpl in Hi. now injection Hi. }
  repeat split.
  - rewrite Hw, Hp. reflexivity.
  - rewrite Hw, Hp. reflexivity.
  - rewrite Hw, Hp. reflexivity.
  - rewrite Hw, Hp. reflexivity.
  - exists learned. now split.
  - exact Hk.
  - apply (consistent_inverse _ Hc).
  - apply (consistent_inverse _ Hc).
Qed.

End FitFacts.

(** ** [encode] and [decode] *)

Module CodecFacts.
Import JsString JsStringFacts JsMapFacts Tokenizer FitFacts.

(** The bound of [subword_loop] is never the reason it stops: any number
    of rounds from [word.length - i] on gives the same result. *)
Lemma match_longest_len (tk : t) (word : string) (i : nat) :
  forall len l id, match_longest tk word i len = Some (l, id) ->
                   2 <= l <= len.
Proof.
  induction len as [|len IH]; intros l id H; simpl in H; [discriminate|].
  destruct len as [|len']; [discriminate|].
  destruct (shas (subwords tk) (substring i (S (S len')) word)).
  - injection H as <- _. lia.
  - apply IH in H. lia.
Qed.

Lemma subword_loop_more (tk : t) (word : string) :
  forall n i, String.length word - i <= n ->
              subword_loop (S n) tk word i = subword_loop n tk word i.
Proof.
  induction n as [|n IH]; intros i Hn.
  - simpl. destruct (i <? String.length word) eqn:E; [|reflexivity].
    apply Nat.ltb_lt in E. lia.
  - change (subword_loop (S (S n)) tk word i) with
      (if i <? String.length word then
         match match_longest tk word i (Nat.min 4 (String.length word - i)) with
         | Some (len, id) =>
             let (rest, _) := subword_loop (S n) tk word (i + len) in
             (id :: rest, true)
         | None =>
             let (rest, enc) := subword_loop (S n) tk word (i + 1) in
             (sget (word2idx tk) UNK :: rest, enc)
         end
       else ([], false)).
    change (subword_loop (S n) tk word i) with
      (if i <? String.length word then
         match match_longest tk word i (Nat.min 4 (String.length word - i)) with
         | Some (len, id) =>
             let (rest, _) := subword_loop n tk word (i + len) in
             (id :: rest, true)
         | None =>
             let (rest, enc) := subword_loop n tk word (i + 1) in
             (sget (word2idx tk) UNK :: rest, enc)
         end
       else ([], false)).
    destruct (i <? String.length word); [|reflexivity].
    destruct (match_longest tk word i _) as [[len id]|] eqn:M.
    + apply match_longest_len in M. rewrite IH by lia. reflexivity.
    + rewrite IH by lia. reflexivity.
Qed.

Lemma subword_loop_fuel (tk : t) (word : string) (i : nat) :
  forall n, String.length word - i <= n ->
            subword_loop n tk word i =
            subword_loop (String.length word - i) tk word i.
Proof.
  induction n as [|n IH]; intros Hn.
  - replace (String.length word - i) with 0 by lia. reflexivity.
  - destruct (Nat.eq_dec (String.length word - i) (S n)) as [->|Hne];
      [reflexivity|].
    rewrite subword_loop_more by lia. apply IH. lia.
Qed.

(** Every word appends at least one token. *)
Lemma subword_loop_encoded (tk : t) (word : string) :
  forall n i pushed,
    subword_loop n tk word i = (pushed, true) -> 1 <= List.length pushed.
Proof.
  intros [|n] i pushed H; simpl in H; [discriminate|].
  destruct (i <? String.length word); [|discriminate].
  destruct (match_longest tk word i _) as [[len id]|].
  - destruct (subword_loop n tk word (i + len)).
    injection H as <-. simpl. lia.
  - destruct (subword_loop n tk word (i + 1)).
    injection H as <- _. simpl. lia.
Qed.

Lemma encode_word_nonempty (tk : t) (word : string) :
  1 <= List.length (encode_word tk word).
Proof.
  unfold encode_word. destruct (shas (word2idx tk) word); [simpl; lia|].
  destruct (subword_loop (String.length word) tk word 0) as [pushed enc] eqn:E.
  destruct enc.
  - eapply subword_loop_encoded, E.
  - rewrite length_app. simpl. lia.
Qed.

Lemma encode_words_grows (tk : t) (maxLength : Z) (words : list string) :
  forall result,
    List.length result <= List.length (encode_words tk maxLength words result).
Proof.
  induction words as [|w ws IH]; intros result; simpl; [lia|].
  destruct (_ >=? _)%Z.
  - rewrite length_app. lia.
  - etransitivity; [|apply IH]. rewrite length_app. lia.
Qed.

(** The output is never shorter than [maxLength] and starts with the id
    of START. *)
Lemma encode_length_ge (tk : t) (text : string) (maxLength : Z) :
  (maxLength <= Z.of_nat (List.length (encode tk text maxLength)))%Z.
Proof.
  unfold encode. rewrite !length_app, repeat_length. simpl. lia.
Qed.

Lemma encode_words_head (tk : t) (maxLength : Z) (words : list string) :
  forall result, exists more,
    encode_words tk maxLength words result = result ++ more.
Proof.
  induction words as [|w ws IH]; intros result; simpl.
  - exists []. now rewrite app_nil_r.
  - destruct (_ >=? _)%Z.
    + eexists. reflexivity.
    + destruct (IH (result ++ encode_word tk w)) as [more ->].
      eexists. rewrite <- app_assoc. reflexivity.
Qed.

Lemma encode_starts_with_START (tk : t) (text : string) (maxLength : Z) :
  exists rest,
    encode tk text maxLength = sget (word2idx tk) START :: rest.
Proof.
  unfold encode.
  destruct (encode_words_head tk maxLength (split_ws (toLowerCase text))
              [sget (word2idx tk) START]) as [more ->].
  simpl. eexists. reflexivity.
Qed.

(** When every word is a vocabulary entry and the words fit, nothing is
    cut: one id per word. *)
Lemma encode_words_in_vocab (tk : t) (maxLength : Z) (words : list string) :
  Forall (fun w => shas (word2idx tk) w = true) words ->
  forall result,
    (Z.of_nat (List.length result + List.length words) <= maxLength - 1)%Z ->
    encode_words tk maxLength words result =
    result ++ map (sget (word2idx tk)) words.
Proof.
  induction 1 as [|w ws Hw Hws IH]; intros result Hlen; simpl.
  - now rewrite app_nil_r.
  - assert (Ew : encode_word tk w = [sget (word2idx tk) w])
      by (unfold encode_word; now rewrite Hw).
    rewrite Ew. simpl in Hlen.
    destruct (_ >=? _)%Z eqn:E.
    + apply Z.geb_le in E. rewrite length_app in E. simpl in E.
      destruct ws as [|w' ws']; [reflexivity|]. simpl in Hlen. lia.
    + rewrite IH.
      * now rewrite <- app_assoc.
      * rewrite length_app. simpl. lia.
Qed.

(** *** Facts on a fitted tokenizer *)

Section Fitted.
Variables (this : t) (texts : list string).
Let tk := fit this texts.

Lemma fitted_reserved :
  sget (word2idx tk) PAD = Some 0 /\ sget (word2idx tk) UNK = Some 1 /\
  sget (word2idx tk) START = Some 2 /\ sget (word2idx tk) END_ = Some 3.
Proof.
  destruct (build_consistent this texts) as [[learned Hp] _ _ _].
  unfold tk, fit. cbn [word2idx]. rewrite Hp. repeat split.
Qed.

Lemma fitted_inverse (w : string) (i : nat) :
  sget (word2idx tk) w = Some i <-> nget (idx2word tk) i = Some w.
Proof. apply (consistent_inverse _ (build_consistent this texts)). Qed.

(** The id of a lower-case vocabulary word: not a reserved one, and
    mapped back to the word. *)
Lemma fitted_word_id (w : string) :
  has_upper w = false ->
  shas (word2idx tk) w = true ->
  exists i, sget (word2idx tk) w = Some i /\
            nget (idx2word tk) i = Some w /\
            i <> 0 /\ i <> 2 /\ i <> 3.
Proof.
  intros Hu Hh. unfold JsMap.has in Hh.
  destruct (sget (word2idx tk) w) as [i|] eqn:E; [|discriminate].
  exists i. split; [reflexivity|].
  pose proof (proj1 (fitted_inverse w i) E) as Hi.
  destruct fitted_reserved as (Hp & _ & Hs & He).
  apply fitted_inverse in Hp, Hs, He.
  split; [assumption|].
  repeat split; intros ->; rewrite Hi in *;
    match goal with H : Some w = Some _ |- _ => injection H as -> end;
    discriminate Hu.
Qed.

Lemma flush_map_Some (cur : string) (result : list string) :
  flush cur (map Some result) = map Some (flush_word cur result).
Proof.
  unfold flush, flush_word. destruct (nonempty cur); [|reflexivity].
  now rewrite map_app.
Qed.

Lemma decode_loop_words (words : list string) (tail : list tok) :
  Forall (fun w => has_upper w = false) words ->
  Forall (fun w => shas (word2idx tk) w = true) words ->
  forall result cur,
    decode_loop tk (map (sget (word2idx tk)) words ++ Some 3 :: tail)
                (map Some result) cur =
    map Some (resegment_from tk words result cur).
Proof.
  destruct fitted_reserved as (Hp & Hk & Hs & He).
  induction words as [|w ws IH]; intros Hu Hv result cur.
  - cbn [map app decode_loop]. rewrite Hp, Hs, He.
    cbn [tok_eqb Nat.eqb orb]. apply flush_map_Some.
  - inversion Hu as [|? ? Hu1 Hu2]; subst.
    inversion Hv as [|? ? Hv1 Hv2]; subst.
    destruct (fitted_word_id w Hu1 Hv1) as (i & Ei & Eiw & N0 & N2 & N3).
    cbn [map app decode_loop resegment_from].
    rewrite Ei, Hp, Hs, He. cbn [tok_eqb].
    rewrite (proj2 (Nat.eqb_neq i 0) N0), (proj2 (Nat.eqb_neq i 2) N2),
      (proj2 (Nat.eqb_neq i 3) N3).
    cbn [orb idx2word_get]. rewrite Eiw.
    destruct (shas (subwords tk) w).
    + apply (IH Hu2 Hv2).
    + assert (En : String.eqb w UNK = false).
      { apply String.eqb_neq. intros ->. discriminate Hu1. }
      rewrite En, flush_map_Some.
      change [Some w] with (map Some [w]). rewrite <- map_app.
      apply (IH Hu2 Hv2).
Qed.

Lemma resegment_no_subwords (words : list string) :
  Forall (fun w => shas (subwords tk) w = false) words ->
  forall result,
    resegment_from tk words result "" = result ++ words.
Proof.
  induction 1 as [|w ws Hw Hws IH]; intros result;
    cbn [resegment_from].
  - unfold flush_word. cbn [nonempty]. now rewrite app_nil_r.
  - rewrite Hw. unfold flush_word. cbn [nonempty]. rewrite IH.
    now rewrite <- app_assoc.
Qed.

Lemma map_render_Some (l : list string) : map render (map Some l) = l.
Proof. rewrite map_map. simpl. apply map_id. Qed.

(** C2, amended.  On a fitted tokenizer, for a text whose lower-cased
    words are all vocabulary entries and number at most
    [maxLength - 2], decoding the encoding gives back these words
    joined by single spaces, except that each maximal run of adjacent
    words that are sub-word entries comes back glued into one word; in
    particular the words come back exactly when none of them is a
    sub-word entry. *)
Theorem decode_encode_in_vocabulary (text : string) (maxLength : Z) :
  let words := split_ws (toLowerCase text) in
  Forall (fun w => shas (word2idx tk) w = true) words ->
  (Z.of_nat (List.length words) <= maxLength - 2)%Z ->
  decode tk (encode tk text maxLength) = join_sp (resegment tk words) /\
  (Forall (fun w => shas (subwords tk) w = false) words ->
   decode tk (encode tk text maxLength) = join_sp words).
Proof.
  intros words Hv Hn.
  assert (E : decode tk (encode tk text maxLength)
              = join_sp (resegment tk words)).
  { destruct fitted_reserved as (Hp & Hk & Hs & He).
    unfold decode, encode. fold words.
    rewrite encode_words_in_vocab by (try assumption; simpl; lia).
    rewrite Hs, He, Hp. rewrite <- !app_assoc.
    cbn [app decode_loop]. rewrite Hp, Hs. cbn [tok_eqb Nat.eqb orb].
    change (@nil (option string)) with (map Some (@nil string)).
    rewrite decode_loop_words; [| apply words_no_upper | assumption].
    now rewrite map_render_Some. }
  split; [exact E|].
  intros Hsub. rewrite E. unfold resegment.
  now rewrite resegment_no_subwords.
Qed.

End Fitted.

(** The same at a concrete input, with its hypotheses evaluated. *)
Lemma decode_encode_in_vocabulary_witness :
  let tk := fit unfit ["hello world friend"] in
  decode tk (encode tk "Hello  WORLD friend" 8) = "hello world friend".
Proof.
  intros tk.
  assert (Hv : Forall (fun w => shas (word2idx tk) w = true)
                      (split_ws (toLowerCase "Hello  WORLD friend")))
    by (vm_compute; repeat constructor).
  assert (Hn : (Z.of_nat (List.length
                  (split_ws (toLowerCase "Hello  WORLD friend"))) <= 8 - 2)%Z)
    by (vm_compute; discriminate).
  assert (Hs : Forall (fun w => shas (subwords tk) w = false)
                      (split_ws (toLowerCase "Hello  WORLD friend")))
    by (vm_compute; repeat constructor).
  exact (proj2 (decode_encode_in_vocabulary unfit ["hello world friend"]
                  "Hello  WORLD friend" 8 Hv Hn) Hs).
Defined.

(** C2 as stated fails, also when gluing adjacent sub-word entries is
    allowed for: with [maxLength = 4] only two words survive the
    truncation, although every word of the text is in the vocabulary and
    none is a sub-word entry. *)
Lemma decode_encode_loses_words :
  ~ (forall (texts : list string) (text : string) (maxLength : Z),
        (4 <= maxLength)%Z ->
        let tk := fit unfit texts in
        let words := split_ws (toLowerCase text) in
        Forall (fun w => shas (word2idx tk) w = true) words ->
        decode tk (encode tk text maxLength) = join_sp (resegment tk words)).
Proof.
  intros H.
  assert (C : decode (fit unfit ["a b c"])
                     (encode (fit unfit ["a b c"]) "a b c" 4)
              = join_sp (resegment (fit unfit ["a b c"])
                                   (split_ws (toLowerCase "a b c")))).
  { apply (H ["a b c"] "a b c" 4%Z); [lia|].
    vm_compute. repeat constructor. }
  vm_compute in C. discriminate C.
Qed.

End CodecFacts.

(** ** [encode] beyond [maxLength], and the unfit tokenizer *)

Module EncodeLength.
Import JsString Tokenizer.

(** C1 fails on the code.  The guard [result.length >= maxLength - 1] is
    tested once per word, after the word's tokens were pushed, so a word
    that is spelled out token by token overshoots: the unknown word
    "zzzzzz" alone gives nine ids for [maxLength = 4] (START, one UNKNOWN
    per character, one more for the whole word, END); an unknown word of
    130 characters gives 133 ids for the default [maxLength = 128]; and
    with [maxLength = 2] even a single vocabulary word gives three. *)
Theorem encode_exceeds_maxLength :
  encode Toy.tk_hello "zzzzzz" 4 =
    [Some 2; Some 1; Some 1; Some 1; Some 1; Some 1; Some 1; Some 1; Some 3]
  /\ List.length (encode Toy.tk_hello "zzzzzz" 4) = 9
  /\ List.length (encode Toy.tk_hello
                         (string_of_list_ascii (repeat "z"%char 130)) 128)
     = 133
  /\ encode Toy.tk_hello "hello" 2 = [Some 2; Some 30; Some 3].
Proof. vm_compute. repeat split. Qed.

(** What does hold: when every word of the text is a vocabulary entry
    (one id per word) and [maxLength >= 3], the result has exactly
    [maxLength] ids. *)
Lemma encode_words_in_vocab_length (tk : t) (maxLength : Z)
      (words : list string) :
  Forall (fun w => shas (word2idx tk) w = true) words ->
  forall result,
    (Z.of_nat (List.length result) <= maxLength - 2)%Z ->
    (Z.of_nat (List.length (encode_words tk maxLength words result))
     <= maxLength - 1)%Z.
Proof.
  induction 1 as [|w ws Hw Hws IH]; intros result Hlen; simpl; [lia|].
  assert (Ew : encode_word tk w = [sget (word2idx tk) w])
    by (unfold encode_word; now rewrite Hw).
  rewrite Ew.
  destruct (_ >=? _)%Z eqn:E.
  - rewrite length_app. simpl. lia.
  - apply IH. rewrite Z.geb_leb in E. apply Z.leb_gt in E.
    rewrite length_app in *. simpl in *. lia.
Qed.

Lemma encode_length_in_vocab (tk : t) (text : string) (maxLength : Z) :
  Forall (fun w => shas (word2idx tk) w = true)
         (split_ws (toLowerCase text)) ->
  (3 <= maxLength)%Z ->
  Z.of_nat (List.length (encode tk text maxLength)) = maxLength.
Proof.
  intros Hv Hm. unfold encode.
  pose proof (encode_words_in_vocab_length tk maxLength _ Hv
                [sget (word2idx tk) START] ltac:(simpl; lia)) as H.
  rewrite !length_app, repeat_length. simpl. lia.
Qed.

(** *** The tokenizer before any [fit] *)

Lemma match_longest_unfit (word : string) (i : nat) :
  forall len, match_longest unfit word i len = None.
Proof.
  induction len as [|len IH]; [reflexivity|].
  destruct len as [|len']; [reflexivity|]. exact IH.
Qed.

Lemma subword_loop_unfit (word : string) :
  forall n i, Forall (eq None) (fst (subword_loop n unfit word i)).
Proof.
  induction n as [|n IH]; intros i; simpl; [constructor|].
  destruct (i <? String.length word); [|constructor].
  rewrite match_longest_unfit.
  specialize (IH (i + 1)).
  destruct (subword_loop n unfit word (i + 1)) as [rest enc].
  simpl in *. now constructor.
Qed.

Lemma encode_word_unfit (word : string) :
  Forall (eq None) (encode_word unfit word).
Proof.
  unfold encode_word. simpl.
  pose proof (subword_loop_unfit word (String.length word) 0) as H.
  destruct (subword_loop (String.length word) unfit word 0) as [pushed enc].
  simpl in H. destruct enc; [assumption|].
  apply Forall_app. split; [assumption | repeat constructor].
Qed.

Lemma encode_words_unfit (maxLength : Z) (words : list string) :
  forall result,
    Forall (eq None) result ->
    Forall (eq None) (encode_words unfit maxLength words result).
Proof.
  induction words as [|w ws IH]; intros result H; simpl; [assumption|].
  assert (H' : Forall (eq None) (result ++ encode_word unfit w))
    by (apply Forall_app; split; [assumption | apply encode_word_unfit]).
  destruct (_ >=? _)%Z; [assumption | now apply IH].
Qed.

Lemma decode_loop_unfit (sequence : list tok) :
  forall result,
    decode_loop unfit sequence result "" =
    result ++ map (fun _ => None) (filter is_defined sequence).
Proof.
  induction sequence as [|[i|] rest IH]; intros result; simpl.
  - now rewrite app_nil_r.
  - rewrite IH. now rewrite <- app_assoc.
  - apply IH.
Qed.

(** C3, amended.  On the tokenizer as [initializeTokenizer] creates it
    (all tables empty) neither call fails.  [encode] returns a sequence
    of at least [maxLength] entries, every one of them [undefined];
    [decode] returns a string: one empty piece for every defined id of
    its argument, joined by single spaces. *)
Theorem unfit_calls_return (text : string) (maxLength : Z)
        (sequence : list tok) :
  (exists ids,
      call_encode unfit text maxLength = Normal ids /\
      Forall (eq None) ids /\
      (maxLength <= Z.of_nat (List.length ids))%Z) /\
  call_decode unfit sequence =
    Normal (join_sp (map (fun _ => EmptyString)
                         (filter is_defined sequence))).
Proof.
  split.
  - exists (encode unfit text maxLength). split; [reflexivity|]. split.
    + unfold encode. repeat (apply Forall_app; split).
      * apply encode_words_unfit. repeat constructor.
      * repeat constructor.
      * simpl. induction (Z.to_nat _); simpl; constructor; auto.
    + unfold encode. rewrite !length_app, repeat_length. simpl. lia.
  - unfold call_decode, decode. rewrite decode_loop_unfit. simpl.
    now rewrite map_map.
Qed.

(** C3 as stated fails: both calls return instead of failing. *)
Lemma unfit_calls_do_not_fail :
  call_encode unfit "hello" 4 = Normal [None; None; None; None; None; None; None; None]
  /\ call_encode unfit "hello" 4 <> Throw "NotInitialized"
  /\ call_decode unfit [Some 5; Some 6] = Normal " "
  /\ call_decode unfit [Some 5; Some 6] <> Throw "NotInitialized".
Proof. vm_compute. repeat split; discriminate. Qed.

End EncodeLength.

(** ** Curriculum selection *)

Module CurriculumFacts.
Import JsString Tokenizer Env NeuralLanguageModel.

(** On a name that is not inherited the table lookup with its default
    is the ordinal of the specification. *)
Lemma level_ordinal_spec (d : string) :
  JsObject.is_inherited d = false ->
  or_zero (difficultyOrder (or_beginner d)) = Rank (level_ordinal d).
Proof.
  intros Hd. unfold or_beginner. destruct d as [|c d]; [reflexivity|].
  cbn [nonempty]. set (name := String c d) in *.
  unfold difficultyOrder, level_ordinal, levels. cbn [indexOf].
  rewrite (String.eqb_sym "beginner" name), (String.eqb_sym "elementary" name),
    (String.eqb_sym "intermediate" name), (String.eqb_sym "advanced" name),
    (String.eqb_sym "expert" name).
  destruct (String.eqb name "beginner"); [reflexivity|].
  destruct (String.eqb name "elementary"); [reflexivity|].
  destruct (String.eqb name "intermediate"); [reflexivity|].
  destruct (String.eqb name "advanced"); [reflexivity|].
  destruct (String.eqb name "expert"); [reflexivity|].
  unfold JsObject.is_inherited in Hd.
  destruct (JsObject.inherited name); [discriminate Hd | reflexivity].
Qed.

Lemma difficultyValue_plain (pr : pair) :
  plain_tag pr = true -> difficultyValue pr = Rank (rule_ordinal pr).
Proof.
  unfold plain_tag, difficultyValue, rule_ordinal.
  destruct (meta pr) as [[[d|]]|]; try reflexivity.
  intros H. apply negb_true_iff in H. now apply level_ordinal_spec.
Qed.

(** The level the filter works with is the position of [progressLevel]
    among the level names. *)
Lemma currentLevelValue_of_name (R : Runtime) (m : trainingMetrics R)
      (L : nat) :
  nth_error levels L = Some (progressLevel R m) ->
  currentLevelValue R m = Rank L.
Proof.
  intros H. unfold currentLevelValue.
  do 5 (destruct L as [|L];
        [cbn in H; injection H as <-; reflexivity|]).
  destruct L; discriminate H.
Qed.

Lemma curriculum_keeps_rule (level : nat) (pr : pair)
      (src : random_source) (pos : nat) :
  plain_tag pr = true ->
  curriculum_keeps (Rank level) pr src pos =
  (included_by_rule level (rule_ordinal pr) (src pos),
   if needs_draw level (rule_ordinal pr) then S pos else pos).
Proof.
  intros Hp.
  unfold curriculum_keeps, included_by_rule, needs_draw,
    or_else, and_then, bind, ret, random.
  rewrite (difficultyValue_plain pr Hp). cbn [ord_le ord_is_plus].
  destruct (rule_ordinal pr <=? level) eqn:E1.
  - apply Nat.leb_le in E1.
    rewrite (proj2 (Nat.eqb_neq (rule_ordinal pr) (level + 1))) by lia.
    rewrite (proj2 (Nat.eqb_neq (rule_ordinal pr) (level + 2))) by lia.
    reflexivity.
  - destruct (rule_ordinal pr =? level + 1) eqn:E2.
    + apply Nat.eqb_eq in E2.
      rewrite (proj2 (Nat.eqb_neq (rule_ordinal pr) (level + 2))) by lia.
      simpl. destruct (draw_lt (src pos) (1 # 2)); reflexivity.
    + destruct (rule_ordinal pr =? level + 2); reflexivity.
Qed.

Lemma filter_m_rule (level : nat) (src : random_source)
      (data : list pair) :
  forallb plain_tag data = true ->
  forall pos,
    fst (filter_m (curriculum_keeps (Rank level)) data src pos) =
    rule_selection level src pos data.
Proof.
  unfold rule_selection.
  induction data as [|pr rest IH]; intros Hp pos; [reflexivity|].
  cbn [forallb] in Hp. apply andb_true_iff in Hp as [Hpr Hrest].
  cbn [filter_m draw_positions combine filter fst snd].
  unfold bind at 1. rewrite (curriculum_keeps_rule level pr src pos Hpr).
  unfold bind at 1.
  specialize (IH Hrest (if needs_draw level (rule_ordinal pr)
                        then S pos else pos)).
  destruct (filter_m (curriculum_keeps (Rank level)) rest src _)
    as [kept pos'].
  simpl in IH. unfold ret. cbn [fst].
  destruct (included_by_rule level (rule_ordinal pr) (src pos));
    cbn [map fst]; now rewrite IH.
Qed.

(** Positions never go back, and go forward past an example that is
    decided by a draw. *)
Lemma draw_positions_ge (level : nat) (data : list pair) :
  forall pos j pj,
    nth_error (draw_positions level pos data) j = Some pj -> pos <= pj.
Proof.
  induction data as [|pr rest IH]; intros pos [|j] pj H; simpl in H;
    try discriminate.
  - injection H as <-. lia.
  - apply IH in H. destruct (needs_draw _ _); lia.
Qed.

Lemma draw_positions_fresh (level : nat) (data : list pair) :
  forall pos i j pri p_i p_j,
    i < j ->
    nth_error data i = Some pri ->
    needs_draw level (rule_ordinal pri) = true ->
    nth_error (draw_positions level pos data) i = Some p_i ->
    nth_error (draw_positions level pos data) j = Some p_j ->
    p_i < p_j.
Proof.
  induction data as [|pr rest IH]; intros pos i j pri p_i p_j Hij Hi Hd Pi Pj.
  - destruct i; discriminate.
  - destruct j as [|j]; [lia|]. destruct i as [|i]; simpl in *.
    + injection Hi as ->. injection Pi as <-. rewrite Hd in Pj.
      apply draw_positions_ge in Pj. lia.
    + apply (IH (if needs_draw level (rule_ordinal pr)
                 then S pos else pos) i j pri p_i p_j);
        [lia | assumption ..].
Qed.

(** The whole selection, for a level name and plain tags. *)
Lemma select_curriculum_rule (R : Runtime) (m : trainingMetrics R)
      (data : list pair) (src : random_source) (pos : nat) (L : nat) :
  hasDifficultyMetadata data = true ->
  nth_error levels L = Some (progressLevel R m) ->
  forallb plain_tag data = true ->
  fst (select_curriculum R m data src pos) =
  (if List.length (rule_selection L src pos data) <? 10 then data
   else rule_selection L src pos data).
Proof.
  intros Hmeta HL Hp.
  unfold select_curriculum. rewrite Hmeta. unfold bind.
  rewrite (currentLevelValue_of_name R m L HL).
  pose proof (filter_m_rule L src data Hp pos) as E.
  destruct (filter_m (curriculum_keeps (Rank L)) data src pos)
    as [kept pos'].
  simpl in E. subst kept.
  destruct (List.length (rule_selection L src pos data) <? 10); reflexivity.
Qed.

(** X25.  When some example carries a difficulty tag, the curriculum
    level is one of the five level names - [L] its position - and no tag
    names an inherited member of the table, the examples [trainModel]
    trains on are those picked by the rule - ordinal at most [L], or
    [L + 1] with its draw below 0.5, or [L + 2] with its draw below 0.2 -
    unless fewer than ten are picked, in which case all examples are
    used.  The ordinals of beginner .. expert are 0 .. 4, and an example
    without tag or with any other tag counts as 0.  Each example decided
    by a draw has a draw of its own: its position in the random source
    is not read for any later example. *)
Theorem curriculum_rule_for_level_names (R : Runtime)
        (m : trainingMetrics R) (data : list pair) (src : random_source)
        (pos L : nat) :
  hasDifficultyMetadata data = true ->
  nth_error levels L = Some (progressLevel R m) ->
  forallb plain_tag data = true ->
  let picked := rule_selection L src pos data in
  fst (select_curriculum R m data src pos) =
    (if List.length picked <? 10 then data else picked)
  /\ map level_ordinal levels = [0; 1; 2; 3; 4]
  /\ (forall i o, rule_ordinal (mk_pair i o None) = 0)
  /\ (forall pr, In pr data -> difficultyValue pr = Rank (rule_ordinal pr))
  /\ (forall i j pri p_i p_j,
         i < j ->
         nth_error data i = Some pri ->
         needs_draw L (rule_ordinal pri) = true ->
         nth_error (draw_positions L pos data) i = Some p_i ->
         nth_error (draw_positions L pos data) j = Some p_j ->
         p_i < p_j).
Proof.
  intros Hmeta HL Hp picked.
  split; [now apply select_curriculum_rule|].
  split; [reflexivity|]. split; [reflexivity|]. split.
  - intros pr Hin. apply difficultyValue_plain.
    rewrite forallb_forall in Hp. now apply Hp.
  - intros i j pri p_i p_j. apply draw_positions_fresh.
Qed.

(** At level intermediate with every draw equal to 1/4: the ten
    examples of the level and the elementary one are picked, the
    advanced one is picked by its draw, the expert one is not. *)
Lemma curriculum_rule_for_level_names_witness :
  fst (select_curriculum Pinned.runtime
         (mk_metrics Pinned.runtime 3 40 None None None "intermediate")
         Samples.mixed_pairs Toy.source 0)
  = repeat (Samples.tagged "intermediate") 10
    ++ [Samples.tagged "elementary"; Samples.tagged "advanced"].
Proof.
  rewrite (proj1 (curriculum_rule_for_level_names Pinned.runtime
                    (mk_metrics Pinned.runtime 3 40 None None None
                                "intermediate")
                    Samples.mixed_pairs Toy.source 0 2
                    eq_refl eq_refl eq_refl)).
  reflexivity.
Defined.


End CurriculumFacts.

(** ** Response generation *)

Module GenerateFacts.
Import JsString Tokenizer Env NeuralLanguageModel.

Lemma draw_below_one (r : draw) : (draw_val r < 1)%Q.
Proof.
  destruct r as [v Hv]. simpl.
  apply andb_true_iff in Hv as [_ Hv].
  apply negb_true_iff in Hv.
  apply Qnot_le_lt. intros H. apply Qle_bool_iff in H. congruence.
Qed.

Lemma draw_index_lt (r : draw) (n : nat) : 0 < n -> draw_index r n < n.
Proof.
  intros Hn. unfold draw_index.
  assert (H : (Qfloor (draw_val r * inject_Z (Z.of_nat n)) < Z.of_nat n)%Z).
  { rewrite Zlt_Qlt.
    eapply Qle_lt_trans; [apply Qfloor_le|].
    assert (Hpos : (0 < inject_Z (Z.of_nat n))%Q).
    { change 0%Q with (inject_Z 0). rewrite <- Zlt_Qlt. lia. }
    pose proof (Qmult_lt_compat_r _ _ _ Hpos (draw_below_one r)) as Hlt.
    rewrite Qmult_1_l in Hlt. exact Hlt. }
  lia.
Qed.

Lemma nonempty_nth_default (r : draw) :
  nonempty (nth (draw_index r (List.length defaultResponses))
                defaultResponses EmptyString) = true.
Proof.
  pose proof (draw_index_lt r (List.length defaultResponses)) as H.
  simpl in H. specialize (H ltac:(lia)).
  destruct (draw_index r 5) as [|[|[|[|[|k]]]]] eqn:E; simpl;
    rewrite E; try reflexivity. simpl in H. lia.
Qed.

(** Every fallback response is non-empty. *)
Lemma fallback_nonempty (userInput : string) (src : random_source)
      (pos : nat) :
  nonempty (fst (generateFallbackResponse userInput src pos)) = true.
Proof.
  unfold generateFallbackResponse.
  destruct (matches _ greeting_words); [reflexivity|].
  destruct (matches _ farewell_words); [reflexivity|].
  destruct (matches _ identity_words); [reflexivity|].
  destruct (matches _ learning_words); [reflexivity|].
  unfold bind, random, ret. cbn [fst]. apply nonempty_nth_default.
Qed.

Lemma nonempty_true_neq (s : string) : nonempty s = true -> s <> EmptyString.
Proof. destruct s; [discriminate | intros _; discriminate]. Qed.




(** C10.  Past the training guard, when the beam search and [decode]
    complete with text [text], the response is [text] if that is
    non-empty and the rule-based fallback otherwise; in both cases it is
    not the empty string. *)
Theorem generated_response_nonempty (R : Runtime) (st : nlm R)
        (net : Net R) (text userInput now : string)
        (src : random_source) (pos : nat) :
  initialized R st = true ->
  model R st = Some net ->
  100 <= totalExamples R (metrics R st) ->
  model_response R st net userInput = Some text ->
  let response := fst (fst (generateResponse R st userInput now src pos)) in
  response <> EmptyString /\
  (text = EmptyString ->
   response = fst (generateFallbackResponse userInput src pos)) /\
  (text <> EmptyString -> response = text).
Proof.
  intros Hi Hm Ht Hr response.
  assert (Hg : (totalExamples R (metrics R st) <? 100) = false)
    by (apply Nat.ltb_ge; exact Ht).
  unfold response, generateResponse. rewrite Hi, Hm, Hg, Hr.
  destruct (nonempty text) eqn:En.
  - unfold ret. cbn [fst]. repeat split.
    + now apply nonempty_true_neq.
    + intros ->. discriminate En.
  - assert (Et : text = EmptyString)
      by (destruct text; [reflexivity | discriminate]).
    subst text. unfold bind, ret.
    pose proof (fallback_nonempty userInput src pos) as Hf.
    destruct (generateFallbackResponse userInput src pos) as [r pos'].
    cbn [fst] in *. repeat split.
    + now apply nonempty_true_neq.
    + intros H. now contradiction H.
Qed.

Lemma generated_response_nonempty_witness :
  fst (fst (generateResponse Toy.runtime (Toy.running 0 100) "zzz" "12:00"
                             Toy.source 0))
  <> EmptyString.
Proof.
  refine (proj1 (generated_response_nonempty Toy.runtime (Toy.running 0 100)
                   0 EmptyString "zzz" "12:00" Toy.source 0
                   eq_refl eq_refl _ _)).
  - simpl. lia.
  - vm_compute. reflexivity.
Defined.

End GenerateFacts.

(** ** Beam search *)

Module BeamFacts.
Import JsString Tokenizer Env NeuralLanguageModel.

Section WithRuntime.
Variable R : Runtime.
Variables (net : Net R) (tk : Tokenizer.t) (p : parameters R)
          (enc : Tensor R).

Lemma within_mono (n m : nat) (l : list (beam R)) :
  n <= m -> Forall (within R n) l -> Forall (within R m) l.
Proof.
  intros Hnm H. eapply Forall_impl; [|exact H].
  unfold within. intros b Hb. lia.
Qed.

Lemma expand_within (i n : nat) (b : beam R) (cs : list (beam R)) :
  expand R net tk p enc i b = Some cs ->
  within R n b -> Forall (within R (S n)) cs.
Proof.
  unfold expand, within. intros H Hb.
  destruct (ended R tk b).
  - injection H as <-. repeat constructor. unfold within. lia.
  - destruct (tensor2d R _) as [dec|]; [|discriminate].
    destruct (predict_topk R net enc dec i _ _ _) as [[indices values]|];
      [|discriminate].
    injection H as <-. apply Forall_forall. intros c Hc.
    simpl in Hc.
    repeat (destruct Hc as [<-|Hc];
            [unfold within; cbn [sequence]; rewrite length_app; simpl; lia|]).
    contradiction.
Qed.

Lemma expand_all_within (i n : nat) (beams : list (beam R)) :
  forall cs,
    expand_all R net tk p enc i beams = Some cs ->
    Forall (within R n) beams -> Forall (within R (S n)) cs.
Proof.
  induction beams as [|b rest IH]; intros cs H Hb; simpl in H.
  - injection H as <-. constructor.
  - inversion Hb as [|? ? Hb1 Hb2]; subst.
    destruct (expand R net tk p enc i b) as [c1|] eqn:E1; [|discriminate].
    destruct (expand_all R net tk p enc i rest) as [c2|]; [|discriminate].
    injection H as <-. apply Forall_app. split.
    + eapply expand_within; eassumption.
    + now apply IH.
Qed.

Lemma insert_by_score_perm (x : beam R) (l : list (beam R)) :
  Permutation (insert_by_score R x l) (x :: l).
Proof.
  induction l as [|y l IH]; simpl; [reflexivity|].
  destruct (num_gt R (score R y) (score R x)); [|reflexivity].
  rewrite IH. apply perm_swap.
Qed.

Lemma sort_by_score_perm (l : list (beam R)) :
  Permutation (sort_by_score R l) l.
Proof.
  induction l as [|x l IH]; simpl; [reflexivity|].
  rewrite insert_by_score_perm. now constructor.
Qed.

Lemma beam_step_within (i n : nat) (beams beams' : list (beam R)) :
  beam_step R net tk p enc i beams = Some beams' ->
  Forall (within R n) beams ->
  Forall (within R (S n)) beams' /\ List.length beams' <= beamWidth.
Proof.
  unfold beam_step. intros H Hb.
  destruct (expand_all R net tk p enc i beams) as [cs|] eqn:E;
    [|discriminate].
  assert (Hb' : beams' = firstn beamWidth (sort_by_score R cs))
    by congruence.
  subst beams'. clear H. split.
  - apply Forall_forall. intros b Hin.
    apply FitFacts.In_firstn in Hin.
    apply (Permutation_in _ (sort_by_score_perm cs)) in Hin.
    pose proof (expand_all_within i n beams cs E Hb) as Hcs.
    rewrite Forall_forall in Hcs. now apply Hcs.
  - apply firstn_le_length.
Qed.

(** The loop invariant: entering round [i], no sequence has more than
    [i + 1] tokens and at most [beamWidth] beams are alive. *)
Lemma beam_loop_bounds (rounds : nat) :
  forall i beams out k,
    Forall (within R (S i)) beams ->
    List.length beams <= beamWidth ->
    beam_loop R net tk p enc rounds i beams = Some (out, k) ->
    i <= k <= i + rounds /\
    Forall (within R (S k)) out /\
    List.length out <= beamWidth /\
    (k < i + rounds -> forallb (ended R tk) out = true).
Proof.
  induction rounds as [|rounds IH]; intros i beams out k Hb Hl H; simpl in H.
  - injection H as <- <-. repeat split; try lia; assumption.
  - destruct (beam_step R net tk p enc i beams) as [beams'|] eqn:E;
      [|discriminate].
    destruct (beam_step_within i (S i) beams beams' E Hb) as [Hb' Hl'].
    destruct (forallb (ended R tk) beams') eqn:Ee.
    + injection H as <- <-. repeat split; try lia; try assumption.
      intros _. exact Ee.
    + destruct (IH (S i) beams' out k Hb' Hl' H) as (Hk & Ho & Hlo & He).
      repeat split; try lia; try assumption.
      intros Hlt. apply He. lia.
Qed.

Lemma initial_within : Forall (within R 1) (initial_beams R tk).
Proof. repeat constructor. Qed.

(** *** The search returns: the only way not to get beams is an
    exception of TensorFlow.js. *)

Lemma expand_returns (i : nat) (b : beam R) :
  tf_never_throws R -> exists cs, expand R net tk p enc i b = Some cs.
Proof.
  intros [Ht Hp]. unfold expand.
  destruct (ended R tk b); [eexists; reflexivity|].
  destruct (tensor2d R _) as [dec|] eqn:E; [|now apply Ht in E].
  destruct (predict_topk R net enc dec i _ _ _) as [[indices values]|] eqn:E';
    [eexists; reflexivity | now apply Hp in E'].
Qed.

Lemma expand_all_returns (i : nat) (beams : list (beam R)) :
  tf_never_throws R -> exists cs, expand_all R net tk p enc i beams = Some cs.
Proof.
  intros H. induction beams as [|b rest [more IH]]; simpl.
  - eexists; reflexivity.
  - destruct (expand_returns i b H) as [cs ->]. rewrite IH.
    eexists; reflexivity.
Qed.

Lemma beam_loop_returns (rounds : nat) :
  tf_never_throws R ->
  forall i beams, exists out k,
      beam_loop R net tk p enc rounds i beams = Some (out, k).
Proof.
  intros H. induction rounds as [|rounds IH]; intros i beams; simpl.
  - eexists; eexists; reflexivity.
  - unfold beam_step.
    destruct (expand_all_returns i beams H) as [cs ->].
    destruct (forallb (ended R tk) _); [eexists; eexists; reflexivity|].
    apply IH.
Qed.

(** C4.  With [maxSequenceLength >= 1], the beam search - a loop of at
    most [maxSequenceLength - 1] rounds, each a finite pass over at most
    three beams - returns its beams after [k <= maxSequenceLength - 1]
    rounds unless a TensorFlow.js call throws, which [generateResponse]
    turns into the fallback.  No beam it holds, at the end or after any
    smaller number of rounds, has more than [maxSequenceLength] tokens.  A
    round after which every beam ends in END is the last one, and the loop
    only stops before its bound in that way. *)
Theorem beam_search_bounded :
  (1 <= maxSequenceLength (p_sizes R p))%Z ->
  let maxLength := Z.to_nat (maxSequenceLength (p_sizes R p)) in
  (tf_never_throws R ->
   exists out k, beam_search R net tk p enc = Some (out, k)) /\
  (forall out k,
      beam_search R net tk p enc = Some (out, k) ->
      k <= maxLength - 1 /\
      List.length out <= beamWidth /\
      Forall (within R maxLength) out /\
      (k < maxLength - 1 -> forallb (ended R tk) out = true)) /\
  (forall rounds out k,
      rounds <= maxLength - 1 ->
      beam_loop R net tk p enc rounds 0 (initial_beams R tk) = Some (out, k) ->
      Forall (within R maxLength) out) /\
  (forall rounds i beams beams',
      beam_step R net tk p enc i beams = Some beams' ->
      forallb (ended R tk) beams' = true ->
      beam_loop R net tk p enc (S rounds) i beams = Some (beams', S i)).
Proof.
  intros Hmax maxLength.
  assert (Hinit : List.length (initial_beams R tk) <= beamWidth)
    by (simpl; unfold beamWidth; lia).
  split; [|split; [|split]].
  - intros H. apply beam_loop_returns, H.
  - intros out k H. unfold beam_search in H.
    replace (Z.to_nat (maxSequenceLength (p_sizes R p) - 1))
      with (maxLength - 1) in H by (unfold maxLength; lia).
    destruct (beam_loop_bounds _ 0 _ out k initial_within Hinit H)
      as (Hk & Ho & Hl & He).
    split; [lia|]. split; [assumption|]. split.
    + apply (within_mono (S k)); [unfold maxLength in *; lia | assumption].
    + intros Hlt. apply He. lia.
  - intros rounds out k Hr H.
    destruct (beam_loop_bounds _ 0 _ out k initial_within Hinit H)
      as (Hk & Ho & _).
    apply (within_mono (S k)); [unfold maxLength in *; lia | assumption].
  - intros rounds i beams beams' Hs He. simpl. now rewrite Hs, He.
Qed.

End WithRuntime.

(** The search of the small run-time with [maxSequenceLength = 8]: two
    rounds, three beams of three tokens. *)
Lemma beam_search_bounded_witness :
  (1 <= 8)%Z /\
  match beam_search Toy.runtime 7 Toy.tk_hello Toy.toy_parameters [] with
  | Some (out, k) =>
      k <= 7 /\ Forall (within Toy.runtime 8) out
  | None => False
  end.
Proof.
  split; [lia|].
  pose proof (proj1 (proj2 (beam_search_bounded Toy.runtime 7 Toy.tk_hello
                       Toy.toy_parameters [] ltac:(simpl; lia)))) as H.
  destruct (beam_search Toy.runtime 7 Toy.tk_hello Toy.toy_parameters [])
    as [[out k]|] eqn:E.
  - destruct (H out k eq_refl) as (Hk & _ & Hw & _).
    split; [exact Hk | exact Hw].
  - vm_compute in E. discriminate E.
Defined.

End BeamFacts.

(** ** Training and persistence *)

Module TrainFacts.
Import JsString Tokenizer Env NeuralLanguageModel Corpus.



(** [trainModel] without its random draws. *)
Lemma trainModel_unfold (R : Runtime) (st : nlm R) (data : list pair)
      (o : options R) (now : string) (src : random_source) (pos : nat) :
  fst (trainModel R st data o now src pos) =
  match initialized R st, model R st with
  | true, Some net =>
      train_on R st net o
               (fst (select_curriculum R (metrics R st) data src pos)) now
  | _, _ => (Normal false, st)
  end.
Proof.
  unfold trainModel.
  destruct (initialized R st), (model R st); try reflexivity.
  unfold bind, ret.
  now destruct (select_curriculum R (metrics R st) data src pos).
Qed.

Ltac train_cases R st :=
  rewrite trainModel_unfold;
  destruct (initialized R st) eqn:Hi; [|cbn [fst snd]];
  [destruct (model R st) as [net|] eqn:Hm; [|cbn [fst snd]];
   [unfold train_on; cbv zeta;
    destruct (tokenizer R st) as [tk|] eqn:Ht; [|cbn [fst snd]];
    [match goal with
     | |- context [tensor2d R (encoderInputData ?t ?m ?u)] =>
         destruct (tensor2d R (encoderInputData t m u)) as [encT|] eqn:He
     end; [|cbn [fst snd]];
     [match goal with
      | |- context [tensor2d R (decoderInputData ?t ?m ?u)] =>
          destruct (tensor2d R (decoderInputData t m u)) as [decT|] eqn:Hd
      end; [|cbn [fst snd]];
      [match goal with
       | |- context [tensor2d R (decoderTargetData ?t ?m ?u)] =>
           destruct (tensor2d R (decoderTargetData t m u)) as [tgt|] eqn:Hg
       end; [|cbn [fst snd]];
       [match goal with
        | |- context [oneHot R ?t ?n] =>
            destruct (oneHot R t n) as [tgtT|] eqn:Ho
        end; [|cbn [fst snd]];
        [match goal with
         | |- context [net_fit R ?a ?b ?c ?d ?e ?f ?g] =>
             destruct (net_fit R a b c d e f g)
               as [net' [[[accs|] [losses|]]|]] eqn:Hf
         end; cbn [fst snd]
        |]|]|]|]|]|]|].





(** X27.  With a [tf.oneHot] that refuses its argument - as the one of
    TensorFlow.js 3.18.0 does for the tensor built from the target rows -
    nothing is ever trained: [trainModel] leaves the instance as it was
    and never returns [true]; on an initialised instance with a network
    it ends in an exception, and [recordFeedback] then stores the
    correction in the data manager, catches the exception and returns
    [false]. *)
Theorem nothing_trained_without_oneHot (R : Runtime) (st : nlm R)
        (data : list pair) (o : options R) (now : string)
        (src : random_source) (pos : nat) :
  (forall t n, oneHot R t n = None) ->
  let out := fst (trainModel R st data o now src pos) in
  snd out = st /\
  (fst out = Normal false \/ exists e, fst out = Throw e) /\
  (forall net, initialized R st = true -> model R st = Some net ->
               exists e, fst out = Throw e) /\
  (forall net dm td up userInput botResponse correctResponse,
      initialized R st = true -> model R st = Some net ->
      manager R st = Some dm ->
      fst (Lifecycle.recordFeedback R st td up userInput botResponse
                                    correctResponse now src pos)
      = (false, st,
         snd (Corpus.addFeedback dm td up userInput botResponse
                                 correctResponse Corpus.no_meta now))).
Proof.
  intros Hone. cbv zeta.
  assert (G : forall data' o' pos',
             let out := fst (trainModel R st data' o' now src pos') in
             snd out = st /\
             (fst out = Normal false \/ exists e, fst out = Throw e) /\
             (forall net, initialized R st = true -> model R st = Some net ->
                          exists e, fst out = Throw e)).
  { intros data' o' pos'. cbv zeta.
    train_cases R st;
      try (rewrite Hone in Ho; discriminate Ho);
      (split; [reflexivity|]; split;
       [first [now left | right; eexists; reflexivity]
       | intros n0 H1 H2; first [discriminate H1 | discriminate H2
                                | eexists; reflexivity]]). }
  destruct (G data o pos) as (G1 & G2 & G3).
  split; [exact G1|]. split; [exact G2|]. split; [exact G3|].
  intros net dm td up userInput botResponse correctResponse Hi Hm Hg.
  unfold Lifecycle.recordFeedback. rewrite Hi, Hg. cbn [negb].
  unfold bind.
  destruct (G [mk_pair userInput correctResponse None]
              (Lifecycle.no_options R) pos) as (F1 & _ & F3).
  destruct (F3 net Hi Hm) as [e He]. revert F1 He.
  destruct (trainModel R st [mk_pair userInput correctResponse None]
                       (Lifecycle.no_options R) now src pos)
    as [[c st1] pos1].
  cbn [fst snd]. intros -> ->. reflexivity.
Qed.

Lemma nothing_trained_without_oneHot_witness :
  fst (trainModel Pinned.runtime (Pinned.running 7 100) Toy.one_pair
                  (Lifecycle.no_options Pinned.runtime) "12:00"
                  Toy.source 0)
  = (Throw "Error", Pinned.running 7 100).
Proof.
  destruct (nothing_trained_without_oneHot Pinned.runtime
              (Pinned.running 7 100) Toy.one_pair
              (Lifecycle.no_options Pinned.runtime) "12:00" Toy.source 0
              (fun _ _ => eq_refl)) as (H & _).
  reflexivity.
Defined.

End TrainFacts.

(** ** Export and import *)

Module BundleFacts.
Import JsString Tokenizer Env NeuralLanguageModel.

(** The network installed by [importModel] does not depend on the
    network description in the bundle. *)
Lemma importModel_ignores_network (R : Runtime) (st : nlm R)
      (j1 j2 : NetJSON R) (itk : option Tokenizer.t)
      (ip : option (parameters R)) (im : option (trainingMetrics R)) :
  importModel R st (Some (mk_import R (Some j1) itk ip im)) =
  importModel R st (Some (mk_import R (Some j2) itk ip im)).
Proof. reflexivity. Qed.


End BundleFacts.

Module TokenizerExamples.
Import Tokenizer.

Example split_fields : JsString.split_ws " a  b " = [""; "a"; "b"; ""].
Proof. reflexivity. Qed.

Example fit_hello_size : vocabSize Toy.tk_hello = 33.
Proof. vm_compute. reflexivity. Qed.

Example encode_hello :
  encode Toy.tk_hello "Hello zzz there" 8 =
  [Some 2; Some 30; Some 1; Some 1; Some 1; Some 1; Some 32; Some 3].
Proof. vm_compute. reflexivity. Qed.

Example decode_hello :
  decode Toy.tk_hello (encode Toy.tk_hello "Hello zzz there" 8)
  = "hello ? ? ? ? there".
Proof. vm_compute. reflexivity. Qed.
End TokenizerExamples.

(* ================================================================== *)
(** * Further properties of the code *)
(* ================================================================== *)

(** ** More on maps *)

Module JsMapMore.
Section WithKey.
Context {K V : Type}.
Variable eqb : K -> K -> bool.
Hypothesis eqb_eq : forall a b, eqb a b = true <-> a = b.

Lemma set_keys_mono (m : list (K * V)) (k x : K) (v : V) :
  In x (JsMap.keys m) -> In x (JsMap.keys (JsMap.set eqb m k v)).
Proof.
  intros H.
  destruct (JsMapFacts.set_keys_cases eqb eqb_eq m k v) as [E|[_ E]];
    rewrite E; [assumption | apply in_or_app; now left].
Qed.

Lemma set_keys_self (m : list (K * V)) (k : K) (v : V) :
  In k (JsMap.keys (JsMap.set eqb m k v)).
Proof.
  destruct (JsMap.has eqb m k) eqn:E.
  - apply set_keys_mono. now apply (JsMapFacts.has_true_iff eqb eqb_eq).
  - apply (JsMapFacts.has_false_iff eqb eqb_eq) in E.
    rewrite (JsMapFacts.set_new eqb eqb_eq) by assumption.
    unfold JsMap.keys. rewrite map_app. apply in_or_app. right. now left.
Qed.

Lemma set_keys_inv (m : list (K * V)) (k x : K) (v : V) :
  In x (JsMap.keys (JsMap.set eqb m k v)) -> x = k \/ In x (JsMap.keys m).
Proof.
  destruct (JsMapFacts.set_keys_cases eqb eqb_eq m k v) as [E|[_ E]];
    rewrite E; [now right|].
  intros H. apply in_app_or in H as [H|[H|[]]]; [now right | now left].
Qed.

Lemma get_in_keys (m : list (K * V)) (k : K) (v : V) :
  JsMap.get eqb m k = Some v -> In k (JsMap.keys m).
Proof.
  intros H. apply (JsMapFacts.get_some_in eqb eqb_eq) in H.
  change k with (fst (k, v)). now apply in_map.
Qed.

End WithKey.
End JsMapMore.

(** ** The vocabulary and the corpus *)

Module VocabularyFacts.
Import JsString JsStringFacts JsMapFacts JsMapMore Tokenizer FitFacts.

Lemma count_words_keys (w : string) (words : list string) :
  forall wf,
    In w words \/ In w (JsMap.keys wf) ->
    In w (JsMap.keys (fold_left count_word words wf)).
Proof.
  induction words as [|x words IH]; intros wf H; simpl.
  - destruct H as [[]|H]; assumption.
  - apply IH. unfold count_word. destruct H as [[->|H]|H].
    + right. apply (set_keys_self String.eqb String.eqb_eq).
    + now left.
    + right. now apply (set_keys_mono String.eqb String.eqb_eq).
Qed.

Lemma wordFreq_from_keys (w : string) (texts : list string) :
  forall wf,
    In w (JsMap.keys wf) \/
    (exists text, In text texts /\ In w (split_ws (toLowerCase text))) ->
    In w (JsMap.keys (fold_left count_text texts wf)).
Proof.
  induction texts as [|t texts IH]; intros wf H; simpl.
  - destruct H as [H|[text [[] _]]]. assumption.
  - apply IH. unfold count_text.
    destruct H as [H|[text [[->|Hin] Hw]]].
    + left. apply count_words_keys. now right.
    + left. apply count_words_keys. now left.
    + right. exists text. now split.
Qed.

Lemma wordFreq_keys (texts : list string) (text w : string) :
  In text texts -> In w (split_ws (toLowerCase text)) ->
  In w (JsMap.keys (wordFreq texts)).
Proof.
  intros Ht Hw. apply wordFreq_from_keys. right. exists text. now split.
Qed.

Lemma add_whole_word_keys (b : building) (e : string * nat) :
  In (fst e) (JsMap.keys (b_word2idx (add_whole_word b e))) /\
  (forall k, In k (JsMap.keys (b_word2idx b)) ->
             In k (JsMap.keys (b_word2idx (add_whole_word b e)))).
Proof.
  unfold add_whole_word.
  destruct (shas (b_word2idx b) (fst e)) eqn:E; simpl; split.
  - now apply (has_true_iff String.eqb String.eqb_eq).
  - trivial.
  - apply (set_keys_self String.eqb String.eqb_eq).
  - intros k. apply (set_keys_mono String.eqb String.eqb_eq).
Qed.

Lemma add_whole_words_keys (wf : list (string * nat)) :
  forall b k,
    In k (JsMap.keys wf) \/ In k (JsMap.keys (b_word2idx b)) ->
    In k (JsMap.keys (b_word2idx (fold_left add_whole_word wf b))).
Proof.
  induction wf as [|e wf IH]; intros b k H; simpl.
  - destruct H as [[]|H]; assumption.
  - apply IH. destruct (add_whole_word_keys b e) as [H1 H2].
    destruct H as [[<-|H]|H]; [now right | now left | right; now apply H2].
Qed.

(** Every word of the corpus is a key of the word table. *)
Lemma corpus_word_in_vocab (this : t) (texts : list string) (text w : string) :
  In text texts -> In w (split_ws (toLowerCase text)) ->
  shas (word2idx (fit this texts)) w = true.
Proof.
  intros Ht Hw. apply (has_true_iff String.eqb String.eqb_eq).
  unfold fit, build. cbn [word2idx].
  apply add_whole_words_keys. left. eapply wordFreq_keys; eassumption.
Qed.

(** The id of a key: below [vocabSize], and at least 4 unless the key is
    one of the reserved tokens. *)
Lemma fitted_id_bounds (this : t) (texts : list string) (w : string) (i : nat) :
  sget (word2idx (fit this texts)) w = Some i ->
  i < vocabSize (fit this texts) /\
  (~ In w (JsMap.keys reserved_entries) -> 4 <= i).
Proof.
  intros H.
  destruct (build_consistent this texts) as [[learned Hp] Hk Hi _].
  unfold fit in *. cbn [word2idx vocabSize] in *.
  apply (get_some_in String.eqb String.eqb_eq) in H.
  assert (Hlen : JsMap.size (b_word2idx (build this texts))
                 = b_idx (build this texts)).
  { unfold JsMap.size. rewrite <- (length_map snd), Hi. apply length_seq. }
  split.
  - rewrite Hlen.
    assert (Hin : In i (map snd (b_word2idx (build this texts))))
      by (change i with (snd (w, i)); now apply in_map).
    rewrite Hi in Hin. apply in_seq in Hin. lia.
  - intros Hres. rewrite Hp in H, Hi.
    apply in_app_or in H as [H|H].
    + exfalso. apply Hres. change w with (fst (w, i)). now apply in_map.
    + rewrite map_app in Hi. simpl in Hi.
      assert (Hl : map snd learned = seq 4 (List.length learned)).
      { assert (E : b_idx (build this texts) = 4 + List.length learned).
        { apply (f_equal (@List.length nat)) in Hi. simpl in Hi.
          rewrite length_map, length_seq in Hi. lia. }
        rewrite E in Hi. simpl in Hi. now injection Hi. }
      assert (Hin : In i (map snd learned))
        by (change i with (snd (w, i)); now apply in_map).
      rewrite Hl in Hin. apply in_seq in Hin. lia.
Qed.

Lemma no_upper_not_reserved (w : string) :
  has_upper w = false -> ~ In w (JsMap.keys reserved_entries).
Proof.
  intros Hu [H|[H|[H|[H|[]]]]]; rewrite <- H in Hu; discriminate Hu.
Qed.

(** X1.  After [fit], every lower-cased, white-space separated word of
    every fitted text is a key of the word table, and [encode] spells it
    with its one id, which is at least 4: never UNKNOWN and never a
    reserved id. *)
Theorem fit_covers_corpus (this : t) (texts : list string) (text w : string) :
  In text texts ->
  In w (split_ws (toLowerCase text)) ->
  let tk := fit this texts in
  shas (word2idx tk) w = true /\
  exists i, encode_word tk w = [Some i] /\ 4 <= i < vocabSize tk.
Proof.
  intros Ht Hw. cbv zeta.
  pose proof (corpus_word_in_vocab this texts text w Ht Hw) as Hh.
  split; [exact Hh|].
  unfold encode_word. rewrite Hh.
  unfold JsMap.has in Hh.
  destruct (sget (word2idx (fit this texts)) w) as [i|] eqn:E;
    [|discriminate].
  exists i. split; [reflexivity|].
  destruct (fitted_id_bounds this texts w i E) as [Hlt Hge].
  split; [|exact Hlt]. apply Hge, no_upper_not_reserved.
  pose proof (words_no_upper text) as Hall.
  rewrite Forall_forall in Hall. now apply Hall.
Qed.

Lemma fit_covers_corpus_witness :
  shas (word2idx (fit unfit ["Hello  World"; "hello there"])) "world" = true.
Proof.
  refine (proj1 (fit_covers_corpus unfit ["Hello  World"; "hello there"]
                   "Hello  World" "world" _ _)).
  - simpl. now left.
  - vm_compute. right. now left.
Defined.

End VocabularyFacts.

(** ** The layout of the tables and of an encoding *)

Module LayoutFacts.
Import JsString JsStringFacts JsMapFacts JsMapMore Tokenizer FitFacts
       VocabularyFacts.

Lemma substring_length_exact (s : string) :
  forall i n, i + n <= String.length s ->
              String.length (substring i n s) = n.
Proof.
  induction s as [|c s IH]; intros [|i] [|n] H; simpl in *; try lia.
  - f_equal. apply (IH 0 n). lia.
  - apply (IH i 0). lia.
  - apply (IH i (S n)). lia.
Qed.

Lemma NoDup_app_disjoint {A : Type} (l1 l2 : list A) :
  NoDup (l1 ++ l2) -> forall x, In x l1 -> In x l2 -> False.
Proof.
  induction l1 as [|a l1 IH]; intros H x H1 H2; [contradiction|].
  inversion H as [|? ? Hn Hnd]; subst. destruct H1 as [->|H1].
  - apply Hn. apply in_or_app. now right.
  - now apply (IH Hnd x).
Qed.

Lemma ngram_keys_set (m : list (string * nat)) (k : string) (v : nat) :
  Forall (fun x => 2 <= String.length x <= 4) (JsMap.keys m) ->
  2 <= String.length k <= 4 ->
  Forall (fun x => 2 <= String.length x <= 4) (JsMap.keys (sset m k v)).
Proof.
  intros Hm Hk. apply Forall_forall. intros x Hx.
  apply (set_keys_inv String.eqb String.eqb_eq) in Hx as [->|Hx];
    [assumption|].
  rewrite Forall_forall in Hm. now apply Hm.
Qed.

Lemma add_ngrams_n_keys (word : string) (freq n : nat) :
  2 <= n <= 4 ->
  forall m,
    Forall (fun x => 2 <= String.length x <= 4) (JsMap.keys m) ->
    Forall (fun x => 2 <= String.length x <= 4)
           (JsMap.keys (add_ngrams_n word freq m n)).
Proof.
  intros Hn m Hm. unfold add_ngrams_n.
  destruct (String.length word <? n) eqn:E; [assumption|].
  apply Nat.ltb_ge in E.
  assert (Hall : Forall (fun i => i + n <= String.length word)
                        (seq 0 (String.length word - n + 1))).
  { apply Forall_forall. intros i Hi. apply in_seq in Hi. lia. }
  revert m Hm.
  induction Hall as [|i rest Hi _ IH]; intros m Hm; simpl; [assumption|].
  apply IH. unfold add_ngram. apply ngram_keys_set; [assumption|].
  rewrite substring_length_exact by assumption. exact Hn.
Qed.

Lemma subwordCandidates_keys (wf : list (string * nat)) :
  Forall (fun x => 2 <= String.length x <= 4)
         (JsMap.keys (subwordCandidates wf)).
Proof.
  unfold subwordCandidates.
  assert (H : Forall (fun x => 2 <= String.length x <= 4)
                     (JsMap.keys (@nil (string * nat)))) by constructor.
  revert H. generalize (@nil (string * nat)).
  induction wf as [|[word freq] wf IH]; intros m Hm; simpl; [assumption|].
  apply IH. destruct (String.length word <=? 1); [assumption|]. simpl.
  repeat (apply add_ngrams_n_keys; [lia|]). assumption.
Qed.

Lemma sortedSubwords_keys (wf : list (string * nat)) :
  Forall (fun x => 2 <= String.length x <= 4)
         (JsMap.keys (sortedSubwords wf)) /\
  List.length (sortedSubwords wf) <= 5000.
Proof.
  split.
  - pose proof (subwordCandidates_keys wf) as H.
    rewrite Forall_forall in *. intros k Hk. apply H.
    unfold sortedSubwords, JsMap.keys in *. rewrite <- firstn_map in Hk.
    apply In_firstn in Hk.
    eapply Permutation_in; [|exact Hk].
    apply Permutation_map, sort_desc_perm.
  - unfold sortedSubwords. apply firstn_le_length.
Qed.

(** While the sub-words are entered, the word table is the reserved
    entries followed by the sub-word table. *)
Lemma add_subwords_layout (l : list (string * nat)) :
  forall b,
    NoDup (map fst l) ->
    (forall e, In e l -> ~ In (fst e) (JsMap.keys (b_word2idx b))) ->
    b_word2idx b = reserved_entries ++ b_subwords b ->
    let b' := fold_left add_subword l b in
    b_word2idx b' = reserved_entries ++ b_subwords b' /\
    JsMap.keys (b_subwords b') = JsMap.keys (b_subwords b) ++ map fst l.
Proof.
  induction l as [|e l IH]; intros b Hnd Hfresh Hlay; simpl.
  - split; [assumption | now rewrite app_nil_r].
  - inversion Hnd as [|? ? Hne Hnd']; subst.
    assert (He : ~ In (fst e) (JsMap.keys (b_word2idx b)))
      by (apply Hfresh; now left).
    assert (Hs : ~ In (fst e) (JsMap.keys (b_subwords b))).
    { intros Hin. apply He. rewrite Hlay. unfold JsMap.keys in *.
      rewrite map_app. apply in_or_app. now right. }
    assert (E1 : b_word2idx (add_subword b e)
                 = b_word2idx b ++ [(fst e, b_idx b)])
      by (apply (set_new String.eqb String.eqb_eq); assumption).
    assert (E2 : b_subwords (add_subword b e)
                 = b_subwords b ++ [(fst e, b_idx b)])
      by (apply (set_new String.eqb String.eqb_eq); assumption).
    destruct (IH (add_subword b e) Hnd') as [L1 L2].
    + intros e' He' Hin. rewrite E1 in Hin.
      unfold JsMap.keys in Hin. rewrite map_app in Hin.
      apply in_app_or in Hin as [Hin|[Hin|[]]].
      * apply (Hfresh e'); [now right | exact Hin].
      * simpl in Hin. apply Hne. rewrite Hin. now apply in_map.
    + rewrite E1, E2, Hlay. now rewrite app_assoc.
    + split; [exact L1|]. rewrite L2, E2. unfold JsMap.keys.
      rewrite map_app. simpl. now rewrite <- app_assoc.
Qed.

Lemma add_whole_word_step (b : building) (e : string * nat) :
  b_subwords (add_whole_word b e) = b_subwords b /\
  (b_word2idx (add_whole_word b e) = b_word2idx b \/
   b_word2idx (add_whole_word b e) = b_word2idx b ++ [(fst e, b_idx b)]).
Proof.
  unfold add_whole_word.
  destruct (shas (b_word2idx b) (fst e)) eqn:E.
  - split; [reflexivity | now left].
  - apply (has_false_iff String.eqb String.eqb_eq) in E.
    cbn [b_subwords b_word2idx]. split; [reflexivity|]. right.
    now apply (set_new String.eqb String.eqb_eq).
Qed.

Lemma add_whole_words_layout (wf : list (string * nat)) :
  forall b,
    let b' := fold_left add_whole_word wf b in
    b_subwords b' = b_subwords b /\
    exists whole,
      b_word2idx b' = b_word2idx b ++ whole /\
      (forall k, In k (JsMap.keys whole) -> In k (JsMap.keys wf)).
Proof.
  induction wf as [|e wf IH]; intros b; cbn [fold_left]; cbv zeta.
  - split; [reflexivity|]. exists []. split; [now rewrite app_nil_r|].
    intros k [].
  - destruct (IH (add_whole_word b e)) as [Hs [whole [Hw Hk]]].
    destruct (add_whole_word_step b e) as [Es [Ew|Ew]].
    + split; [now rewrite Hs|]. exists whole. split; [now rewrite Hw, Ew|].
      intros k Hin. right. now apply Hk.
    + split; [now rewrite Hs|].
      exists ((fst e, b_idx b) :: whole). split.
      * rewrite Hw, Ew. now rewrite <- app_assoc.
      * intros k [<-|Hin]; [now left | right; now apply Hk].
Qed.

Lemma build_layout (this : t) (texts : list string) :
  let b := build this texts in
  exists whole,
    b_word2idx b = reserved_entries ++ b_subwords b ++ whole /\
    JsMap.keys (b_subwords b) = map fst (sortedSubwords (wordFreq texts)) /\
    (forall k, In k (JsMap.keys whole) ->
               In k (JsMap.keys (wordFreq texts))).
Proof.
  unfold build.
  destruct (sortedSubwords_short (wordFreq texts)) as [Hnd Hs].
  destruct (add_subwords_layout (sortedSubwords (wordFreq texts))
              (reserved this) Hnd) as [L1 L2].
  { intros e He. rewrite Forall_forall in Hs.
    assert (Hl : String.length (fst e) <= 4)
      by (apply Hs; unfold JsMap.keys; now apply in_map).
    simpl. intros [H|[H|[H|[H|[]]]]]; rewrite <- H in Hl; simpl in Hl; lia. }
  { reflexivity. }
  destruct (add_whole_words_layout (wordFreq texts)
              (fold_left add_subword (sortedSubwords (wordFreq texts))
                         (reserved this))) as [Hsub [whole [Hw Hk]]].
  exists whole. cbv zeta. rewrite Hsub, Hw, L1. split.
  - now rewrite <- app_assoc.
  - split; [exact L2 | exact Hk].
Qed.

(** X2.  After [fit] the word table is, in this order, the four reserved
    entries, the sub-word table, and the whole words.  The sub-word table
    has at most 5000 entries, each of two to four characters; each whole
    word is a word of the corpus that is not a sub-word entry. *)
Theorem fit_table_layout (this : t) (texts : list string) :
  let tk := fit this texts in
  exists whole,
    word2idx tk = reserved_entries ++ subwords tk ++ whole /\
    List.length (subwords tk) <= 5000 /\
    Forall (fun k => 2 <= String.length k <= 4) (JsMap.keys (subwords tk)) /\
    (forall k, In k (JsMap.keys whole) ->
               In k (JsMap.keys (wordFreq texts)) /\
               ~ In k (JsMap.keys (subwords tk))).
Proof.
  cbv zeta. unfold fit. cbn [word2idx subwords].
  destruct (build_layout this texts) as [whole [Hlay [Hkeys Hwhole]]].
  destruct (sortedSubwords_keys (wordFreq texts)) as [Hlen H5000].
  destruct (build_consistent this texts) as [_ Hnd _ _].
  exists whole. split; [exact Hlay|]. split; [|split].
  - rewrite <- (length_map fst). unfold JsMap.keys in Hkeys.
    rewrite Hkeys, length_map. exact H5000.
  - rewrite Hkeys. exact Hlen.
  - intros k Hk. split; [now apply Hwhole|].
    intros Hin. rewrite Hlay in Hnd. unfold JsMap.keys in Hnd.
    rewrite !map_app in Hnd.
    apply NoDup_app_remove_l in Hnd.
    exact (NoDup_app_disjoint _ _ Hnd k Hin Hk).
Qed.

(** The id stored with a sub-word is a learned id. *)
Lemma subword_id_bounds (this : t) (texts : list string) (s : string) (j : nat) :
  sget (subwords (fit this texts)) s = Some j ->
  4 <= j < vocabSize (fit this texts).
Proof.
  intros H.
  destruct (build_layout this texts) as [whole [Hlay [Hkeys _]]].
  destruct (build_consistent this texts) as [_ Hnd _ _].
  destruct (sortedSubwords_keys (wordFreq texts)) as [Hlen _].
  unfold fit in H. cbn [subwords] in H.
  pose proof (get_in_keys String.eqb String.eqb_eq _ _ _ H) as Hk.
  apply (get_some_in String.eqb String.eqb_eq) in H.
  assert (Hg : sget (word2idx (fit this texts)) s = Some j).
  { unfold fit. cbn [word2idx].
    apply (in_get_some String.eqb String.eqb_eq); [exact Hnd|].
    rewrite Hlay. apply in_or_app. right. apply in_or_app. now left. }
  destruct (fitted_id_bounds this texts s j Hg) as [Hlt Hge].
  split; [|exact Hlt]. apply Hge.
  rewrite Hkeys in Hk. rewrite Forall_forall in Hlen.
  fold (JsMap.keys (sortedSubwords (wordFreq texts))) in Hk.
  specialize (Hlen s Hk).
  simpl. intros [E|[E|[E|[E|[]]]]]; rewrite <- E in Hlen; simpl in Hlen; lia.
Qed.

Section Fitted.
Variables (this : t) (texts : list string).
Let tk := fit this texts.

Let ok (i : nat) : Prop := i = 1 \/ (4 <= i /\ i < vocabSize tk).

Lemma match_longest_ok (word : string) (i : nat) :
  forall len l id,
    match_longest tk word i len = Some (l, id) ->
    exists j, id = Some j /\ ok j.
Proof.
  induction len as [|len IH]; intros l id H; [discriminate|].
  destruct len as [|len']; [discriminate|].
  cbn [match_longest] in H.
  destruct (shas (subwords tk) (substring i (S (S len')) word)) eqn:E.
  - assert (Hid : id = sget (subwords tk) (substring i (S (S len')) word))
      by congruence.
    subst id. unfold JsMap.has in E.
    destruct (sget (subwords tk) _) as [j|] eqn:G; [|discriminate].
    exists j. split; [reflexivity|]. right.
    apply (subword_id_bounds this texts _ _ G).
  - now apply IH in H.
Qed.

Lemma subword_loop_ok (word : string) :
  forall n i, exists ids,
      fst (subword_loop n tk word i) = map Some ids /\ Forall ok ids.
Proof.
  destruct (CodecFacts.fitted_reserved this texts) as (_ & Hu & _ & _).
  fold tk in Hu.
  induction n as [|n IH]; intros i; simpl.
  - exists []. split; [reflexivity | constructor].
  - destruct (i <? String.length word); [|exists []; split; [reflexivity | constructor]].
    destruct (match_longest tk word i _) as [[len id]|] eqn:M.
    + destruct (match_longest_ok _ _ _ _ _ M) as [j [-> Hj]].
      destruct (IH (i + len)) as [ids [E Hids]].
      destruct (subword_loop n tk word (i + len)) as [rest enc].
      simpl in *. exists (j :: ids). rewrite E. split; [reflexivity|].
      now constructor.
    + destruct (IH (i + 1)) as [ids [E Hids]].
      destruct (subword_loop n tk word (i + 1)) as [rest enc].
      simpl in *. exists (1 :: ids). rewrite E, Hu. split; [reflexivity|].
      constructor; [now left | assumption].
Qed.

Lemma encode_word_ok (word : string) :
  has_upper word = false ->
  exists ids, encode_word tk word = map Some ids /\ Forall ok ids /\ ids <> [].
Proof.
  intros Hup.
  destruct (CodecFacts.fitted_reserved this texts) as (_ & Hu & _ & _).
  fold tk in Hu. unfold encode_word.
  destruct (shas (word2idx tk) word) eqn:E.
  - unfold JsMap.has in E.
    destruct (sget (word2idx tk) word) as [i|] eqn:G; [|discriminate].
    destruct (fitted_id_bounds this texts word i G) as [Hlt Hge].
    exists [i]. split; [reflexivity|]. split; [|discriminate].
    constructor; [|constructor]. right. split; [|exact Hlt].
    now apply Hge, no_upper_not_reserved.
  - destruct (subword_loop_ok word (String.length word) 0) as [ids [Ei Hids]].
    pose proof (CodecFacts.subword_loop_encoded tk word
                  (String.length word) 0) as Hne.
    destruct (subword_loop (String.length word) tk word 0) as [pushed enc].
    simpl in Ei. subst pushed. destruct enc.
    + exists ids. split; [reflexivity|]. split; [assumption|].
      specialize (Hne _ eq_refl). rewrite length_map in Hne.
      intros ->. simpl in Hne. lia.
    + exists (ids ++ [1]). rewrite Hu, map_app. split; [reflexivity|].
      split.
      * apply Forall_app. split; [assumption|].
        constructor; [now left | constructor].
      * intros H. apply app_eq_nil in H as [_ H]. discriminate.
Qed.

Lemma encode_words_ok (maxLength : Z) (words : list string) :
  Forall (fun w => has_upper w = false) words ->
  forall res, exists more,
      encode_words tk maxLength words (map Some res) = map Some (res ++ more) /\
      Forall ok more /\
      (words <> [] -> more <> []).
Proof.
  induction 1 as [|w ws Hw Hws IH]; intros res.
  - exists []. simpl. rewrite app_nil_r. repeat split; [constructor | tauto].
  - destruct (encode_word_ok w Hw) as [ids [E [Hids Hne]]].
    cbn [encode_words]. rewrite E, <- map_app.
    destruct (_ >=? _)%Z.
    + exists ids. repeat split; assumption || (intros _; assumption).
    + destruct (IH (res ++ ids)) as [more [Em [Hm _]]].
      exists (ids ++ more). rewrite Em, <- app_assoc.
      split; [reflexivity|]. split.
      * apply Forall_app. now split.
      * intros _ H. apply app_eq_nil in H as [H _]. now apply Hne.
Qed.

(** X3.  On a fitted tokenizer every encoding is START (2), then a
    non-empty body, then END (3), then only PAD (0).  Every body id is
    UNKNOWN (1) or a learned id from 4 up to [vocabSize - 1]: all ids are
    defined and valid classes for the one-hot targets, and the body
    contains no reserved id that [decode] would skip or stop at. *)
Theorem encode_layout (text : string) (maxLength : Z) :
  exists body k,
    encode tk text maxLength
    = Some 2 :: map Some body ++ Some 3 :: repeat (Some 0) k /\
    body <> [] /\
    Forall (fun i => i = 1 \/ (4 <= i /\ i < vocabSize tk)) body.
Proof.
  destruct (CodecFacts.fitted_reserved this texts) as (Hp & _ & Hs & He).
  fold tk in Hp, Hs, He.
  destruct (encode_words_ok maxLength (split_ws (toLowerCase text))
              (words_no_upper text) [2]) as [body [E [Hok Hne]]].
  unfold encode. rewrite Hs, He, Hp.
  change [Some 2] with (map Some [2]). rewrite E.
  exists body. eexists. split.
  - cbn [app map]. rewrite <- app_assoc. reflexivity.
  - split; [|exact Hok]. apply Hne. apply split_from_nonempty.
Qed.

(** X4.  A text of the fitted corpus is encoded to exactly [maxLength]
    ids, for every [maxLength >= 3]. *)
Theorem encode_corpus_text_length (text : string) (maxLength : Z) :
  In text texts ->
  (3 <= maxLength)%Z ->
  Z.of_nat (List.length (encode tk text maxLength)) = maxLength.
Proof.
  intros Ht Hm. apply EncodeLength.encode_length_in_vocab; [|exact Hm].
  apply Forall_forall. intros w Hw.
  now apply (corpus_word_in_vocab this texts text w).
Qed.

(** What [decode] reads after an END. *)
Lemma decode_loop_after_END (sequence rest : list tok) :
  forall result cur,
    decode_loop tk (sequence ++ Some 3 :: rest) result cur =
    decode_loop tk sequence result cur.
Proof.
  destruct (CodecFacts.fitted_reserved this texts) as (Hp & _ & Hs & He).
  fold tk in Hp, Hs, He.
  induction sequence as [|idx sequence IH]; intros result cur.
  - cbn [app decode_loop]. rewrite Hp, Hs, He. reflexivity.
  - cbn [app decode_loop].
    destruct (_ || _); [apply IH|].
    destruct (tok_eqb idx _); [reflexivity|].
    destruct (idx2word_get tk idx) as [token|]; [|apply IH].
    destruct (shas (subwords tk) token); [apply IH|].
    destruct (String.eqb token UNK); apply IH.
Qed.

Lemma decode_loop_padding (k : nat) (sequence : list tok) :
  forall result cur,
    decode_loop tk (sequence ++ repeat (Some 0) k) result cur =
    decode_loop tk sequence result cur.
Proof.
  destruct (CodecFacts.fitted_reserved this texts) as (Hp & _ & Hs & He).
  fold tk in Hp, Hs, He.
  induction sequence as [|idx sequence IH]; intros result cur.
  - cbn [app]. induction k as [|k IHk]; [reflexivity|].
    cbn [repeat decode_loop]. rewrite Hp. cbn [tok_eqb Nat.eqb orb].
    exact IHk.
  - cbn [app decode_loop].
    destruct (_ || _); [apply IH|].
    destruct (tok_eqb idx _); [reflexivity|].
    destruct (idx2word_get tk idx) as [token|]; [|apply IH].
    destruct (shas (subwords tk) token); [apply IH|].
    destruct (String.eqb token UNK); apply IH.
Qed.

(** X5.  On a fitted tokenizer [decode] reads a sequence up to its first
    END: whatever follows an END does not change the text, and neither
    does trailing padding. *)
Theorem decode_stops_at_END (sequence rest : list tok) (k : nat) :
  decode tk (sequence ++ Some 3 :: rest) = decode tk sequence /\
  decode tk (sequence ++ repeat (Some 0) k) = decode tk sequence.
Proof.
  unfold decode. now rewrite decode_loop_after_END, decode_loop_padding.
Qed.

End Fitted.

Lemma encode_corpus_text_length_witness :
  Z.of_nat (List.length (encode (fit unfit ["hello world"; "hello there"])
                                "hello there" 5)) = 5%Z.
Proof.
  apply (encode_corpus_text_length unfit ["hello world"; "hello there"]
           "hello there" 5).
  - simpl. right. now left.
  - lia.
Defined.

End LayoutFacts.

(** ** More on curriculum selection and [trainModel] *)

Module TrainingMore.
Import JsString Tokenizer Env NeuralLanguageModel CurriculumFacts.

(** A filter keeps the elements a mask selects, in their order. *)
Lemma filter_m_mask {A : Type} (pred : A -> rand_m bool) (l : list A)
      (src : random_source) :
  forall pos, exists mask,
      List.length mask = List.length l /\
      fst (filter_m pred l src pos) = map fst (filter snd (combine l mask)).
Proof.
  induction l as [|x l IH]; intros pos.
  - exists []. split; reflexivity.
  - cbn [filter_m]. unfold bind at 1.
    destruct (pred x src pos) as [keep pos1].
    unfold bind at 1. destruct (IH pos1) as [mask [Hlen E]].
    destruct (filter_m pred l src pos1) as [kept pos2].
    cbn [fst] in *. unfold ret. cbn [fst].
    exists (keep :: mask). split; [simpl; now rewrite Hlen|].
    cbn [combine filter snd]. destruct keep; cbn [map fst]; now rewrite E.
Qed.

Lemma mask_length_le {A : Type} (l : list A) :
  forall mask, List.length (map fst (filter snd (combine l mask)))
               <= List.length l.
Proof.
  induction l as [|x l IH]; intros [|k mask]; simpl; try lia.
  destruct k; simpl; specialize (IH mask); lia.
Qed.

(** X6.  The examples [trainModel] trains on are either all the examples
    it was given, or at least ten of them, kept in their order.  So the
    selection is never longer than the input and is empty only for empty
    input. *)
Theorem select_curriculum_shape (R : Runtime) (m : trainingMetrics R)
        (data : list pair) (src : random_source) (pos : nat) :
  let chosen := fst (select_curriculum R m data src pos) in
  (chosen = data \/
   (10 <= List.length chosen /\
    exists mask, List.length mask = List.length data /\
                 chosen = map fst (filter snd (combine data mask)))) /\
  List.length chosen <= List.length data /\
  (data <> [] -> chosen <> []).
Proof.
  cbv zeta. unfold select_curriculum.
  destruct (hasDifficultyMetadata data).
  - unfold bind.
    destruct (filter_m_mask (curriculum_keeps (currentLevelValue R m))
                            data src pos) as [mask [Hlen E]].
    destruct (filter_m (curriculum_keeps (currentLevelValue R m)) data src pos)
      as [kept pos'].
    cbn [fst] in E. subst kept.
    destruct (_ <? 10) eqn:E10; unfold ret; cbn [fst].
    + split; [now left|]. split; [lia | tauto].
    + apply Nat.ltb_ge in E10. split; [|split].
      * right. split; [exact E10|]. exists mask. now split.
      * apply mask_length_le.
      * intros _ H. rewrite H in E10. simpl in E10. lia.
  - unfold ret. cbn [fst]. split; [now left|]. split; [lia | tauto].
Qed.

(** What the filter answers for one example: a draw is made only when
    one of the two equalities holds, and they exclude each other. *)
Lemma curriculum_keeps_fst (level : ordinal) (pr : pair)
      (src : random_source) (pos : nat) :
  fst (curriculum_keeps level pr src pos) =
  ord_le (difficultyValue pr) level
  || (ord_is_plus (difficultyValue pr) level 1 && draw_lt (src pos) (1 # 2))
  || (ord_is_plus (difficultyValue pr) level 2 && draw_lt (src pos) (1 # 5)).
Proof.
  unfold curriculum_keeps, or_else, and_then, bind, ret, random.
  destruct (ord_le (difficultyValue pr) level); [reflexivity|].
  destruct (difficultyValue pr) as [n|s], level as [l|t];
    cbn [ord_is_plus orb andb fst]; try reflexivity.
  destruct (n =? l + 1) eqn:E1.
  - apply Nat.eqb_eq in E1.
    rewrite (proj2 (Nat.eqb_neq n (l + 2))) by lia.
    cbn [andb orb]. destruct (draw_lt (src pos) (1 # 2)); reflexivity.
  - destruct (n =? l + 2); reflexivity.
Qed.

Lemma filter_m_keeps_easy (level : ordinal) (src : random_source)
      (data : list pair) (pr : pair) :
  In pr data -> ord_le (difficultyValue pr) level = true ->
  forall pos, In pr (fst (filter_m (curriculum_keeps level) data src pos)).
Proof.
  intros Hin Hd. induction data as [|x data IH]; intros pos; [contradiction|].
  cbn [filter_m]. unfold bind at 1.
  pose proof (curriculum_keeps_fst level x src pos) as Hx.
  destruct (curriculum_keeps level x src pos) as [keep pos1].
  cbn [fst] in Hx. unfold bind at 1.
  destruct Hin as [->|Hin].
  - rewrite Hd in Hx. cbn [orb] in Hx. subst keep.
    destruct (filter_m (curriculum_keeps level) data src pos1).
    unfold ret. cbn [fst]. now left.
  - specialize (IH Hin pos1).
    destruct (filter_m (curriculum_keeps level) data src pos1).
    unfold ret. cbn [fst] in *. destruct keep; [now right | assumption].
Qed.

Lemma filter_m_drops_hard (level : ordinal) (src : random_source)
      (data : list pair) (pr : pair) :
  forall pos,
    In pr (fst (filter_m (curriculum_keeps level) data src pos)) ->
    ord_le (difficultyValue pr) level
    || ord_is_plus (difficultyValue pr) level 1
    || ord_is_plus (difficultyValue pr) level 2 = true.
Proof.
  induction data as [|x data IH]; intros pos H; [contradiction|].
  cbn [filter_m] in H. unfold bind at 1 in H.
  pose proof (curriculum_keeps_fst level x src pos) as Hx.
  destruct (curriculum_keeps level x src pos) as [keep pos1].
  cbn [fst] in Hx. unfold bind at 1 in H. specialize (IH pos1).
  destruct (filter_m (curriculum_keeps level) data src pos1) as [kept pos2].
  unfold ret in H. cbn [fst] in *.
  destruct keep; [|now apply IH].
  destruct H as [<-|H]; [|now apply IH].
  destruct (ord_le (difficultyValue x) level); [reflexivity|].
  destruct (ord_is_plus (difficultyValue x) level 1); [reflexivity|].
  destruct (ord_is_plus (difficultyValue x) level 2); [reflexivity|].
  discriminate Hx.
Qed.

(** X7.  Whatever the random draws, at a curriculum level [l] of the
    five level names: an example whose tag has an ordinal of at most [l]
    is always among the examples trained on; an example more than two
    levels above is trained on only when the selection fell back to the
    full set; and so is an example whose tag names an inherited member
    of the table, such as "constructor". *)
Theorem curriculum_sure_cases (R : Runtime) (m : trainingMetrics R)
        (data : list pair) (src : random_source) (pos : nat) (pr : pair)
        (l : nat) :
  let chosen := fst (select_curriculum R m data src pos) in
  (nth_error levels l = Some (progressLevel R m) ->
   plain_tag pr = true -> rule_ordinal pr <= l ->
   In pr data -> In pr chosen) /\
  (nth_error levels l = Some (progressLevel R m) ->
   plain_tag pr = true -> l + 2 < rule_ordinal pr ->
   In pr chosen -> chosen = data) /\
  (nth_error levels l = Some (progressLevel R m) ->
   plain_tag pr = false ->
   In pr chosen -> chosen = data).
Proof.
  cbv zeta. unfold select_curriculum.
  destruct (hasDifficultyMetadata data); [|unfold ret; cbn [fst]; tauto].
  unfold bind.
  pose proof (filter_m_keeps_easy (currentLevelValue R m) src data pr) as Hk.
  pose proof (filter_m_drops_hard (currentLevelValue R m) src data pr pos)
    as Hd.
  destruct (filter_m (curriculum_keeps (currentLevelValue R m)) data src pos)
    as [kept pos'] eqn:F.
  cbn [fst] in Hd.
  destruct (_ <? 10); unfold ret; cbn [fst]; [tauto|].
  split; [|split].
  - intros HL Hp Hle Hin.
    assert (He : ord_le (difficultyValue pr) (currentLevelValue R m) = true).
    { rewrite (currentLevelValue_of_name R m l HL),
        (difficultyValue_plain pr Hp).
      now apply Nat.leb_le. }
    specialize (Hk Hin He pos). now rewrite F in Hk.
  - intros HL Hp Hgt Hin. apply Hd in Hin.
    rewrite (currentLevelValue_of_name R m l HL),
      (difficultyValue_plain pr Hp) in Hin.
    cbn [ord_le ord_is_plus] in Hin.
    rewrite (proj2 (Nat.leb_gt _ _)) in Hin by lia.
    rewrite (proj2 (Nat.eqb_neq _ (l + 1))) in Hin by lia.
    rewrite (proj2 (Nat.eqb_neq _ (l + 2))) in Hin by lia.
    discriminate Hin.
  - intros HL Hp Hin. apply Hd in Hin.
    rewrite (currentLevelValue_of_name R m l HL) in Hin.
    assert (Hm : exists text, difficultyValue pr = Member text).
    { unfold plain_tag in Hp. unfold difficultyValue.
      destruct (meta pr) as [[[d|]]|]; try discriminate Hp.
      apply negb_false_iff in Hp. unfold JsObject.is_inherited in Hp.
      destruct d as [|c d]; [discriminate Hp|].
      cbn [difficulty or_beginner nonempty].
      set (name := String c d) in *.
      destruct (JsObject.inherited name) as [text|] eqn:E;
        [|discriminate Hp].
      exists text. unfold difficultyOrder.
      destruct (String.eqb name "beginner") eqn:E0;
        [apply String.eqb_eq in E0; rewrite E0 in E; discriminate E|].
      destruct (String.eqb name "elementary") eqn:E1;
        [apply String.eqb_eq in E1; rewrite E1 in E; discriminate E|].
      destruct (String.eqb name "intermediate") eqn:E2;
        [apply String.eqb_eq in E2; rewrite E2 in E; discriminate E|].
      destruct (String.eqb name "advanced") eqn:E3;
        [apply String.eqb_eq in E3; rewrite E3 in E; discriminate E|].
      destruct (String.eqb name "expert") eqn:E4;
        [apply String.eqb_eq in E4; rewrite E4 in E; discriminate E|].
      rewrite E. reflexivity. }
    destruct Hm as [text Hm]. rewrite Hm in Hin. discriminate Hin.
Qed.

(** *** What [trainModel] leaves alone *)

Ltac break_match :=
  repeat match goal with
         | |- context [match ?x with _ => _ end] => destruct x
         end.

Lemma saveModel_frame (R : Runtime) (st : nlm R) :
  let st' := snd (saveModel R st) in
  initialized R st' = initialized R st /\ model R st' = model R st /\
  tokenizer R st' = tokenizer R st /\ params R st' = params R st /\
  context R st' = context R st /\ metrics R st' = metrics R st.
Proof.
  destruct st as [[|] [net|] [tk|] [dm|] p c me]; cbn;
    try (unfold saveTokenizerData; destruct (dm_initialized dm)); cbn;
    repeat split.
Qed.

Lemma train_on_frame (R : Runtime) (st : nlm R) (net : Net R)
      (o : options R) (data : list pair) (now : string) :
  let st' := snd (train_on R st net o data now) in
  initialized R st' = initialized R st /\
  tokenizer R st' = tokenizer R st /\ params R st' = params R st /\
  context R st' = context R st.
Proof.
  destruct st as [i m [tk|] g p c me]; cbv zeta; unfold train_on;
    cbn [tokenizer initialized params context metrics model manager p_sizes];
    [|cbn; repeat split].
  repeat match goal with
         | |- context [match ?x with _ => _ end] => destruct x
         end;
    try (cbn; repeat split; fail).
  match goal with
  | |- context [saveModel R ?s] =>
      destruct (saveModel_frame R s) as (H1 & _ & H3 & H4 & H5 & _)
  end.
  cbn [snd]. rewrite H1, H3, H4, H5. cbn. repeat split.
Qed.

(** X8.  Whatever its outcome, [trainModel] changes neither the
    tokenizer, nor the parameters, nor the conversation context, nor the
    [initialized] flag; and without a network it changes nothing and
    makes no random draw. *)
Theorem trainModel_frame (R : Runtime) (st : nlm R) (data : list pair)
        (o : options R) (now : string) (src : random_source) (pos : nat) :
  let out := trainModel R st data o now src pos in
  let st' := snd (fst out) in
  initialized R st' = initialized R st /\
  tokenizer R st' = tokenizer R st /\
  params R st' = params R st /\
  context R st' = context R st /\
  (model R st = None -> out = ((Normal false, st), pos)).
Proof.
  cbv zeta. unfold trainModel.
  destruct (initialized R st) eqn:Ei; [|unfold ret; cbn; rewrite Ei; tauto].
  destruct (model R st) as [net|] eqn:Em;
    [|unfold ret; cbn; rewrite Ei; tauto].
  unfold bind, ret.
  destruct (select_curriculum R (metrics R st) data src pos) as [cd pos'].
  cbn [fst snd].
  destruct (train_on_frame R st net o cd now) as (H1 & H2 & H3 & H4).
  rewrite H1, H2, H3, H4, Ei. repeat split. discriminate.
Qed.

Lemma trainModel_success_aux (R : Runtime) (st : nlm R)
        (data : list pair) (o : options R) (now : string)
        (src : random_source) (pos : nat) :
  let out := fst (trainModel R st data o now src pos) in
  fst out = Normal true ->
  let before := metrics R st in
  let after := metrics R (snd out) in
  totalTrainingSessions R after = S (totalTrainingSessions R before) /\
  totalExamples R after =
    totalExamples R before
    + List.length (fst (select_curriculum R before data src pos)) /\
  lastTrainingTime R after = Some now /\
  model R (snd out) <> None.
Proof.
  cbv zeta. unfold trainModel.
  destruct (initialized R st); [|discriminate].
  destruct (model R st) as [net|]; [|discriminate].
  unfold bind, ret.
  destruct (select_curriculum R (metrics R st) data src pos) as [cd pos'].
  cbn [fst snd]. unfold train_on.
  destruct (tokenizer R st) as [tk|]; [|discriminate].
  destruct (tensor2d R _); [|discriminate].
  destruct (tensor2d R _); [|discriminate].
  destruct (tensor2d R _); [|discriminate].
  destruct (oneHot R _ _); [|discriminate].
  destruct (net_fit R _ _ _ _ _ _ _) as [net' [[[accs|] [losses|]]|]];
    cbn [fst snd]; try discriminate.
  intros _.
  destruct (saveModel_frame R
              (with_model_metrics R st net'
                 (updated_metrics R (metrics R st) (List.length cd) now
                                  accs losses)))
    as (_ & H2 & _ & _ & _ & H6).
  rewrite H6, H2. cbn. repeat split. discriminate.
Qed.

(** X9.  When [trainModel] returns [true], exactly one session was
    counted, the example counter went up by the number of examples
    selected by the curriculum, and the time of the run was recorded. *)
Theorem trainModel_success_counts (R : Runtime) (st : nlm R)
        (data : list pair) (o : options R) (now : string)
        (src : random_source) (pos : nat) :
  let out := fst (trainModel R st data o now src pos) in
  fst out = Normal true ->
  let before := metrics R st in
  let after := metrics R (snd out) in
  totalTrainingSessions R after = S (totalTrainingSessions R before) /\
  totalExamples R after =
    totalExamples R before
    + List.length (fst (select_curriculum R before data src pos)) /\
  lastTrainingTime R after = Some now /\
  model R (snd out) <> None.
Proof. apply trainModel_success_aux. Qed.

Lemma trainModel_success_counts_witness :
  totalExamples Toy.runtime
    (metrics Toy.runtime
       (snd (fst (trainModel Toy.runtime (Toy.running 7 100) Toy.one_pair
                             Toy.no_options "12:00" Toy.source 0))))
  = 101.
Proof.
  exact (proj1 (proj2 (trainModel_success_counts Toy.runtime
                         (Toy.running 7 100) Toy.one_pair Toy.no_options
                         "12:00" Toy.source 0 eq_refl))).
Defined.

(** X10.  The curriculum level recorded after a run is a level name; it
    is the level before, or - only for a final accuracy above 0.8 - the
    next one in the order beginner .. expert.  From expert it does not
    move. *)
Theorem advance_one_level (R : Runtime) (acc : option (number R))
        (level : string) :
  In level levels ->
  let level' := advance R acc level in
  In level' levels /\
  (level' = level \/
   exists a i, acc = Some a /\ num_gt R a (num_lit R (8 # 10)) = true /\
               indexOf level levels = Some i /\
               indexOf level' levels = Some (S i)) /\
  (level = "expert" -> level' = "expert") /\
  ((forall a, acc = Some a -> num_gt R a (num_lit R (8 # 10)) = false) ->
   level' = level).
Proof.
  intros Hin. cbv zeta. unfold advance.
  destruct acc as [a|].
  - destruct (num_gt R a (num_lit R (8 # 10))) eqn:G.
    + simpl in Hin.
      destruct Hin as [<-|[<-|[<-|[<-|[<-|[]]]]]]; cbn;
        (split; [repeat (first [left; reflexivity | right])|]);
        (split;
         [first [left; reflexivity
                | right; exists a; eexists;
                  repeat split; first [reflexivity | exact G]]|]);
        (split; [intros E; first [discriminate E | reflexivity]|]);
        intros H; specialize (H a eq_refl); congruence.
    + split; [assumption|]. split; [now left|]. split; [trivial|].
      reflexivity.
  - split; [assumption|]. split; [now left|]. split; [trivial|].
    reflexivity.
Qed.

Lemma advance_one_level_witness :
  In "expert" levels /\
  advance Toy.runtime (Some (Toy.Num (9 # 10))) "expert" = "expert".
Proof.
  assert (H : In "expert" levels) by (simpl; tauto).
  split; [exact H|].
  exact (proj1 (proj2 (proj2 (advance_one_level Toy.runtime
                                (Some (Toy.Num (9 # 10))) "expert" H)))
               eq_refl).
Defined.

End TrainingMore.

(** ** More on [generateResponse] and the conversation context *)

Module ResponseMore.
Import JsString Tokenizer Env NeuralLanguageModel GenerateFacts.

(** X11.  [generateResponse] never returns the empty string: not before
    initialisation, not under the training guard, not when the search or
    TensorFlow.js fails, and not when the decoded text is empty. *)
Theorem generateResponse_never_empty (R : Runtime) (st : nlm R)
        (userInput now : string) (src : random_source) (pos : nat) :
  fst (fst (generateResponse R st userInput now src pos)) <> EmptyString.
Proof.
  pose proof (fallback_nonempty userInput src pos) as Hf.
  apply nonempty_true_neq. unfold generateResponse.
  destruct (initialized R st); [|reflexivity].
  destruct (model R st) as [net|]; [|reflexivity].
  destruct (totalExamples R (metrics R st) <? 100).
  - unfold bind, ret.
    destruct (generateFallbackResponse userInput src pos). exact Hf.
  - destruct (model_response R st net userInput) as [text|].
    + destruct (nonempty text) eqn:E; [exact E|].
      unfold bind, ret.
      destruct (generateFallbackResponse userInput src pos). exact Hf.
    + unfold bind, ret.
      destruct (generateFallbackResponse userInput src pos). exact Hf.
Qed.

Lemma update_history (c : conversationContext)
      (userInput botResponse now : string) :
  history (updateConversationContext c userInput botResponse now) =
  if List.length (history c) <? 50
  then history c ++ [mk_turn userInput botResponse now]
  else tl (history c ++ [mk_turn userInput botResponse now]).
Proof.
  unfold updateConversationContext. cbn [history].
  rewrite length_app. cbn [List.length].
  destruct (List.length (history c) <? 50) eqn:E.
  - apply Nat.ltb_lt in E.
    now rewrite (proj2 (Nat.ltb_ge _ _)) by lia.
  - apply Nat.ltb_ge in E.
    now rewrite (proj2 (Nat.ltb_lt _ _)) by lia.
Qed.

Lemma history_capped_aux (c : conversationContext)
      (userInput botResponse now : string) :
  List.length (history c) <= 50 ->
  List.length (history (updateConversationContext c userInput botResponse now))
  <= 50.
Proof.
  intros Hlen. rewrite update_history.
  destruct (List.length (history c) <? 50) eqn:E.
  - apply Nat.ltb_lt in E. rewrite length_app. simpl. lia.
  - destruct (history c) as [|t0 old]; simpl in *; [lia|].
    rewrite length_app. simpl. lia.
Qed.

(** X12.  [updateConversationContext] keeps the history within 50 turns:
    on a history of at most 50 turns it appends the new turn, after
    dropping the oldest one when there were 50 already; the new turn is
    the last entry. *)
Theorem history_capped (c : conversationContext)
        (userInput botResponse now : string) :
  List.length (history c) <= 50 ->
  let c' := updateConversationContext c userInput botResponse now in
  let t := mk_turn userInput botResponse now in
  List.length (history c') <= 50 /\
  last (history c') t = t /\
  (List.length (history c) < 50 -> history c' = history c ++ [t]) /\
  (List.length (history c) = 50 -> history c' = tl (history c) ++ [t]).
Proof.
  intros Hlen. cbv zeta. rewrite update_history.
  destruct (List.length (history c) <? 50) eqn:E.
  - apply Nat.ltb_lt in E. repeat split.
    + rewrite length_app. simpl. lia.
    + apply last_last.
    + intros H. lia.
  - apply Nat.ltb_ge in E.
    destruct (history c) as [|t0 old] eqn:Eh; [simpl in E; lia|].
    cbn [app tl]. simpl in Hlen, E. repeat split.
    + rewrite length_app. simpl. lia.
    + apply last_last.
    + intros H. simpl in H. lia.
Qed.

Lemma history_capped_witness :
  List.length
    (history (updateConversationContext
                (mk_context (repeat (mk_turn "a" "b" "t") 50) None)
                "hello" "hi" "12:00")) <= 50.
Proof.
  apply (history_capped (mk_context (repeat (mk_turn "a" "b" "t") 50) None)
                        "hello" "hi" "12:00").
  simpl. lia.
Defined.

(** X13.  [generateResponse] changes nothing of the instance but the
    conversation context: flag, network, tokenizer, data manager,
    parameters and metrics stay.  The context either stays or gets one
    turn, made of the input and the text decoded from the best beam; so a
    history of at most 50 turns stays within 50. *)
Theorem generateResponse_frame (R : Runtime) (st : nlm R)
        (userInput now : string) (src : random_source) (pos : nat) :
  let st' := snd (fst (generateResponse R st userInput now src pos)) in
  initialized R st' = initialized R st /\
  model R st' = model R st /\
  tokenizer R st' = tokenizer R st /\
  manager R st' = manager R st /\
  params R st' = params R st /\
  metrics R st' = metrics R st /\
  (context R st' = context R st \/
   exists net text,
     model R st = Some net /\
     model_response R st net userInput = Some text /\
     context R st' =
       updateConversationContext (context R st) userInput text now) /\
  (List.length (history (context R st)) <= 50 ->
   List.length (history (context R st')) <= 50).
Proof.
  cbv zeta. unfold generateResponse.
  destruct (initialized R st) eqn:Ei;
    [|unfold ret; cbn [fst snd]; rewrite Ei; tauto].
  destruct (model R st) as [net|] eqn:Em;
    [|unfold ret; cbn [fst snd]; rewrite Ei, Em; tauto].
  destruct (totalExamples R (metrics R st) <? 100).
  { unfold bind, ret.
    destruct (generateFallbackResponse userInput src pos).
    cbn [fst snd]. rewrite Ei, Em. tauto. }
  destruct (model_response R st net userInput) as [text|] eqn:Er.
  - assert (Hcap : List.length (history (context R st)) <= 50 ->
                   List.length
                     (history (updateConversationContext (context R st)
                                 userInput text now)) <= 50).
    { intros H.
      apply (history_capped_aux (context R st) userInput text now H). }
    destruct (nonempty text); unfold bind, ret;
      try destruct (generateFallbackResponse userInput src pos);
      cbn [fst snd initialized model tokenizer manager params metrics context];
      do 6 (split; [reflexivity|]);
      (split; [right; exists net, text; repeat split; exact Er
              | exact Hcap]).
  - unfold bind, ret.
    destruct (generateFallbackResponse userInput src pos).
    cbn [fst snd]. rewrite Ei, Em. tauto.
Qed.

End ResponseMore.

(** ** Saving, loading, export and import *)

Module PersistenceMore.
Import JsString Tokenizer Env NeuralLanguageModel Corpus Lifecycle.

(** X14.  What [saveModel] stores, [loadModel] restores: after a save on
    an initialised instance with an initialised data manager, loading
    into an instance that shares the manager and has a tokenizer object
    replaces its tables by the saved ones and installs the network
    [createModel] builds from that instance's parameters. *)
Theorem save_then_load (R : Runtime) (st other : nlm R) (net net' : Net R)
        (tk tk0 : Tokenizer.t) (dm : dataManager) :
  initialized R st = true ->
  model R st = Some net ->
  tokenizer R st = Some tk ->
  manager R st = Some dm ->
  dm_initialized dm = true ->
  manager R other = manager R (snd (saveModel R st)) ->
  tokenizer R other = Some tk0 ->
  create R (p_sizes R (params R other)) (learningRate R (params R other))
         (dropoutRate R (params R other)) = Some net' ->
  fst (saveModel R st) = true /\
  fst (loadModel R other) = Some net' /\
  tokenizer R (snd (loadModel R other)) = Some tk /\
  model R (snd (loadModel R other)) = Some net' /\
  params R (snd (loadModel R other)) = params R other /\
  metrics R (snd (loadModel R other)) = metrics R other.
Proof.
  intros Hi Hm Ht Hg Hd Ho Hk Hc.
  assert (Es : saveModel R st =
               (true, with_manager R st (Some (mk_dm true (Some tk))))).
  { unfold saveModel. rewrite Hi, Hm, Ht, Hg.
    unfold saveTokenizerData. rewrite Hd. reflexivity. }
  rewrite Es in *. cbn [fst snd with_manager manager] in Ho.
  split; [reflexivity|].
  unfold loadModel. rewrite Ho. cbn [getTokenizerData dm_initialized
                                       dm_tokenizer].
  rewrite Hk, Hc. cbn. repeat split.
Qed.

Lemma save_then_load_witness :
  let saved := snd (saveModel Toy.runtime (Toy.running 7 100)) in
  tokenizer Toy.runtime
    (snd (loadModel Toy.runtime
            (mk_nlm Toy.runtime false None (Some unfit)
                    (manager Toy.runtime saved) Toy.toy_parameters
                    (mk_context [] None) Toy.fresh_metrics)))
  = Some Toy.tk_hello.
Proof.
  exact (proj1 (proj2 (proj2
    (save_then_load Toy.runtime (Toy.running 7 100)
       (mk_nlm Toy.runtime false None (Some unfit)
               (manager Toy.runtime
                  (snd (saveModel Toy.runtime (Toy.running 7 100))))
               Toy.toy_parameters (mk_context [] None) Toy.fresh_metrics)
       7 0 Toy.tk_hello unfit (mk_dm true None)
       eq_refl eq_refl eq_refl eq_refl eq_refl eq_refl eq_refl eq_refl)))).
Defined.

(** X15.  Importing an exported bundle restores the tokenizer, the
    parameters and the training metrics of the exporting instance
    exactly (the network is the one [createModel] builds).  Hence, as
    long as the exporting instance is under the training guard, the
    importing one gives the same response to every input. *)
Theorem export_import_restores (R : Runtime) (st st0 : nlm R)
        (data : bundle R) (tk0 : Tokenizer.t) (net' : Net R)
        (now : string) :
  exportModel R st "json" now = Some (Json R data) ->
  tokenizer R st0 = Some tk0 ->
  create R (p_sizes R (params R st)) (learningRate R (params R st))
         (dropoutRate R (params R st)) = Some net' ->
  let out := importModel R st0 (Some (as_import R data)) in
  fst out = true /\
  initialized R (snd out) = true /\
  model R (snd out) = Some net' /\
  tokenizer R (snd out) = tokenizer R st /\
  params R (snd out) = params R st /\
  metrics R (snd out) = metrics R st /\
  (totalExamples R (metrics R st) < 100 ->
   forall userInput now' src pos,
     fst (fst (generateResponse R (snd out) userInput now' src pos)) =
     fst (fst (generateResponse R st userInput now' src pos))).
Proof.
  intros He Hk Hc. cbv zeta.
  unfold exportModel in He.
  destruct (initialized R st) eqn:Ei; [|discriminate].
  destruct (model R st) as [net|] eqn:Em; [|discriminate].
  cbn in He.
  destruct (tokenizer R st) as [tk|] eqn:Et; [|discriminate].
  injection He as <-.
  unfold importModel, as_import. cbn [x_model x_tokenizer x_parameters
                                        x_trainingMetrics option_or].
  rewrite Hk, Hc. cbn [fst snd initialized model tokenizer params metrics].
  repeat split.
  intros Hlt userInput now' src pos.
  apply Nat.ltb_lt in Hlt.
  unfold generateResponse.
  cbn [initialized model metrics]. rewrite Ei, Em, Hlt.
  unfold bind, ret.
  now destruct (generateFallbackResponse userInput src pos).
Qed.

Lemma export_import_restores_witness :
  match exportModel Toy.runtime (Toy.running 7 42) "json" "12:00" with
  | Some (Json _ data) =>
      metrics Toy.runtime
        (snd (importModel Toy.runtime (Toy.running 3 0)
                          (Some (as_import Toy.runtime data))))
      = metrics Toy.runtime (Toy.running 7 42)
  | _ => False
  end.
Proof.
  destruct (exportModel Toy.runtime (Toy.running 7 42) "json" "12:00")
    as [[|data]|] eqn:E; try (vm_compute in E; discriminate E).
  exact (proj1 (proj2 (proj2 (proj2 (proj2 (proj2
    (export_import_restores Toy.runtime (Toy.running 7 42) (Toy.running 3 0)
       data Toy.tk_hello 0 "12:00" E eq_refl eq_refl))))))).
Defined.

(** X16.  [importModel] returns [true] exactly when the data has a
    network description and tokenizer tables, the instance has a
    tokenizer object, and [createModel] succeeds on the merged
    parameters.  Data lacking the network or the tables is refused
    without any change to the instance. *)
Theorem importModel_accepts_iff (R : Runtime) (st : nlm R)
        (data : option (importData R)) :
  (fst (importModel R st data) = true <->
   exists j itk ip im tk0 net,
     data = Some (mk_import R (Some j) (Some itk) ip im) /\
     tokenizer R st = Some tk0 /\
     create R (p_sizes R (option_or ip (params R st)))
            (learningRate R (option_or ip (params R st)))
            (dropoutRate R (option_or ip (params R st))) = Some net) /\
  ((data = None \/
    exists d, data = Some d /\ (i_model R d = None \/ i_tokenizer R d = None))
   -> importModel R st data = (false, st)).
Proof.
  split.
  - split.
    + unfold importModel.
      destruct data as [[[j|] [itk|] ip im]|]; try discriminate.
      destruct (tokenizer R st) as [tk0|]; [|discriminate].
      destruct (create R _ _ _) as [net|] eqn:Ec; [|discriminate].
      intros _. exists j, itk, ip, im, tk0, net. repeat split. exact Ec.
    + intros (j & itk & ip & im & tk0 & net & -> & Hk & Hc).
      unfold importModel. now rewrite Hk, Hc.
  - intros [->|[d [-> [H|H]]]]; [reflexivity | |];
      destruct d as [[j|] [itk|] ip im]; cbn in H; try discriminate;
      reflexivity.
Qed.

End PersistenceMore.

(** ** Start-up and learning *)

Module LifecycleFacts.
Import JsString Tokenizer Env NeuralLanguageModel Corpus Lifecycle
       GenerateFacts TrainingMore.

(** The tokenizer [initialize] ends with: the saved tables if the manager
    holds some, else the fit on the manager's corpus, else no
    vocabulary. *)
Lemma initialize_ok (R : Runtime) (st : nlm R) (dm : dataManager)
      (td : trainingData) (p : option (parameters R)) (net : Net R) :
  dm_initialized dm = true ->
  create R (p_sizes R (option_or p (params R st)))
         (learningRate R (option_or p (params R st)))
         (dropoutRate R (option_or p (params R st))) = Some net ->
  initialize R st (Some dm) td p =
  (Normal true,
   mk_nlm R true (Some net)
          (Some match dm_tokenizer dm with
                | Some saved => saved
                | None => match getTrainingData dm td with
                          | [] => unfit
                          | _ :: _ => fit unfit (getTrainingData dm td)
                          end
                end)
          (Some dm) (option_or p (params R st)) (context R st)
          (metrics R st)).
Proof.
  intros Hd Hc.
  unfold initialize, initializeTokenizer, initializeModel, loadModel,
    getTokenizerData.
  cbn [manager tokenizer params model initialized context metrics].
  rewrite Hd.
  destruct (dm_tokenizer dm) as [saved|];
    cbn [manager tokenizer params model initialized context metrics];
    rewrite Hc;
    cbn [manager tokenizer params model initialized context metrics];
    try rewrite Hc; reflexivity.
Qed.

(** X17.  After [initialize] with an initialised data manager the
    instance is initialised and has a network; its metrics and
    conversation context are untouched; and its vocabulary is the one
    saved in the manager if there is one - not a fit on the current
    corpus -, otherwise the fit on the manager's training texts, and no
    vocabulary at all when there are none. *)
Theorem initialize_vocabulary (R : Runtime) (st : nlm R) (dm : dataManager)
        (td : trainingData) (p : option (parameters R)) (net : Net R) :
  dm_initialized dm = true ->
  create R (p_sizes R (option_or p (params R st)))
         (learningRate R (option_or p (params R st)))
         (dropoutRate R (option_or p (params R st))) = Some net ->
  let out := initialize R st (Some dm) td p in
  fst out = Normal true /\
  initialized R (snd out) = true /\
  model R (snd out) = Some net /\
  metrics R (snd out) = metrics R st /\
  context R (snd out) = context R st /\
  (forall saved, dm_tokenizer dm = Some saved ->
                 tokenizer R (snd out) = Some saved) /\
  (dm_tokenizer dm = None -> getTrainingData dm td <> [] ->
   tokenizer R (snd out) = Some (fit unfit (getTrainingData dm td))) /\
  (dm_tokenizer dm = None -> getTrainingData dm td = [] ->
   tokenizer R (snd out) = Some unfit).
Proof.
  intros Hd Hc. cbv zeta. rewrite (initialize_ok R st dm td p net Hd Hc).
  cbn [fst snd initialized model metrics context tokenizer].
  repeat split.
  - intros saved ->. reflexivity.
  - intros -> Hne. destruct (getTrainingData dm td); [now contradiction Hne|].
    reflexivity.
  - intros -> ->. reflexivity.
Qed.

Lemma initialize_vocabulary_witness :
  tokenizer Toy.runtime
    (snd (initialize Toy.runtime (constructed Toy.runtime Toy.toy_parameters)
                     (Some (mk_dm true None))
                     (mk_trainingData
                        [mk_conversation "hello world" "hello there" "12:00"
                                         "en" "beginner" "general"] [] [])
                     None))
  = Some Toy.tk_hello.
Proof.
  refine (proj1 (proj2 (proj2 (proj2 (proj2 (proj2 (proj2
    (initialize_vocabulary Toy.runtime
       (constructed Toy.runtime Toy.toy_parameters) (mk_dm true None)
       (mk_trainingData
          [mk_conversation "hello world" "hello there" "12:00"
                           "en" "beginner" "general"] [] [])
       None 0 eq_refl eq_refl))))))) eq_refl _).
  discriminate.
Defined.

(** X18.  A newly constructed instance, once initialised, answers every
    input with the rule-based fallback and stays as it is: it has seen no
    example, so the training guard holds. *)
Theorem fresh_instance_uses_fallback (R : Runtime) (p0 : parameters R)
        (dm : dataManager) (td : trainingData) (net : Net R)
        (userInput now : string) (src : random_source) (pos : nat) :
  dm_initialized dm = true ->
  create R (p_sizes R p0) (learningRate R p0) (dropoutRate R p0) = Some net ->
  let st := snd (initialize R (constructed R p0) (Some dm) td None) in
  generateResponse R st userInput now src pos =
  (let (r, pos') := generateFallbackResponse userInput src pos in
   ((r, st), pos')).
Proof.
  intros Hd Hc. cbv zeta.
  rewrite (initialize_ok R (constructed R p0) dm td None net Hd Hc).
  cbn [snd]. unfold generateResponse.
  cbn [initialized model metrics constructed totalExamples].
  cbn [Nat.ltb Nat.leb]. unfold bind, ret.
  now destruct (generateFallbackResponse userInput src pos).
Qed.

Lemma fresh_instance_uses_fallback_witness :
  fst (fst (generateResponse Toy.runtime
              (snd (initialize Toy.runtime
                      (constructed Toy.runtime Toy.toy_parameters)
                      (Some (mk_dm true None)) empty_data None))
              "Goodbye" "12:00" Toy.source 0))
  = farewell_response.
Proof.
  rewrite (fresh_instance_uses_fallback Toy.runtime Toy.toy_parameters
             (mk_dm true None) empty_data 0 "Goodbye" "12:00" Toy.source 0
             eq_refl eq_refl).
  reflexivity.
Defined.

Lemma adjacent_length {A : Type} (mk : string -> string -> A)
      (l : list string) :
  List.length (adjacent mk l) = List.length l - 1.
Proof.
  induction l as [|a [|b l] IH]; [reflexivity | reflexivity|].
  cbn [adjacent List.length] in *. rewrite IH. lia.
Qed.

(** X19.  [learnFromText] on an initialised instance trains on the pairs
    of neighbouring sentences of the text: one pair fewer than there are
    non-blank sentences.  With fewer than two sentences it does not
    train, makes no draw and returns [false]; otherwise it returns [true]
    whenever [trainModel] returns, also when that returned [false]. *)
Theorem learnFromText_outcome (R : Runtime) (st : nlm R) (dm : dataManager)
        (td : trainingData) (text language : string) (md : addMeta)
        (now : string) (src : random_source) (pos : nat) :
  initialized R st = true ->
  manager R st = Some dm ->
  let n := List.length (sentences text) in
  let trainingPairs :=
    adjacent (fun a b => mk_pair a b (Some (mk_meta (m_difficulty md))))
             (sentences text) in
  let td' := snd (addTrainingText dm td text language md now) in
  let out := learnFromText R st td text language md now src pos in
  List.length trainingPairs = n - 1 /\
  (n < 2 -> out = ((false, st, td'), pos)) /\
  (2 <= n ->
   forall trained st' pos',
     trainModel R st trainingPairs (no_options R) now src pos
     = ((Normal trained, st'), pos') ->
     out = ((true, st', td'), pos')).
Proof.
  intros Hi Hm. cbv zeta.
  split; [apply adjacent_length|].
  unfold learnFromText. rewrite Hi, Hm. cbn [negb].
  pose proof (adjacent_length
                (fun a b => mk_pair a b (Some (mk_meta (m_difficulty md))))
                (sentences text)) as Hlen.
  destruct (adjacent _ (sentences text)) as [|pr prs] eqn:Ea; simpl in Hlen.
  - split; [reflexivity|]. intros H. lia.
  - split; [intros H; lia|].
    intros _ trained st' pos' Ht. unfold bind. rewrite Ht. reflexivity.
Qed.

Lemma learnFromText_outcome_witness :
  fst (fst (fst (learnFromText Toy.runtime (Toy.running 7 100) empty_data
                               "One sentence only." "en" no_meta "12:00"
                               Toy.source 0)))
  = false.
Proof.
  rewrite (proj1 (proj2 (learnFromText_outcome Toy.runtime (Toy.running 7 100)
                           (mk_dm true None) empty_data
                           "One sentence only." "en" no_meta "12:00"
                           Toy.source 0 eq_refl eq_refl))).
  - reflexivity.
  - vm_compute. lia.
Defined.

Lemma trainModel_untagged_no_draw (R : Runtime) (st : nlm R)
      (data : list pair) (o : options R) (now : string)
      (src : random_source) (pos : nat) :
  hasDifficultyMetadata data = false ->
  snd (trainModel R st data o now src pos) = pos /\
  fst (select_curriculum R (metrics R st) data src pos) = data.
Proof.
  intros H. unfold trainModel, select_curriculum. rewrite H.
  split; [|reflexivity].
  destruct (initialized R st); [|reflexivity].
  destruct (model R st); reflexivity.
Qed.

(** X20.  [recordFeedback] on an initialised instance trains on exactly
    the pair (input, corrected response): the curriculum filter is off
    and no random draw is made.  It returns [true] whenever [trainModel]
    returns, and when that returned [true] the example counter went up by
    one.  With an initialised manager the correction is the newest
    feedback entry. *)
Theorem recordFeedback_outcome (R : Runtime) (st : nlm R) (dm : dataManager)
        (td : trainingData) (up : userProfile)
        (userInput botResponse correctResponse now : string)
        (src : random_source) (pos : nat) :
  initialized R st = true ->
  manager R st = Some dm ->
  let example := [mk_pair userInput correctResponse None] in
  let td' := snd (addFeedback dm td up userInput botResponse correctResponse
                              no_meta now) in
  let out := recordFeedback R st td up userInput botResponse correctResponse
                            now src pos in
  snd out = pos /\
  fst (select_curriculum R (metrics R st) example src pos) = example /\
  (forall trained st',
      fst (trainModel R st example (no_options R) now src pos)
      = (Normal trained, st') ->
      fst out = (true, st', td') /\
      (trained = true ->
       totalExamples R (metrics R st') = totalExamples R (metrics R st) + 1)) /\
  (dm_initialized dm = true ->
   exists entry,
     feedback td' = feedback td ++ [entry] /\
     f_input entry = userInput /\
     f_correctResponse entry = correctResponse).
Proof.
  intros Hi Hm. cbv zeta.
  destruct (trainModel_untagged_no_draw R st
              [mk_pair userInput correctResponse None] (no_options R) now
              src pos eq_refl) as [Hpos Hsel].
  unfold recordFeedback. rewrite Hi, Hm. cbn [negb]. unfold bind.
  destruct (trainModel R st [mk_pair userInput correctResponse None]
                       (no_options R) now src pos) as [[c st1] pos1] eqn:Et.
  cbn [snd] in Hpos. subst pos1.
  split; [destruct c; reflexivity|]. split; [exact Hsel|]. split.
  - intros trained st' E. cbn [fst] in E. injection E as -> ->.
    split; [reflexivity|]. intros ->.
    pose proof (trainModel_success_aux R st
                  [mk_pair userInput correctResponse None] (no_options R)
                  now src pos) as H.
    cbv zeta in H. rewrite Et in H. cbn [fst snd] in H.
    destruct (H eq_refl) as (_ & He & _). rewrite He, Hsel. reflexivity.
  - intros Hd. unfold addFeedback. rewrite Hd. cbn [snd feedback].
    eexists. split; [reflexivity|]. split; reflexivity.
Qed.

Lemma recordFeedback_outcome_witness :
  snd (recordFeedback Toy.runtime (Toy.running 7 100) empty_data
                      default_profile "Hello" "Hi" "Hi there, friend!"
                      "12:00" Toy.source 5)
  = 5.
Proof.
  exact (proj1 (recordFeedback_outcome Toy.runtime (Toy.running 7 100)
                  (mk_dm true None) empty_data default_profile
                  "Hello" "Hi" "Hi there, friend!" "12:00" Toy.source 5
                  eq_refl eq_refl)).
Defined.

(** X28.  With a [createModel] that raises - as it does with
    TensorFlow.js 3.18.0 - an instance never becomes ready: [initialize]
    ends in an exception, with the flag still unset and the network as
    before, although the data manager and, if there is a manager, the
    tokenizer have been installed; [importModel] returns [false]
    afterwards, whatever the data; and every input is answered with the
    sentence of the guard. *)
Theorem never_ready_without_createModel (R : Runtime) (st : nlm R)
        (dm : option dataManager) (td : trainingData)
        (p : option (parameters R)) :
  (forall s l d, create R s l d = None) ->
  initialized R st = false ->
  let out := initialize R st dm td p in
  (exists e, fst out = Throw e) /\
  initialized R (snd out) = false /\
  model R (snd out) = model R st /\
  manager R (snd out) = dm /\
  (dm <> None -> tokenizer R (snd out) <> None) /\
  (forall data,
      fst (importModel R (snd out) data) = false /\
      initialized R (snd (importModel R (snd out) data)) = false) /\
  (forall userInput now src pos,
      generateResponse R (snd out) userInput now src pos
      = ((still_initializing, snd out), pos)).
Proof.
  intros Hc Hi. cbv zeta.
  assert (Hgen : forall s : nlm R,
             initialized R s = false ->
             (forall data,
                 fst (importModel R s data) = false /\
                 initialized R (snd (importModel R s data)) = false) /\
             (forall userInput now src pos,
                 generateResponse R s userInput now src pos
                 = ((still_initializing, s), pos))).
  { intros s Hs. split.
    - intros [[[j|] [itk|] ip im]|]; cbn; try (now split).
      destruct (tokenizer R s); [|now split].
      rewrite Hc. cbn. now split.
    - intros. unfold generateResponse. rewrite Hs. reflexivity. }
  unfold initialize, initializeTokenizer, initializeModel, loadModel.
  cbn [manager tokenizer params model initialized context metrics].
  destruct dm as [d|].
  - cbn [manager tokenizer params model initialized context metrics].
    destruct (getTokenizerData d) as [saved|];
      cbn [manager tokenizer params model initialized context metrics];
      rewrite ?Hc;
      cbn [manager tokenizer params model initialized context metrics
           fst snd];
      rewrite ?Hc; cbn [fst snd initialized model manager tokenizer];
      (split; [eexists; reflexivity|]);
      (split; [exact Hi|]); (split; [reflexivity|]);
      (split; [reflexivity|]); (split; [intros _; discriminate|]);
      apply Hgen; exact Hi.
  - cbn [fst snd initialized model manager tokenizer].
    split; [eexists; reflexivity|].
    split; [exact Hi|]. split; [reflexivity|]. split; [reflexivity|].
    split; [intros H; now contradiction H|].
    apply Hgen; exact Hi.
Qed.

Lemma never_ready_without_createModel_witness :
  generateResponse Pinned.runtime Pinned.started "Hello" "12:00"
                   Toy.source 0
  = (("I'm still initializing. Please try again in a moment.",
      Pinned.started), 0).
Proof.
  exact (proj2 (proj2 (proj2 (proj2 (proj2 (proj2
    (never_ready_without_createModel Pinned.runtime Pinned.fresh
       (Some (mk_dm true None)) empty_data None
       (fun _ _ _ => eq_refl) eq_refl))))))
    "Hello" "12:00" Toy.source 0).
Defined.

End LifecycleFacts.

(** ** The training data of the data manager *)

Module CorpusFacts.
Import JsString Tokenizer NeuralLanguageModel Corpus.

Lemma split_run_no_sep (sep : ascii -> bool) (s : string) :
  forall (b : bool) (w : string) (c : ascii),
    In w (split_run sep b s) -> In c (list_ascii_of_string w) ->
    sep c = false.
Proof.
  induction s as [|a r IH]; intros b w c Hw Hc.
  - simpl in Hw. destruct Hw as [<-|[]]. destruct Hc.
  - simpl in Hw. destruct (sep a) eqn:Ea.
    + destruct b.
      * eapply IH; eassumption.
      * destruct Hw as [<-|Hw]; [destruct Hc|]. eapply IH; eassumption.
    + destruct (split_run sep false r) as [|w0 ws] eqn:Er.
      * destruct Hw as [<-|[]]. destruct Hc as [<-|[]]. exact Ea.
      * destruct Hw as [<-|Hw].
        -- destruct Hc as [<-|Hc]; [exact Ea|].
           apply (IH false w0 c); [rewrite Er; now left | exact Hc].
        -- apply (IH false w c); [rewrite Er; now right | exact Hc].
Qed.

Lemma trim_start_chars (s : string) (c : ascii) :
  In c (list_ascii_of_string (trim_start s)) -> In c (list_ascii_of_string s).
Proof.
  induction s as [|a r IH]; simpl; [tauto|].
  destruct (is_space a); [intros H; right; now apply IH | simpl; tauto].
Qed.

Lemma trim_end_cons (a : ascii) (r : string) :
  trim_end (String a r) =
  match trim_end r with
  | EmptyString => if is_space a then EmptyString else String a EmptyString
  | String d r' => String a (String d r')
  end.
Proof. reflexivity. Qed.

Lemma trim_end_chars (s : string) (c : ascii) :
  In c (list_ascii_of_string (trim_end s)) -> In c (list_ascii_of_string s).
Proof.
  induction s as [|a r IH]; [simpl; tauto|].
  rewrite trim_end_cons. destruct (trim_end r) as [|d r'].
  - destruct (is_space a); simpl; tauto.
  - simpl. simpl in IH. tauto.
Qed.

Lemma trim_end_idem (s : string) : trim_end (trim_end s) = trim_end s.
Proof.
  induction s as [|a r IH]; [reflexivity|].
  rewrite (trim_end_cons a r). destruct (trim_end r) as [|d r'].
  - destruct (is_space a) eqn:Ea; [reflexivity|].
    rewrite trim_end_cons. cbn [trim_end]. now rewrite Ea.
  - rewrite (trim_end_cons a (String d r')), IH. reflexivity.
Qed.

Lemma trim_start_head (s : string) :
  trim_start s = EmptyString \/
  exists c r, trim_start s = String c r /\ is_space c = false.
Proof.
  induction s as [|a r IH]; [now left|].
  simpl. destruct (is_space a) eqn:E; [exact IH|]. right. eauto.
Qed.

Lemma trim_end_head (c : ascii) (r : string) :
  is_space c = false -> exists r', trim_end (String c r) = String c r'.
Proof.
  intros H. rewrite trim_end_cons. destruct (trim_end r); [rewrite H|]; eauto.
Qed.

Lemma trim_idem (s : string) : trim (trim s) = trim s.
Proof.
  unfold trim. destruct (trim_start_head s) as [E|(c & r & E & Hc)]; rewrite E.
  - reflexivity.
  - destruct (trim_end_head c r Hc) as [r' E']. rewrite E'.
    cbn [trim_start]. rewrite Hc, <- E'. apply trim_end_idem.
Qed.

(** What [split(/[.!?]+/)], the filter and [trim] leave of a text. *)
Lemma sentence_clean (content s : string) :
  In s (map trim (sentences content)) ->
  nonempty s = true /\
  (forall c, In c (list_ascii_of_string s) -> is_stop c = false) /\
  trim s = s.
Proof.
  intros H. apply in_map_iff in H as (s0 & <- & H).
  unfold sentences in H. apply filter_In in H as [Hin Hne].
  split; [exact Hne|]. split; [|apply trim_idem].
  intros c Hc. apply (split_run_no_sep is_stop content false s0 c Hin).
  apply trim_start_chars, trim_end_chars. exact Hc.
Qed.

Lemma adjacent_in {A : Type} (mk : string -> string -> A) (l : list string)
      (x : A) :
  In x (adjacent mk l) ->
  exists a b, x = mk (trim a) (trim b) /\ In a l /\ In b l.
Proof.
  induction l as [|a [|b l] IH]; [intros [] | intros []|].
  cbn [adjacent]. intros [<-|H].
  - exists a, b. split; [reflexivity|]. split; [now left | right; now left].
  - destruct (IH H) as (a' & b' & E & Ha & Hb).
    exists a', b'. split; [exact E|]. split; now right.
Qed.

Lemma str_or_nonempty (x : option string) (fallback : string) :
  nonempty fallback = true -> nonempty (str_or x fallback) = true.
Proof.
  intros H. unfold str_or. destruct x as [s|]; [|exact H].
  destruct (nonempty s) eqn:E; [exact E | exact H].
Qed.

Lemma str_or_idem (x : option string) (fallback : string) :
  nonempty fallback = true ->
  str_or (Some (str_or x fallback)) fallback = str_or x fallback.
Proof.
  intros H. unfold str_or at 1. now rewrite str_or_nonempty.
Qed.

Lemma set_in {V : Type} (m : list (string * V)) (k : string) (v : V) :
  In (k, v) (sset m k v).
Proof.
  induction m as [|[k' v'] m IH]; simpl; [now left|].
  destruct (String.eqb k k') eqn:E.
  - apply String.eqb_eq in E. subst. now left.
  - now right.
Qed.

Lemma get_set_same {V : Type} (m : list (string * V)) (k : string) (v : V) :
  sget (sset m k v) k = Some v.
Proof.
  induction m as [|[k' v'] m IH]; simpl.
  - now rewrite String.eqb_refl.
  - destruct (String.eqb k k') eqn:E; simpl; rewrite E; [reflexivity | exact IH].
Qed.

(** After the guard of [addTrainingText] and of [initialize] a language
    that names no inherited member has its own array. *)
Lemma ensure_language_get (txts : list (string * list textObj))
      (lang : string) :
  JsObject.is_inherited lang = false ->
  exists old, sget (ensure_language txts lang) lang = Some old.
Proof.
  intros Hi. unfold ensure_language, JsMap.has.
  destruct (sget txts lang) as [old|] eqn:E.
  - exists old. exact E.
  - rewrite Hi. exists []. apply get_set_same.
Qed.

(** X21.  Every text that [getTrainingData] hands to [tokenizer.fit] is
    the input or response of a stored conversation, the input or
    correction of a stored feedback entry, or a sentence of a stored
    text; such a sentence is not empty, holds none of [.], [!] and [?],
    and neither starts nor ends with white space.  An uninitialised
    manager hands over nothing. *)
Theorem training_texts_origin (dm : dataManager) (td : trainingData)
        (s : string) :
  In s (getTrainingData dm td) ->
  dm_initialized dm = true /\
  ((exists conv, In conv (conversations td) /\
                 (s = c_input conv \/ s = c_response conv)) \/
   (exists fb, In fb (feedback td) /\
               (s = f_input fb \/ s = f_correctResponse fb)) \/
   (exists lang objs textObj,
       In (lang, objs) (texts td) /\ In textObj objs /\
       In s (map trim (sentences (t_content textObj))) /\
       nonempty s = true /\
       (forall c, In c (list_ascii_of_string s) -> is_stop c = false) /\
       trim s = s)).
Proof.
  unfold getTrainingData. destruct (dm_initialized dm); [|intros []].
  intros H. split; [reflexivity|].
  apply in_app_or in H as [H|H]; [|apply in_app_or in H as [H|H]].
  - left. apply in_flat_map in H as (conv & Hc & [E|[E|[]]]);
      exists conv; split; auto.
  - right. right. apply in_flat_map in H as ([lang objs] & He & H).
    apply in_flat_map in H as (textObj & Ho & H).
    exists lang, objs, textObj. split; [exact He|]. split; [exact Ho|].
    split; [exact H|]. apply (sentence_clean (t_content textObj)). exact H.
  - right. left. apply in_flat_map in H as (fb & Hf & [E|[E|[]]]);
      exists fb; split; auto.
Qed.

Lemma training_texts_origin_witness :
  getTrainingData
    (mk_dm true None)
    (mk_trainingData
       [] [("en", [mk_textObj "Hi there.  How are you? " "12:00"
                              "beginner" "general" "user"])] [])
  = ["Hi there"; "How are you"] /\
  trim "How are you" = "How are you".
Proof.
  split; [reflexivity|].
  destruct (training_texts_origin
              (mk_dm true None)
              (mk_trainingData
                 [] [("en", [mk_textObj "Hi there.  How are you? " "12:00"
                                        "beginner" "general" "user"])] [])
              "How are you"
              (or_intror (or_introl eq_refl)))
    as [_ [(conv & [] & _) | [(fb & [] & _) | (l & o & x & _ & _ & _ & _ & _ & H)]]].
  exact H.
Defined.

(** X22.  Every example of [getConversationPairs] carries a difficulty
    that is a non-empty string, so [trainModel] always applies its
    curriculum filter to a non-empty result; an uninitialised manager
    gives no example. *)
Theorem conversation_pairs_tagged (dm : dataManager) (td : trainingData)
        (language : option string) :
  let pairs := getConversationPairs dm td language in
  (forall pr, In pr pairs ->
              exists d, meta pr = Some (mk_meta (Some d)) /\
                        nonempty d = true) /\
  (pairs <> [] -> hasDifficultyMetadata pairs = true) /\
  (dm_initialized dm = false -> pairs = []).
Proof.
  cbv zeta.
  assert (Ht : forall d, exists d', tag d = Some (mk_meta (Some d')) /\
                                    nonempty d' = true).
  { intros d. eexists. split; [reflexivity|]. now apply str_or_nonempty. }
  assert (Hall : forall pr, In pr (getConversationPairs dm td language) ->
                            exists d, meta pr = Some (mk_meta (Some d)) /\
                                      nonempty d = true).
  { unfold getConversationPairs. destruct (dm_initialized dm); [|intros ? []].
    intros pr H.
    apply in_app_or in H as [H|H]; [|apply in_app_or in H as [H|H]].
    - apply in_flat_map in H as (conv & _ & H).
      destruct (filtered_out language (c_language conv)); [destruct H|].
      destruct H as [<-|[]]. apply Ht.
    - apply in_flat_map in H as (fb & _ & H).
      destruct (filtered_out language (f_language fb)); [destruct H|].
      destruct H as [<-|[]]. apply Ht.
    - apply in_flat_map in H as (entry & _ & H).
      destruct (filtered_out language (fst entry)); [destruct H|].
      apply in_flat_map in H as (textObj & _ & H).
      apply adjacent_in in H as (a & b & -> & _). apply Ht. }
  split; [exact Hall|]. split.
  - destruct (getConversationPairs dm td language) as [|pr prs];
      [intros H; now contradiction H|].
    intros _. destruct (Hall pr (or_introl eq_refl)) as (d & E & _).
    cbn [hasDifficultyMetadata existsb]. rewrite E. reflexivity.
  - intros H. unfold getConversationPairs. now rewrite H.
Qed.

(** X23.  What is added to an initialised manager reaches the model: the
    input and response of an added conversation are training texts and
    one example, tagged with the given difficulty or "beginner"; a
    tokenizer fitted on the manager's texts afterwards has every word of
    the input in its word table.  The trimmed sentences of an added text
    are training texts too, unless its language names an inherited
    member of the table of texts, such as "toString", and is no key of
    it: then [addTrainingText] returns [false] and stores nothing. *)
Theorem added_data_is_trained_on (dm : dataManager) (td : trainingData)
        (userInput botResponse : string) (md : addMeta) (now : string) :
  dm_initialized dm = true ->
  let td' := snd (addConversation dm td userInput botResponse md now) in
  In userInput (getTrainingData dm td') /\
  In botResponse (getTrainingData dm td') /\
  In (mk_pair userInput botResponse
              (Some (mk_meta (Some (str_or (m_difficulty md) "beginner")))))
     (getConversationPairs dm td' None) /\
  (forall w, In w (split_ws (toLowerCase userInput)) ->
             shas (word2idx (fit unfit (getTrainingData dm td'))) w = true) /\
  (forall text lang s,
      nonempty (trim text) = true -> nonempty lang = true ->
      JsObject.is_inherited lang = false ->
      In s (map trim (sentences text)) ->
      fst (addTrainingText dm td text lang md now) = true /\
      In s (getTrainingData dm
              (snd (addTrainingText dm td text lang md now)))) /\
  (forall text lang,
      JsObject.is_inherited lang = true -> shas (texts td) lang = false ->
      addTrainingText dm td text lang md now = (false, td)).
Proof.
  intros Hd. cbv zeta.
  assert (Hu : In userInput
                  (getTrainingData dm
                     (snd (addConversation dm td userInput botResponse md
                                           now))) /\
               In botResponse
                  (getTrainingData dm
                     (snd (addConversation dm td userInput botResponse md
                                           now)))).
  { unfold addConversation, getTrainingData. rewrite Hd.
    cbn [snd conversations]. rewrite flat_map_app.
    split; apply in_or_app; left; apply in_or_app; right; simpl; auto. }
  destruct Hu as [Hu Hb].
  split; [exact Hu|]. split; [exact Hb|]. split; [|split; [|split]].
  - unfold addConversation, getConversationPairs. rewrite Hd.
    cbn [snd conversations]. rewrite flat_map_app.
    apply in_or_app; left; apply in_or_app; right.
    cbn [flat_map filtered_out c_input c_response c_difficulty app].
    unfold tag. rewrite str_or_idem by reflexivity. now left.
  - intros w Hw.
    exact (VocabularyFacts.corpus_word_in_vocab unfit _ userInput w Hu Hw).
  - intros text lang s Ht Hl Hi Hs.
    assert (Hn : nonempty text = true).
    { destruct text; [discriminate Ht | reflexivity]. }
    unfold addTrainingText, getTrainingData. rewrite Hd, Hn, Hl, Ht.
    cbn [negb orb].
    destruct (ensure_language_get (texts td) lang Hi) as [old ->].
    cbn [fst snd conversations texts feedback]. split; [reflexivity|].
    apply in_or_app; right; apply in_or_app; left.
    apply in_flat_map. eexists. split; [apply set_in|].
    cbn [snd]. rewrite flat_map_app. apply in_or_app. right.
    cbn [flat_map t_content]. rewrite app_nil_r. exact Hs.
  - intros text lang Hi Hh. unfold addTrainingText. rewrite Hd.
    cbn [negb].
    destruct (negb (nonempty text) || negb (nonempty lang)
              || negb (nonempty (trim text))); [reflexivity|].
    unfold ensure_language. rewrite Hh, Hi.
    unfold JsMap.has in Hh.
    destruct (sget (texts td) lang); [discriminate Hh | reflexivity].
Qed.

Lemma added_data_is_trained_on_witness :
  In "How are you?"
     (getTrainingData (mk_dm true None)
        (snd (addConversation (mk_dm true None) empty_data
                              "How are you?" "Fine, thanks." no_meta
                              "12:00"))).
Proof.
  exact (proj1 (added_data_is_trained_on (mk_dm true None) empty_data
                  "How are you?" "Fine, thanks." no_meta "12:00" eq_refl)).
Defined.

Lemma ensure_language_shape (txts : list (string * list textObj))
      (lang : string) :
  exists extra, ensure_language txts lang = txts ++ extra /\
                Forall (fun e => snd e = []) extra.
Proof.
  unfold ensure_language. destruct (shas txts lang) eqn:E.
  - exists []. now rewrite app_nil_r.
  - destruct (JsObject.is_inherited lang).
    + exists []. now rewrite app_nil_r.
    + apply (JsMapFacts.has_false_iff String.eqb String.eqb_eq) in E.
      exists [(lang, [])]. split.
      * now apply (JsMapFacts.set_new String.eqb String.eqb_eq).
      * now constructor.
Qed.

Lemma fold_ensure_shape (langs : list string) :
  forall txts : list (string * list textObj),
  exists extra, fold_left ensure_language langs txts = txts ++ extra /\
                Forall (fun e => snd e = []) extra.
Proof.
  induction langs as [|l langs IH]; intros txts; cbn [fold_left].
  - exists []. now rewrite app_nil_r.
  - destruct (ensure_language_shape txts l) as (e1 & E1 & F1).
    destruct (IH (ensure_language txts l)) as (e2 & E2 & F2).
    exists (e1 ++ e2). rewrite E2, E1, app_assoc. split; [reflexivity|].
    apply Forall_app. now split.
Qed.

Lemma ensure_language_keys (txts : list (string * list textObj))
      (lang x : string) :
  (x = lang /\ JsObject.is_inherited x = false) \/ In x (JsMap.keys txts) ->
  In x (JsMap.keys (ensure_language txts lang)).
Proof.
  unfold ensure_language. destruct (shas txts lang) eqn:E.
  - apply (JsMapFacts.has_true_iff String.eqb String.eqb_eq) in E.
    intros [[-> _]|H]; assumption.
  - intros [[-> Hi]|H].
    + rewrite Hi. apply (JsMapMore.set_keys_self String.eqb String.eqb_eq).
    + destruct (JsObject.is_inherited lang); [exact H|].
      now apply (JsMapMore.set_keys_mono String.eqb String.eqb_eq).
Qed.

Lemma fold_ensure_keys (langs : list string) :
  forall (txts : list (string * list textObj)) (x : string),
    (In x langs /\ JsObject.is_inherited x = false)
    \/ In x (JsMap.keys txts) ->
    In x (JsMap.keys (fold_left ensure_language langs txts)).
Proof.
  induction langs as [|l langs IH]; intros txts x H; cbn [fold_left].
  - destruct H as [[[] _]|H]. exact H.
  - apply IH. destruct H as [[[<-|H] Hi]|H].
    + right. apply ensure_language_keys. left. now split.
    + left. now split.
    + right. apply ensure_language_keys. now right.
Qed.

(** An inherited name that is no key stays none. *)
Lemma fold_ensure_inherited (langs : list string) :
  forall (txts : list (string * list textObj)) (x : string),
    JsObject.is_inherited x = true ->
    shas txts x = false ->
    shas (fold_left ensure_language langs txts) x = false.
Proof.
  induction langs as [|l langs IH]; intros txts x Hi Hh; cbn [fold_left];
    [exact Hh|].
  apply IH; [exact Hi|]. unfold ensure_language.
  destruct (shas txts l) eqn:E; [exact Hh|].
  destruct (JsObject.is_inherited l) eqn:El; [exact Hh|].
  apply (JsMapFacts.has_false_iff String.eqb String.eqb_eq).
  apply (JsMapFacts.has_false_iff String.eqb String.eqb_eq) in Hh.
  intros H. apply (JsMapMore.set_keys_inv String.eqb String.eqb_eq) in H.
  destruct H as [->|H]; [congruence | contradiction].
Qed.

Lemma flat_map_empty_entries {A B C : Type} (f : A -> list B -> list C)
      (extra : list (A * list B)) :
  (forall a, f a [] = []) ->
  Forall (fun e => snd e = []) extra ->
  flat_map (fun e => f (fst e) (snd e)) extra = [].
Proof.
  intros Hf H. induction H as [|[a l] extra E _ IH]; [reflexivity|].
  cbn [flat_map fst snd] in *. subst l. now rewrite Hf, IH.
Qed.

(** X24.  [initialize] of the data manager gives every supported
    language its (possibly empty) array of texts - except a language
    that names an inherited member of the table, such as "constructor",
    which gets none -, keeps every array that was there, and changes
    neither the training texts nor the examples the manager hands out. *)
Theorem dm_initialize_keeps_data (dm : dataManager) (td : trainingData)
        (up : userProfile) :
  let dm' := fst (dm_initialize dm td up) in
  let td' := snd (dm_initialize dm td up) in
  dm_initialized dm' = true /\
  (forall lang, In lang (supportedLanguages up) ->
                JsObject.is_inherited lang = false ->
                shas (texts td') lang = true) /\
  (forall lang, JsObject.is_inherited lang = true ->
                shas (texts td) lang = false ->
                shas (texts td') lang = false) /\
  (forall lang objs, sget (texts td) lang = Some objs ->
                     sget (texts td') lang = Some objs) /\
  getTrainingData dm' td' = getTrainingData dm' td /\
  (forall language, getConversationPairs dm' td' language
                    = getConversationPairs dm' td language).
Proof.
  cbv zeta. unfold dm_initialize. cbn [fst snd dm_initialized texts].
  destruct (fold_ensure_shape (supportedLanguages up) (texts td))
    as (extra & E & F).
  split; [reflexivity|]. split; [|split; [|split; [|split]]].
  - intros lang H Hi.
    apply (JsMapFacts.has_true_iff String.eqb String.eqb_eq).
    apply fold_ensure_keys. left. now split.
  - intros lang Hi Hh. now apply fold_ensure_inherited.
  - intros lang objs H. rewrite E.
    now apply (JsMapFacts.get_app_l String.eqb).
  - unfold getTrainingData.
    cbn [dm_initialized conversations texts feedback].
    rewrite E, flat_map_app.
    rewrite (flat_map_empty_entries
               (fun (_ : string) objs =>
                  flat_map (fun textObj =>
                              map trim (sentences (t_content textObj)))
                           objs) extra (fun _ => eq_refl) F).
    now rewrite app_nil_r.
  - intros language. unfold getConversationPairs.
    cbn [dm_initialized conversations texts feedback].
    rewrite E, flat_map_app.
    rewrite (flat_map_empty_entries
               (fun (lang : string) objs =>
                  if filtered_out language lang then []
                  else flat_map
                         (fun textObj =>
                            adjacent (fun a b =>
                                        mk_pair a b
                                                (tag (t_difficulty textObj)))
                                     (sentences (t_content textObj)))
                         objs) extra).
    + now rewrite app_nil_r.
    + intros a. now destruct (filtered_out language a).
    + exact F.
Qed.

End CorpusFacts.
